(** * fetch_md_images: a shallow embedding and its verified properties

    The program scans a Markdown document for image references that point to
    remote HTTP(S) resources, downloads them and rewrites the references.

    Modelling conventions.
    - A Python [str] is a list of characters; the model covers ASCII text
      (code points below 128), on which [\s], [\S], [\b] and IGNORECASE are
      the ASCII classes written out below.
    - The patterns are syntax trees of a backtracking matcher that explores
      alternatives in the order of Python's [re] module (greedy and lazy
      repetition, optional groups, back-references, [^], [$], [\b]).
    - Effects are explicit: the file system (regular files and directories),
      the log of HTTP requests, of sleeps and of the error stream are fields
      of a [World]; the HTTP session is an oracle that answers the n-th
      request of a run; Python exceptions that escape a function are the
      [Raise] results of a small state-and-error monad.
    - Files are identified by their path strings and hold text.  Reading
      fails when no file has the path, and [read_text] turns every [\r\n]
      and every [\r] into a line feed; [write_text] writes the text as it is
      (the line separator of the platform is the line feed).  [mkdir] with
      [parents] and [exist_ok] fails when a regular file has the directory's
      name or the name of a directory above it.  Whether [exists] and [open]
      raise for the path of an image (a name with a NUL, a name too long) is
      decided by the library class; copying the body fails where the
      response says so; writing the document always succeeds.  A directory
      that stands at the path derived for an image is not covered.
    - A call [time.sleep(0.7 * k)] is recorded by its factor [k]; the
      product is a floating-point number ([0.7 * 3] is
      [2.0999999999999996]).
    - Library functions whose result depends on the platform or the Python
      version ([urlparse], [unquote], [mimetypes.guess_extension],
      [Path.resolve], [os.path.relpath], the errors of [Path.exists] and
      [open]) are the methods of the class [PyLib]; the theorems hold for
      every instance, and [posix_lib] is an executable instance used for
      the concrete runs.  SHA-1, Base64, the POSIX [os.path] string
      functions, the [pathlib] operations on normalised path strings and the
      replacement templates of [re.sub] are written out.
    - For the command line, the default headers of a [requests] session,
      the order in which the file system lists its entries and the text of
      an exception are the methods of the class [Platform]; a directory is
      one that [mkdir] made or one that lies above a file or such a
      directory. *)

From Stdlib Require Import ZArith Ascii String List Bool Lia.
From stdpp Require Import gmap strings list pretty.

Set Default Proof Using "Type".
Local Open Scope list_scope.

(** ** Text *)

Abbreviation str := (list ascii).

(** A string literal as a [str]. *)
Definition lit (x : string) : str := list_ascii_of_string x.

Definition dq : ascii := ascii_of_nat 34.   (* the double quote *)
Definition sq : ascii := ascii_of_nat 39.   (* the single quote *)
Definition nl : ascii := ascii_of_nat 10.   (* line feed *)
Definition cr : ascii := ascii_of_nat 13.   (* carriage return *)
Definition bs : ascii := ascii_of_nat 92.   (* backslash *)

Definition code (c : ascii) : nat := nat_of_ascii c.

Definition in_range (lo hi : nat) (c : ascii) : bool :=
  (lo <=? code c)%nat && (code c <=? hi)%nat.

(** [str.isspace] / [\s] on ASCII: TAB..CR, FS..US and the space. *)
Definition is_space (c : ascii) : bool :=
  in_range 9 13 c || in_range 28 31 c || (code c =? 32)%nat.

Definition is_digit (c : ascii) : bool := in_range 48 57 c.
Definition is_upper (c : ascii) : bool := in_range 65 90 c.
Definition is_lower (c : ascii) : bool := in_range 97 122 c.
Definition is_alpha (c : ascii) : bool := is_upper c || is_lower c.

(** [\w] on ASCII. *)
Definition is_word (c : ascii) : bool :=
  is_alpha c || is_digit c || (code c =? 95)%nat.

Definition lower (c : ascii) : ascii :=
  if is_upper c then ascii_of_nat (code c + 32) else c.

Definition upper (c : ascii) : ascii :=
  if is_lower c then ascii_of_nat (code c - 32) else c.

Definition ascii_eqb (a b : ascii) : bool := bool_decide (a = b).

Definition mem (c : ascii) (l : str) : bool := existsb (ascii_eqb c) l.

(** ** Regular expressions, as far as the four patterns of the program use them *)

Module Re.

(** One-character items. *)
Inductive cset :=
| CLit (c : ascii)          (* a literal character *)
| CAny                      (* [.] under DOTALL *)
| CDot                      (* [.] without DOTALL: anything but a newline *)
| CSpace                    (* [\s] *)
| CNotSpace                 (* [\S] *)
| COneOf (l : str)          (* [[...]] *)
| CNoneOf (l : str).        (* [[^...]] *)

Inductive re :=
| Eps
| Chr (c : cset)
| Seq (r1 r2 : re)
| Star (greedy : bool) (r : re)     (* [r*] and [r*?] *)
| Opt (r : re)                      (* [(?:r)?] *)
| Grp (g : nat) (r : re)            (* capturing group number [g] *)
| Ref (g : nat)                     (* back-reference [\g] *)
| Bol                               (* [^] under MULTILINE *)
| Eol                               (* [$] under MULTILINE *)
| Wordb.                            (* [\b] *)

(** [r+] and [r+?]. *)
Definition Plus (greedy : bool) (r : re) : re := Seq r (Star greedy r).

(** A literal string, character by character. *)
Fixpoint Lit (l : str) : re :=
  match l with
  | [] => Eps
  | c :: l' => Seq (Chr (CLit c)) (Lit l')
  end.

(** Membership of a character in an item; [ic] is IGNORECASE. *)
Definition cset_mem (ic : bool) (cs : cset) (a : ascii) : bool :=
  match cs with
  | CLit c => if ic then ascii_eqb (lower a) (lower c) else ascii_eqb a c
  | CAny => true
  | CDot => negb (ascii_eqb a nl)
  | CSpace => is_space a
  | CNotSpace => negb (is_space a)
  | COneOf l => if ic then mem a l || mem (lower a) l || mem (upper a) l else mem a l
  | CNoneOf l =>
      negb (if ic then mem a l || mem (lower a) l || mem (upper a) l else mem a l)
  end.

(** The matcher's state: the character before the cursor (for [^] and [\b]),
    the text from the cursor on, and the groups captured so far (the most
    recent capture first). *)
Record mstate := MState {
  ms_prev : option ascii;
  ms_rest : str;
  ms_groups : list (nat * str)
}.

Definition group_of (gs : list (nat * str)) (g : nat) : option str :=
  snd <$> find (fun p => Nat.eqb (fst p) g) gs.

Definition last_char (prev : option ascii) (l : str) : option ascii :=
  match last (l : list ascii) with Some c => Some c | None => prev end.

(** Move the cursor over the next [n] characters. *)
Definition advance (n : nat) (st : mstate) : mstate :=
  MState (last_char (ms_prev st) (take n (ms_rest st)))
         (drop n (ms_rest st)) (ms_groups st).

Definition set_group (g : nat) (v : str) (st : mstate) : mstate :=
  MState (ms_prev st) (ms_rest st) ((g, v) :: ms_groups st).

Definition at_word (o : option ascii) : bool :=
  match o with Some c => is_word c | None => false end.

Definition eq_fold (ic : bool) (a b : ascii) : bool :=
  if ic then ascii_eqb (lower a) (lower b) else ascii_eqb a b.

(** [v] is a prefix of [l], comparing as a back-reference does. *)
Fixpoint prefix_fold (ic : bool) (v l : str) : bool :=
  match v, l with
  | [], _ => true
  | a :: v', b :: l' => eq_fold ic a b && prefix_fold ic v' l'
  | _ :: _, [] => false
  end.

(** The first alternative that succeeds. *)
Notation "x 'orelse' y" :=
  (match x with Some v => Some v | None => y end)
  (at level 60, right associativity, only parsing).

(** Repetition of [body]: greedy repetition tries one more round before it
    tries the continuation, lazy repetition the other way round.  A round
    that consumes nothing ends the repetition; [fuel] bounds the rounds by
    the length of the text left. *)
Fixpoint star_loop (body : (mstate -> option mstate) -> mstate -> option mstate)
    (greedy : bool) (k : mstate -> option mstate) (fuel : nat) (st : mstate)
    {struct fuel} : option mstate :=
  match fuel with
  | O => k st
  | S fuel' =>
      let again st1 :=
        if (length (ms_rest st1) <? length (ms_rest st))%nat
        then star_loop body greedy k fuel' st1 else None in
      if greedy
      then body again st orelse k st
      else k st orelse body again st
  end.

(** The backtracking matcher in continuation-passing style: [rmatch ic r k st]
    is the first way, in Python's order of preference, to match [r] at the
    cursor such that the continuation [k] succeeds on the state reached. *)
Fixpoint rmatch (ic : bool) (r : re) (k : mstate -> option mstate)
    (st : mstate) {struct r} : option mstate :=
  match r with
  | Eps => k st
  | Chr cs =>
      match ms_rest st with
      | a :: _ => if cset_mem ic cs a then k (advance 1 st) else None
      | [] => None
      end
  | Seq r1 r2 => rmatch ic r1 (rmatch ic r2 k) st
  | Star greedy r1 => star_loop (rmatch ic r1) greedy k (length (ms_rest st)) st
  | Opt r1 => rmatch ic r1 k st orelse k st
  | Grp g r1 =>
      rmatch ic r1
        (fun st1 =>
           k (set_group g
                (take (length (ms_rest st) - length (ms_rest st1)) (ms_rest st))
                st1))
        st
  | Ref g =>
      match group_of (ms_groups st) g with
      | Some v =>
          if prefix_fold ic v (ms_rest st) then k (advance (length v) st) else None
      | None => None
      end
  | Bol =>
      match ms_prev st with
      | None => k st
      | Some c => if ascii_eqb c nl then k st else None
      end
  | Eol =>
      match ms_rest st with
      | [] => k st
      | c :: _ => if ascii_eqb c nl then k st else None
      end
  | Wordb =>
      if xorb (at_word (ms_prev st)) (at_word (head (ms_rest st)))
      then k st else None
  end.

(** A match object: the matched text and the groups. *)
Record Match := MkMatch {
  m_group0 : str;
  m_groups : list (nat * str)
}.

Definition group (m : Match) (g : nat) : option str := group_of (m_groups m) g.

(** [pattern.match] at the cursor: [prev] is the character before it. *)
Definition match_at (ic : bool) (r : re) (prev : option ascii) (text : str)
    : option Match :=
  match rmatch ic r Some (MState prev text []) with
  | Some st =>
      Some (MkMatch (take (length text - length (ms_rest st)) text) (ms_groups st))
  | None => None
  end.

(** [pattern.finditer]: the non-overlapping matches from left to right.
    [skip] counts the characters still inside the previous match.  (An empty
    match steps one character on; the patterns below never match empty.) *)
Fixpoint finditer_from (ic : bool) (r : re) (prev : option ascii) (skip : nat)
    (text : str) : list Match :=
  match skip, text with
  | S n, c :: t => finditer_from ic r (Some c) n t
  | S _, [] => []
  | O, _ =>
      match match_at ic r prev text with
      | Some m =>
          m :: match text with
               | [] => []
               | c :: t => finditer_from ic r (Some c) (length (m_group0 m) - 1) t
               end
      | None =>
          match text with
          | [] => []
          | c :: t => finditer_from ic r (Some c) 0 t
          end
      end
  end.

Definition finditer (ic : bool) (r : re) (text : str) : list Match :=
  finditer_from ic r None 0 text.

End Re.
Import Re.

(** ** The patterns (lines 19-44 of the source) *)

Definition g_alt : nat := 1.
Definition g_url : nat := 2.
Definition g_title : nat := 3.
Definition g_id : nat := 1.
Definition g_q : nat := 1.
Definition g_src : nat := 2.

(** The optional title, written in the source as
      (?: \s+ DQ (?P<title> [^DQ]* ) DQ )?
    where DQ stands for the double quote. *)
Definition TITLE_OPT : re :=
  Opt (Seq (Plus true (Chr CSpace))
      (Seq (Chr (CLit dq))
      (Seq (Grp g_title (Star true (Chr (CNoneOf [dq]))))
           (Chr (CLit dq))))).

(** Inline image, flags IGNORECASE:
      !\[ (?P<alt> [^\]]* ) \]\( (?P<url> \S+? ) TITLE_OPT \)  *)
Definition MD_IMG_INLINE : re :=
  Seq (Lit (lit "!["))
 (Seq (Grp g_alt (Star true (Chr (CNoneOf (lit "]")))))
 (Seq (Lit (lit "]("))
 (Seq (Grp g_url (Plus false (Chr CNotSpace)))
 (Seq TITLE_OPT
      (Lit (lit ")")))))).

(** Reference usage, flags IGNORECASE:
      !\[ (?P<alt> [^\]]* ) \]\[ (?P<id> [^\]]+ ) \]
    The program defines this pattern and never uses it. *)
Definition MD_IMG_REF : re :=
  Seq (Lit (lit "!["))
 (Seq (Grp 1 (Star true (Chr (CNoneOf (lit "]")))))
 (Seq (Lit (lit "]["))
 (Seq (Grp 2 (Plus true (Chr (CNoneOf (lit "]")))))
      (Lit (lit "]"))))).

(** Reference definition, flags IGNORECASE and MULTILINE:
      ^ \[ (?P<id> [^\]]+ ) \]: \s* (?P<url> \S+ ) TITLE_OPT \s* $  *)
Definition MD_REF_DEF : re :=
  Seq Bol
 (Seq (Lit (lit "["))
 (Seq (Grp g_id (Plus true (Chr (CNoneOf (lit "]")))))
 (Seq (Lit (lit "]:"))
 (Seq (Star true (Chr CSpace))
 (Seq (Grp g_url (Plus true (Chr CNotSpace)))
 (Seq TITLE_OPT
 (Seq (Star true (Chr CSpace))
      Eol))))))).

(** HTML image tag, flags IGNORECASE and DOTALL:
      <img \b [^>]*? \b src= (?P<q> [DQ SQ] ) (?P<src> .+? ) \1 [^>]*? >
    where SQ stands for the single quote. *)
Definition HTML_IMG : re :=
  Seq (Lit (lit "<img"))
 (Seq Wordb
 (Seq (Star false (Chr (CNoneOf (lit ">"))))
 (Seq Wordb
 (Seq (Lit (lit "src="))
 (Seq (Grp g_q (Chr (COneOf [dq; sq])))
 (Seq (Grp g_src (Plus false (Chr CAny)))
 (Seq (Ref 1)
 (Seq (Star false (Chr (CNoneOf (lit ">"))))
      (Lit (lit ">")))))))))).

(** The pattern of the [re.sub] call inside [process_html] (line 210), no
    flags:
      \b src= ( [DQ SQ] ) .*? \1  *)
Definition SRC_ATTR : re :=
  Seq Wordb
 (Seq (Lit (lit "src="))
 (Seq (Grp 1 (Chr (COneOf [dq; sq])))
 (Seq (Star false (Chr CDot))
      (Ref 1)))).

(** ** SHA-1 (FIPS 180-4), for [hashlib.sha1(...).hexdigest()] *)

Module Sha1.

Local Open Scope Z_scope.

Definition w32 (x : Z) : Z := x mod 2 ^ 32.

Definition rotl (n x : Z) : Z :=
  w32 (Z.lor (Z.shiftl x n) (Z.shiftr x (32 - n))).

Definition byte_of (c : ascii) : Z := Z.of_nat (nat_of_ascii c).

(** Big-endian bytes of [x], [n] of them. *)
Fixpoint be_bytes (n : nat) (x : Z) : list Z :=
  match n with
  | O => []
  | S n' => Z.shiftr x (8 * Z.of_nat n') mod 256 :: be_bytes n' x
  end.

(** The padded message: a one bit, zeros up to 56 modulo 64, the length in
    bits on 64 bits. *)
Definition pad (msg : list Z) : list Z :=
  let len := Z.of_nat (length msg) in
  let zeros := Z.to_nat ((55 - len) mod 64) in
  msg ++ 128 :: repeat 0 zeros ++ be_bytes 8 (8 * len).

Fixpoint word_of (bytes : list Z) (acc : Z) : Z :=
  match bytes with
  | [] => acc
  | b :: bytes' => word_of bytes' (acc * 256 + b)
  end.

(** The words of a byte list, four bytes each. *)
Fixpoint words (fuel : nat) (bytes : list Z) : list Z :=
  match fuel, bytes with
  | S fuel', _ :: _ => word_of (take 4 bytes) 0 :: words fuel' (drop 4 bytes)
  | _, _ => []
  end.

(** The message schedule: [sched] holds W(t-1), W(t-2), ... most recent
    first; [n] more words are added. *)
Fixpoint schedule (n : nat) (sched : list Z) : list Z :=
  match n with
  | O => sched
  | S n' =>
      let w k := default 0 (sched !! k) in
      schedule n' (rotl 1 (Z.lxor (Z.lxor (w 2%nat) (w 7%nat))
                                  (Z.lxor (w 13%nat) (w 15%nat))) :: sched)
  end.

Definition f (t : nat) (b c d : Z) : Z :=
  if (t <? 20)%nat then Z.lor (Z.land b c) (Z.land (Z.lxor b (2 ^ 32 - 1)) d)
  else if (t <? 40)%nat then Z.lxor (Z.lxor b c) d
  else if (t <? 60)%nat then Z.lor (Z.lor (Z.land b c) (Z.land b d)) (Z.land c d)
  else Z.lxor (Z.lxor b c) d.

Definition K (t : nat) : Z :=
  if (t <? 20)%nat then 0x5A827999
  else if (t <? 40)%nat then 0x6ED9EBA1
  else if (t <? 60)%nat then 0x8F1BBCDC
  else 0xCA62C1D6.

Definition hstate : Type := Z * Z * Z * Z * Z.

Fixpoint rounds (ws : list Z) (t : nat) (s : hstate) : hstate :=
  match ws with
  | [] => s
  | w :: ws' =>
      let '(a, b, c, d, e) := s in
      let tmp := w32 (rotl 5 a + f t b c d + e + K t + w) in
      rounds ws' (S t) (tmp, a, rotl 30 b, c, d)
  end.

Definition block (h : hstate) (ws16 : list Z) : hstate :=
  let ws := rev (schedule 64 (rev ws16)) in
  let '(h0, h1, h2, h3, h4) := h in
  let '(a, b, c, d, e) := rounds ws 0 h in
  (w32 (h0 + a), w32 (h1 + b), w32 (h2 + c), w32 (h3 + d), w32 (h4 + e)).

Fixpoint blocks (fuel : nat) (h : hstate) (ws : list Z) : hstate :=
  match fuel, ws with
  | S fuel', _ :: _ => blocks fuel' (block h (take 16 ws)) (drop 16 ws)
  | _, _ => h
  end.

Definition init : hstate :=
  (0x67452301, 0xEFCDAB89, 0x98BADCFE, 0x10325476, 0xC3D2E1F0).

Definition digest (msg : str) : hstate :=
  let ws := words (length msg + 72) (pad (map byte_of msg)) in
  blocks (length ws) init ws.

Definition hex_digit (x : Z) : ascii :=
  ascii_of_nat (Z.to_nat (if x <? 10 then 48 + x else 87 + x)).

(** [n] lower-case hexadecimal digits of [x], most significant first. *)
Fixpoint hex (n : nat) (x : Z) : str :=
  match n with
  | O => []
  | S n' => hex_digit (Z.shiftr x (4 * Z.of_nat n') mod 16) :: hex n' x
  end.

Definition hexdigest (msg : str) : str :=
  let '(h0, h1, h2, h3, h4) := digest msg in
  hex 8 h0 ++ hex 8 h1 ++ hex 8 h2 ++ hex 8 h3 ++ hex 8 h4.

End Sha1.

(** ** POSIX [os.path] string functions and the [pathlib] operations used *)

(** The text after the last occurrence of [c], if [c] occurs. *)
Fixpoint after_last (c : ascii) (p : str) : option str :=
  match p with
  | [] => None
  | a :: t =>
      match after_last c t with
      | Some r => Some r
      | None => if ascii_eqb a c then Some t else None
      end
  end.

(** The text before the last occurrence of [c], if [c] occurs. *)
Fixpoint before_last (c : ascii) (p : str) : option str :=
  match p with
  | [] => None
  | a :: t =>
      match before_last c t with
      | Some r => Some (a :: r)
      | None => if ascii_eqb a c then Some [] else None
      end
  end.

Definition slash : ascii := ascii_of_nat 47.
Definition dot : ascii := ascii_of_nat 46.

(** [os.path.basename]: the text after the last slash. *)
Definition basename (p : str) : str := default p (after_last slash p).

(** [os.path.splitext]: the extension starts at the last dot of the last
    component, unless only dots stand before it in that component. *)
Definition splitext (p : str) : str * str :=
  let name := basename p in
  match before_last dot name, after_last dot name with
  | Some stem, Some rest =>
      if forallb (ascii_eqb dot) stem then (p, [])
      else (take (length p - length name) p ++ stem, dot :: rest)
  | _, _ => (p, [])
  end.

(** [str.strip] and the text before the first [;]. *)
Fixpoint lstrip (l : str) : str :=
  match l with
  | c :: t => if is_space c then lstrip t else l
  | [] => []
  end.

Definition strip (l : str) : str := rev (lstrip (rev (lstrip l))).

Fixpoint before_first (c : ascii) (l : str) : str :=
  match l with
  | [] => []
  | a :: t => if ascii_eqb a c then [] else a :: before_first c t
  end.

(** A [Path] is modelled by its string, in pathlib's normal form. *)
Definition is_absolute (p : str) : bool :=
  match p with c :: _ => ascii_eqb c slash | [] => false end.

(** [Path.parent]. *)
Definition parent (p : str) : str :=
  match before_last slash p with
  | Some [] => [slash]
  | Some d => d
  | None => [dot]
  end.

(** [a / b]. *)
Definition joinpath (a b : str) : str :=
  if is_absolute b then b
  else if bool_decide (b = [dot]) then a
  else if bool_decide (a = [dot]) then b
  else if bool_decide (a = [slash]) then slash :: b
  else a ++ slash :: b.

(** [Path.parents]: the directories above a path, the nearest first. *)
Fixpoint parents_from (fuel : nat) (p : str) : list str :=
  match fuel with
  | O => []
  | S fuel' =>
      let d := parent p in
      if bool_decide (d = p) then [] else d :: parents_from fuel' d
  end.

Definition parents (p : str) : list str := parents_from (length p) p.

(** [Path.name]: the last component; the paths [.] and [/] have none. *)
Definition path_name (p : str) : str :=
  if bool_decide (p = [dot]) then [] else basename p.

(** [Path.suffix]: from the last dot of the name on, unless that dot opens or
    ends the name. *)
Definition path_suffix (p : str) : str :=
  let name := path_name p in
  match before_last dot name, after_last dot name with
  | Some (_ :: _), Some ((_ :: _) as rest) => dot :: rest
  | _, _ => []
  end.

(** [Path.with_suffix]; [None] stands for its [ValueError]. *)
Definition with_suffix (p sfx : str) : option str :=
  let name := path_name p in
  if mem slash sfx then None
  else if (negb (bool_decide (sfx = [])) && negb (bool_decide (head sfx = Some dot)))
          || bool_decide (sfx = [dot]) then None
  else if bool_decide (name = []) then None
  else Some (take (length p - length (path_suffix p)) p ++ sfx).

(** The translation of line ends that [read_text] does: a carriage return,
    together with the line feed that follows it if there is one, is read as
    one line feed. *)
Fixpoint universal_newlines (l : str) : str :=
  match l with
  | [] => []
  | c :: t =>
      if ascii_eqb c cr then
        match t with
        | d :: t' =>
            if ascii_eqb d nl then nl :: universal_newlines t'
            else nl :: universal_newlines t
        | [] => [nl]
        end
      else c :: universal_newlines t
  end.

(** ** Library functions left to the platform *)

Record ParseResult := MkParse { scheme : str; path : str }.

Class PyLib := {
  (** [urllib.parse.urlparse]; [None] stands for its [ValueError]. *)
  urlparse : str -> option ParseResult;
  (** [urllib.parse.unquote]. *)
  unquote : str -> str;
  (** [mimetypes.guess_extension]. *)
  guess_extension : str -> option str;
  (** [Path.resolve] and [os.path.relpath path start]. *)
  resolve : str -> str;
  relpath : str -> str -> str;
  (** [Path.exists] and [open(path, "wb")] refuse some paths, whatever the
      files on disk (a name that is too long, a NUL character): the text of
      the error raised, if any. *)
  exists_error : str -> option str;
  open_error : str -> option str;
  (** An extension never holds a path separator. *)
  guess_extension_no_sep :
    forall t e, guess_extension t = Some e -> mem slash e = false
}.

(** ** Effects *)

(** A streamed HTTP response: status line, the Content-Type header if any,
    the chunks that the loop of lines 117-119 copies and the error that ends
    the loop after them, if any (raised by [iter_content], or by [f.write]). *)
Record Response := MkResponse {
  status_code : Z;
  reason : str;
  content_type : option str;
  body : list str;
  body_error : option str
}.

(** What [session.get] does: raise (connection error, timeout, invalid URL)
    or return a response. *)
Inductive GetOutcome :=
| GetRaises (msg : str)
| GetReturns (resp : Response).

(** The session answers the [n]-th request of the run for [url] with the
    given timeout. *)
Definition Session : Type := nat -> str -> Z -> GetOutcome.

Record World := MkWorld {
  w_files : gmap str str;     (* regular files: path to contents *)
  w_dirs : gset str;          (* directories made by [mkdir] *)
  w_gets : list str;          (* URLs requested, the most recent first *)
  w_slept : list Z;           (* the factors [k] of the calls [time.sleep(0.7 * k)],
                                 most recent first *)
  w_stderr : list str         (* texts written to [sys.stderr], most recent first *)
}.

Definition log_get (url : str) (w : World) : World :=
  MkWorld (w_files w) (w_dirs w) (url :: w_gets w) (w_slept w) (w_stderr w).

Definition sleep (k : Z) (w : World) : World :=
  MkWorld (w_files w) (w_dirs w) (w_gets w) (k :: w_slept w) (w_stderr w).

Definition stderr_write (text : str) (w : World) : World :=
  MkWorld (w_files w) (w_dirs w) (w_gets w) (w_slept w) (text :: w_stderr w).

Definition write_file (p content : str) (w : World) : World :=
  MkWorld (<[p := content]> (w_files w)) (w_dirs w) (w_gets w) (w_slept w)
          (w_stderr w).

Definition mkdir (p : str) (w : World) : World :=
  MkWorld (w_files w) ({[p]} ∪ w_dirs w) (w_gets w) (w_slept w) (w_stderr w).

(** Exceptions that escape a function of the program. *)
Inductive exn :=
| FileNotFoundError (p : str)
| FileExistsError (p : str)
| NotADirectoryError (p : str)
| ValueError (msg : str)
| ReError (msg : str).

(** [p.mkdir(parents=True, exist_ok=True)] raises when a regular file stands
    above [p] or at [p]. *)
Definition mkdir_error (p : str) (w : World) : option exn :=
  if existsb (fun d => bool_decide (is_Some (w_files w !! d))) (parents p)
  then Some (NotADirectoryError p)
  else if bool_decide (is_Some (w_files w !! p)) then Some (FileExistsError p)
  else None.

Inductive result (S A : Type) :=
| Ok (a : A) (s : S)
| Raise (e : exn) (s : S).
Arguments Ok {S A} a s.
Arguments Raise {S A} e s.

Definition M (S A : Type) : Type := S -> result S A.

Definition ret {S A} (a : A) : M S A := fun s => Ok a s.

Definition bind {S A B} (m : M S A) (k : A -> M S B) : M S B :=
  fun s => match m s with
           | Ok a s' => k a s'
           | Raise e s' => Raise e s'
           end.

Notation "'do' x <- m ; k" := (bind m (fun x => k))
  (at level 10, x name, m at level 100, k at level 200).

(** ** The program *)

Section Program.

Context `{PyLib}.

(** Lines 53-58. *)
Definition is_http_url (url : str) : bool :=
  match urlparse url with
  | Some p => bool_decide (scheme p = lit "http" \/ scheme p = lit "https")
  | None => false
  end.

(** Python's truth value of a string. *)
Definition truthy (l : str) : bool := negb (bool_decide (l = [])).

(** Lines 61-79; [None] stands for the [ValueError] of [urlparse]. *)
Definition safe_filename_from_url (url : str) (content_type : option str)
    : option str :=
  match urlparse url with
  | None => None
  | Some parsed =>
      let name :=
        let b := basename (unquote (path parsed)) in
        if truthy b then b else lit "image" in
      let '(root, ext) := splitext name in
      let ext :=
        match content_type with
        | Some ct =>
            if negb (truthy ext) && truthy ct then
              match guess_extension (strip (before_first ";" ct)) with
              | Some ext_guess => if truthy ext_guess then ext_guess else ext
              | None => ext
              end
            else ext
        | None => ext
        end in
      let ext := if negb (truthy ext) then lit ".bin" else ext in
      let h := take 10 (Sha1.hexdigest url) in
      Some (root ++ lit "_" ++ h ++ ext)
  end.

Definition RETRYABLE : list Z := [429; 500; 502; 503; 504]%Z.

Definition show_int (n : Z) : str := lit (pretty n).

(** The message of the [HTTPError] of line 106. *)
Definition retryable_msg (resp : Response) : str :=
  show_int (status_code resp) ++ lit " " ++ reason resp.

(** [Response.raise_for_status]: the message of the error it raises, if any. *)
Definition raise_for_status (url : str) (resp : Response) : option str :=
  let c := status_code resp in
  if ((400 <=? c) && (c <? 500))%Z
  then Some (show_int c ++ lit " Client Error: " ++ reason resp
             ++ lit " for url: " ++ url)
  else if ((500 <=? c) && (c <? 600))%Z
  then Some (show_int c ++ lit " Server Error: " ++ reason resp
             ++ lit " for url: " ++ url)
  else None.

(** What lines 116-119 leave in the file: the non-empty chunks in order. *)
Fixpoint written (chunks : list str) : str :=
  match chunks with
  | [] => []
  | chunk :: rest => if truthy chunk then chunk ++ written rest else written rest
  end.

(** [out_path.exists() and out_path.stat().st_size > 0]. *)
Definition exists_nonempty (p : str) (w : World) : bool :=
  match w_files w !! p with
  | Some content => (0 <? length content)%nat
  | None => false
  end.

(** One pass through the [try] block (lines 102-120): the path returned, or
    the message of the exception caught at line 121. *)
Definition attempt (url out_dir : str) (session : Session) (timeout : Z)
    (w : World) : (str + str) * World :=
  let w1 := log_get url w in
  match session (length (w_gets w)) url timeout with
  | GetRaises msg => (inr msg, w1)
  | GetReturns resp =>
      if bool_decide (status_code resp ∈ RETRYABLE)
      then (inr (retryable_msg resp), w1)
      else
        match raise_for_status url resp with
        | Some msg => (inr msg, w1)
        | None =>
            let ctype := default [] (content_type resp) in
            match safe_filename_from_url url (Some ctype) with
            | None => (inr (lit "ValueError"), w1)
            | Some fname =>
                let out_path := joinpath out_dir fname in
                match exists_error out_path with
                | Some msg => (inr msg, w1)
                | None =>
                    if exists_nonempty out_path w1 then (inl out_path, w1)
                    else
                      match open_error out_path with
                      | Some msg => (inr msg, w1)
                      | None =>
                          let w2 := write_file out_path (written (body resp)) w1 in
                          match body_error resp with
                          | Some msg => (inr msg, w2)
                          | None => (inl out_path, w2)
                          end
                      end
                end
            end
        end
  end.

Definition warning (url msg : str) : str :=
  lit "[WARN] download failed: " ++ url ++ lit " -> " ++ msg ++ [nl].

(** The [for] loop of lines 101-126 over the attempt numbers still to run. *)
Fixpoint download_loop (url out_dir : str) (session : Session)
    (max_retries timeout : Z) (attempts : list Z) (w : World)
    : option str * World :=
  match attempts with
  | [] => (None, w)
  | n :: later =>
      match attempt url out_dir session timeout w with
      | (inl out_path, w1) => (Some out_path, w1)
      | (inr msg, w1) =>
          if (n <? max_retries)%Z
          then download_loop url out_dir session max_retries timeout later
                 (sleep (n + 1) w1)
          else download_loop url out_dir session max_retries timeout later
                 (stderr_write (warning url msg) w1)
      end
  end.

(** Lines 97-127.  [mkdir] stands outside the [try]: its error escapes.
    The delay of line 124 is the float product [0.7 * (attempt + 1)]; the
    world records its integer factor. *)
Definition download (url out_dir : str) (session : Session)
    (max_retries timeout : Z) : M World (option str) :=
  fun w =>
    match mkdir_error out_dir w with
    | Some e => Raise e w
    | None =>
        let '(r, w1) :=
          download_loop url out_dir session max_retries timeout
            (seqZ 0 (max_retries + 1)) (mkdir out_dir w) in
        Ok r w1
    end.

(** *** Replacement templates of [re.sub] (the string given at line 210) *)

Inductive titem :=
| TChar (c : ascii)
| TGroup (g : nat).

Definition is_octdigit (c : ascii) : bool := in_range 48 55 c.

Definition digit_val (c : ascii) : nat := code c - 48.

(** The characters of a template escape that stand for one character. *)
Definition escape_char (c : ascii) : option ascii :=
  if ascii_eqb c "a" then Some (ascii_of_nat 7)
  else if ascii_eqb c "b" then Some (ascii_of_nat 8)
  else if ascii_eqb c "f" then Some (ascii_of_nat 12)
  else if ascii_eqb c "n" then Some (ascii_of_nat 10)
  else if ascii_eqb c "r" then Some (ascii_of_nat 13)
  else if ascii_eqb c "t" then Some (ascii_of_nat 9)
  else if ascii_eqb c "v" then Some (ascii_of_nat 11)
  else if ascii_eqb c bs then Some bs
  else None.

Fixpoint decimal (l : str) (acc : nat) : nat :=
  match l with
  | [] => acc
  | c :: l' => decimal l' (10 * acc + digit_val c)
  end.

(** [parse_template] of Python's [re] for a pattern with [ngroups] groups,
    none of them named; [None] stands for the error it raises. *)
Fixpoint parse_template (fuel : nat) (ngroups : nat) (t : str)
    : option (list titem) :=
  match fuel with
  | O => match t with [] => Some [] | _ => None end
  | S fuel' =>
      match t with
      | [] => Some []
      | c :: rest =>
          if negb (ascii_eqb c bs) then cons (TChar c) <$> parse_template fuel' ngroups rest
          else
            match rest with
            | [] => None                                  (* bad escape (end) *)
            | d :: rest1 =>
                if ascii_eqb d "g" then
                  match rest1 with
                  | lt :: rest2 =>
                      if ascii_eqb lt "<" && mem ">" rest2 then
                        let name := before_first ">" rest2 in
                        let after := drop (S (length name)) rest2 in
                        if truthy name && forallb is_digit name
                           && (decimal name 0 <=? ngroups)%nat
                        then cons (TGroup (decimal name 0))
                               <$> parse_template fuel' ngroups after
                        else None
                      else None
                  | [] => None
                  end
                else if ascii_eqb d "0" then
                  match rest1 with
                  | o1 :: rest2 =>
                      if is_octdigit o1 then
                        match rest2 with
                        | o2 :: rest3 =>
                            if is_octdigit o2
                            then cons (TChar (ascii_of_nat
                                         ((8 * digit_val o1 + digit_val o2) mod 256)))
                                   <$> parse_template fuel' ngroups rest3
                            else cons (TChar (ascii_of_nat (digit_val o1)))
                                   <$> parse_template fuel' ngroups rest2
                        | [] => Some [TChar (ascii_of_nat (digit_val o1))]
                        end
                      else cons (TChar (ascii_of_nat 0))
                             <$> parse_template fuel' ngroups rest1
                  | [] => Some [TChar (ascii_of_nat 0)]
                  end
                else if is_digit d then
                  match rest1 with
                  | d2 :: rest2 =>
                      if is_digit d2 then
                        match rest2 with
                        | d3 :: rest3 =>
                            if is_octdigit d && is_octdigit d2 && is_octdigit d3 then
                              let v := 64 * digit_val d + 8 * digit_val d2 + digit_val d3 in
                              if (255 <? v)%nat then None
                              else cons (TChar (ascii_of_nat v))
                                     <$> parse_template fuel' ngroups rest3
                            else if (10 * digit_val d + digit_val d2 <=? ngroups)%nat
                            then cons (TGroup (10 * digit_val d + digit_val d2))
                                   <$> parse_template fuel' ngroups rest2
                            else None
                        | [] =>
                            if (10 * digit_val d + digit_val d2 <=? ngroups)%nat
                            then Some [TGroup (10 * digit_val d + digit_val d2)]
                            else None
                        end
                      else if (digit_val d <=? ngroups)%nat
                      then cons (TGroup (digit_val d))
                             <$> parse_template fuel' ngroups rest1
                      else None
                  | [] =>
                      if (digit_val d <=? ngroups)%nat
                      then Some [TGroup (digit_val d)] else None
                  end
                else
                  match escape_char d with
                  | Some e => cons (TChar e) <$> parse_template fuel' ngroups rest1
                  | None =>
                      if is_alpha d then None                 (* bad escape *)
                      else (fun l => TChar bs :: TChar d :: l)
                             <$> parse_template fuel' ngroups rest1
                  end
            end
      end
  end.

(** The replacement text for a match; group 0 is the whole match and a group
    that took no part gives the empty string. *)
Fixpoint expand (items : list titem) (m : Match) : str :=
  match items with
  | [] => []
  | TChar c :: items' => c :: expand items' m
  | TGroup O :: items' => m_group0 m ++ expand items' m
  | TGroup g :: items' => default [] (group m g) ++ expand items' m
  end.

(** [pattern.search]: the leftmost match, with the text before and after it. *)
Fixpoint search_from (ic : bool) (r : re) (prev : option ascii) (text : str)
    : option (str * Match * str) :=
  match match_at ic r prev text with
  | Some m => Some ([], m, drop (length (m_group0 m)) text)
  | None =>
      match text with
      | [] => None
      | c :: t =>
          match search_from ic r (Some c) t with
          | Some (before, m, after) => Some (c :: before, m, after)
          | None => None
          end
      end
  end.

(** [re.sub(pattern, template, text, count=1)] for a pattern with [ngroups]
    unnamed groups.  The template is compiled before the search, so its
    error is raised whether or not the pattern occurs. *)
Definition sub_template_once (ic : bool) (r : re) (ngroups : nat)
    (template text : str) : option str :=
  match parse_template (length template) ngroups template with
  | None => None
  | Some items =>
      match search_from ic r None text with
      | Some (before, m, after) => Some (before ++ expand items m ++ after)
      | None => Some text
      end
  end.

(** [pattern.sub(repl, text)] with a function [repl] that has effects: the
    matches are found from left to right and [repl] is called on each in
    turn.  [skip] counts the characters still inside the previous match. *)
Fixpoint sub_from {S : Type} (ic : bool) (r : re) (repl : Match -> M S str)
    (prev : option ascii) (skip : nat) (text : str) : M S str :=
  match skip, text with
  | S n, c :: t => sub_from ic r repl (Some c) n t
  | S _, [] => ret []
  | O, _ =>
      match match_at ic r prev text with
      | Some m =>
          do out <- repl m;
          do tail <-
            match text with
            | [] => ret []
            | c :: t =>
                match length (m_group0 m) with
                | O => do rest <- sub_from ic r repl (Some c) 0 t; ret (c :: rest)
                | S n => sub_from ic r repl (Some c) n t
                end
            end;
          ret (out ++ tail)
      | None =>
          match text with
          | [] => ret []
          | c :: t => do tail <- sub_from ic r repl (Some c) 0 t; ret (c :: tail)
          end
      end
  end.

Definition sub {S : Type} (ic : bool) (r : re) (repl : Match -> M S str)
    (text : str) : M S str :=
  sub_from ic r repl None 0 text.

(** The same scan as a list of pieces: the characters outside every match and
    the matches, in order. *)
Inductive piece :=
| PChar (c : ascii)
| PMatch (m : Match).

Fixpoint pieces_from (ic : bool) (r : re) (prev : option ascii) (skip : nat)
    (text : str) : list piece :=
  match skip, text with
  | S n, c :: t => pieces_from ic r (Some c) n t
  | S _, [] => []
  | O, _ =>
      match match_at ic r prev text with
      | Some m =>
          PMatch m ::
            match text with
            | [] => []
            | c :: t =>
                match length (m_group0 m) with
                | O => PChar c :: pieces_from ic r (Some c) 0 t
                | S n => pieces_from ic r (Some c) n t
                end
            end
      | None =>
          match text with
          | [] => []
          | c :: t => PChar c :: pieces_from ic r (Some c) 0 t
          end
      end
  end.

Definition pieces (ic : bool) (r : re) (text : str) : list piece :=
  pieces_from ic r None 0 text.

(** The text the pieces were cut from. *)
Fixpoint original (ps : list piece) : str :=
  match ps with
  | [] => []
  | PChar c :: ps' => c :: original ps'
  | PMatch m :: ps' => m_group0 m ++ original ps'
  end.

(** The matches among the pieces. *)
Fixpoint matches_of (ps : list piece) : list Match :=
  match ps with
  | [] => []
  | PChar _ :: ps' => matches_of ps'
  | PMatch m :: ps' => m :: matches_of ps'
  end.

(** The output for a list of pieces: characters are copied, each match is
    replaced by what [repl] returns for it. *)
Fixpoint emit {S : Type} (repl : Match -> M S str) (ps : list piece) : M S str :=
  match ps with
  | [] => ret []
  | PChar c :: ps' => do tail <- emit repl ps'; ret (c :: tail)
  | PMatch m :: ps' =>
      do out <- repl m;
      do tail <- emit repl ps';
      ret (out ++ tail)
  end.

(** *** The rewriters *)

(** The state of one document's pass: the world and the [cache] dictionary
    that the three rewriters share. *)
Record RState := MkRState {
  world : World;
  cache : gmap str str
}.

(** The cache lookup and download of lines 139-146, which lines 175-182 and
    200-207 repeat word for word: the cached path, or the path of a fresh
    download, which is then cached.  The result is [local_rel], or [None]
    where the source returns [m.group(0)] because the download failed. *)
Definition local_path_of (url out_dir : str) (session : Session) (md_base_dir : str)
    : M RState (option str) :=
  fun st =>
    match cache st !! url with
    | Some local_rel => Ok (Some local_rel) st
    | None =>
        match download url out_dir session 2 20 (world st) with
        | Raise e w => Raise e (MkRState w (cache st))
        | Ok None w => Ok None (MkRState w (cache st))
        | Ok (Some saved) w =>
            let local_rel := relpath saved md_base_dir in
            Ok (Some local_rel) (MkRState w (<[url := local_rel]> (cache st)))
        end
    end.

(** Lines 132-152. *)
Definition repl_inline (out_dir : str) (session : Session) (md_base_dir : str)
    (m : Match) : M RState str :=
  let alt := default [] (group m g_alt) in
  let url := default [] (group m g_url) in
  let title := group m g_title in
  if negb (is_http_url url) then ret (m_group0 m)
  else
    do r <- local_path_of url out_dir session md_base_dir;
    match r with
    | None => ret (m_group0 m)
    | Some local_rel =>
        match title with
        | Some ((_ :: _) as title) =>
            ret (lit "![" ++ alt ++ lit "](" ++ local_rel ++ lit " " ++ [dq]
                 ++ title ++ [dq] ++ lit ")")
        | _ => ret (lit "![" ++ alt ++ lit "](" ++ local_rel ++ lit ")")
        end
    end.

(** Lines 130-153. *)
Definition process_inline (text out_dir : str) (session : Session)
    (md_base_dir : str) : M RState str :=
  sub true MD_IMG_INLINE (repl_inline out_dir session md_base_dir) text.

(** Lines 156-160: a later definition of an id replaces an earlier one. *)
Definition parse_ref_defs (text : str) : gmap str (str * option str) :=
  foldl (fun defs m =>
           <[default [] (group m g_id) :=
               (default [] (group m g_url), group m g_title)]> defs)
        ∅ (finditer true MD_REF_DEF text).

(** Lines 168-187. *)
Definition repl_def (out_dir : str) (session : Session) (md_base_dir : str)
    (m : Match) : M RState str :=
  let ref_id := default [] (group m g_id) in
  let url := default [] (group m g_url) in
  let title := group m g_title in
  if negb (is_http_url url) then ret (m_group0 m)
  else
    do r <- local_path_of url out_dir session md_base_dir;
    match r with
    | None => ret (m_group0 m)
    | Some local_rel =>
        match title with
        | Some ((_ :: _) as title) =>
            ret (lit "[" ++ ref_id ++ lit "]: " ++ local_rel ++ lit " " ++ [dq]
                 ++ title ++ [dq])
        | _ => ret (lit "[" ++ ref_id ++ lit "]: " ++ local_rel)
        end
    end.

(** Lines 163-189; [defs] is computed and not used. *)
Definition process_ref (text out_dir : str) (session : Session)
    (md_base_dir : str) : M RState str :=
  let defs := parse_ref_defs text in
  sub true MD_REF_DEF (repl_def out_dir session md_base_dir) text.

(** Lines 194-210. *)
Definition repl_html (out_dir : str) (session : Session) (md_base_dir : str)
    (m : Match) : M RState str :=
  let src := default [] (group m g_src) in
  let q := default [] (group m g_q) in
  if negb (is_http_url src) then ret (m_group0 m)
  else
    do r <- local_path_of src out_dir session md_base_dir;
    match r with
    | None => ret (m_group0 m)
    | Some local_rel =>
        let tag := m_group0 m in
        fun st =>
          match sub_template_once false SRC_ATTR 1
                  (lit "src=" ++ q ++ local_rel ++ q) tag with
          | Some new_tag => Ok new_tag st
          | None => Raise (ReError (lit "bad replacement template")) st
          end
    end.

(** Lines 192-212. *)
Definition process_html (text out_dir : str) (session : Session)
    (md_base_dir : str) : M RState str :=
  sub true HTML_IMG (repl_html out_dir session md_base_dir) text.

(** The three passes of lines 226-228 over one cache. *)
Definition rewrite_all (text out_dir : str) (session : Session) (base : str)
    : M RState str :=
  do text1 <- process_inline text out_dir session base;
  do text2 <- process_ref text1 out_dir session base;
  process_html text2 out_dir session base.

(** Lines 215-232. *)
Definition process_md_file (md_path out_dir : str) (overwrite : bool)
    (session : Session) : M World str :=
  fun w =>
    match w_files w !! md_path with
    | None => Raise (FileNotFoundError md_path) w
    | Some stored =>
        let text := universal_newlines stored in
        let out_dir :=
          if negb (is_absolute out_dir)
          then resolve (joinpath (parent md_path) out_dir) else out_dir in
        let base := resolve (parent md_path) in
        match rewrite_all text out_dir session base (MkRState w ∅) with
        | Raise e st => Raise e (world st)
        | Ok text3 st =>
            let target :=
              if overwrite then Some md_path
              else with_suffix md_path (path_suffix md_path ++ lit ".converted") in
            match target with
            | None => Raise (ValueError (lit "with_suffix")) (world st)
            | Some out_path => Ok out_path (write_file out_path text3 (world st))
            end
        end
    end.

(** *** Notions used to state the properties *)

(** The state a computation ends in, whether it returns or raises. *)
Definition final_state {S A} (r : result S A) : S :=
  match r with Ok _ s => s | Raise _ s => s end.

(** A lower-case hexadecimal digit. *)
Definition is_hex (c : ascii) : bool := is_digit c || in_range 97 102 c.

(** The fingerprint of a URL: the first ten digits of its SHA-1. *)
Definition fingerprint (url : str) : str := take 10 (Sha1.hexdigest url).

(** The name whose stem and extension the file name is built from. *)
Definition segment_name (parsed : ParseResult) : str :=
  let b := basename (unquote (path parsed)) in
  if truthy b then b else lit "image".

(** The extension chosen for a name with extension [e] and a content type. *)
Definition chosen_ext (e : str) (ct : option str) : str :=
  if truthy e then e
  else match ct with
       | Some c =>
           if truthy c then
             match guess_extension (strip (before_first ";" c)) with
             | Some g => if truthy g then g else lit ".bin"
             | None => lit ".bin"
             end
           else lit ".bin"
       | None => lit ".bin"
       end.

(** A response gets past the status checks of lines 105-107: its status is
    neither a client error nor a server error. *)
Definition passes_status (resp : Response) : Prop :=
  ~ (400 <= status_code resp < 600)%Z.

(** A non-empty regular file stands at [p]. *)
Definition nonempty_file (p : str) (w : World) : Prop :=
  exists content, w_files w !! p = Some content /\ content <> [].

(** [p] is a file directly inside the directory [d]. *)
Definition directly_under (d p : str) : Prop :=
  exists fname, mem slash fname = false /\ fname <> [] /\ fname <> [dot] /\
                p = joinpath d fname.

(** The factors of the delays slept after the attempts numbered [a],
    [a+1], ..., the most recent first. *)
Definition delays (a : Z) (n : nat) : list Z :=
  rev (map (fun j => j + 1)%Z (seqZ a (Z.of_nat n))).

(** The session answers every request for [url] with a response that gets
    past the status checks and whose body streams to the end. *)
Definition always_served (session : Session) (url : str) : Prop :=
  forall i t, exists resp,
    session i url t = GetReturns resp /\ passes_status resp /\
    body_error resp = None.

(** The file of every name that can be derived for [url] can be looked for
    and opened under [out_dir]. *)
Definition storable (out_dir url : str) : Prop :=
  forall ct fname,
    safe_filename_from_url url (Some ct) = Some fname ->
    exists_error (joinpath out_dir fname) = None /\
    open_error (joinpath out_dir fname) = None.

(** The number of requests made for [url] so far. *)
Definition gets_of (url : str) (w : World) : nat :=
  length (filter (fun u => u = url) (w_gets w)).

(** No image reference found in [text] by the pattern has a remote URL in
    group [g]. *)
Definition remote_free (r : re) (g : nat) (text : str) : Prop :=
  Forall (fun m => is_http_url (default [] (group m g)) = false)
         (finditer true r text).

End Program.

(** ** An executable instance of the library, for concrete runs

    POSIX paths without symbolic links, ASCII URLs, a short MIME table, file
    names of 255 bytes at most. *)

Module Posix.

Definition is_scheme_char (c : ascii) : bool :=
  is_alpha c || is_digit c || mem c (lit "+-.").

Fixpoint lstrip_c0 (l : str) : str :=
  match l with
  | c :: t => if (code c <=? 32)%nat then lstrip_c0 t else l
  | [] => []
  end.

Definition after_first (c : ascii) (l : str) : str :=
  drop (S (length (before_first c l))) l.

(** The netloc ends at the first of [/], [?] and [#]. *)
Fixpoint netloc_of (l : str) : str :=
  match l with
  | [] => []
  | a :: t => if mem a (lit "/?#") then [] else a :: netloc_of t
  end.

(** [urlsplit] on ASCII text: scheme and path. *)
Definition urlparse (url : str) : option ParseResult :=
  let url := filter (fun c => negb (mem c [ascii_of_nat 9; nl; ascii_of_nat 13]))
               (lstrip_c0 url) in
  let head := before_first ":" url in
  let '(scheme, url) :=
    if mem ":" url && truthy head && is_alpha (default "0"%char (List.head head))
       && forallb is_scheme_char head
    then (map lower head, after_first ":" url) else ([], url) in
  let '(netloc, url) :=
    if bool_decide (take 2 url = lit "//")
    then (netloc_of (drop 2 url), drop (2 + length (netloc_of (drop 2 url))) url)
    else ([], url) in
  if xorb (mem "[" netloc) (mem "]" netloc) then None
  else Some (MkParse scheme (before_first "?" (before_first "#" url))).

Definition hex_val (c : ascii) : option nat :=
  if is_digit c then Some (code c - 48)
  else if in_range 97 102 c then Some (code c - 87)
  else if in_range 65 70 c then Some (code c - 55)
  else None.

(** [unquote] for the escapes of ASCII characters. *)
Fixpoint unquote (l : str) : str :=
  match l with
  | [] => []
  | c :: t =>
      match ascii_eqb c "%", t with
      | true, h1 :: h2 :: t2 =>
          match hex_val h1, hex_val h2 with
          | Some a, Some b =>
              if (16 * a + b <? 128)%nat
              then ascii_of_nat (16 * a + b) :: unquote t2
              else c :: unquote t
          | _, _ => c :: unquote t
          end
      | _, _ => c :: unquote t
      end
  end.

Definition mime_table : list (str * str) :=
  [ (lit "image/png", lit ".png"); (lit "image/jpeg", lit ".jpg");
    (lit "image/gif", lit ".gif"); (lit "image/webp", lit ".webp");
    (lit "image/svg+xml", lit ".svg"); (lit "image/bmp", lit ".bmp") ].

Definition guess_extension (t : str) : option str :=
  snd <$> find (fun p => bool_decide (fst p = map lower t)) mime_table.

(** The components of a path. *)
Fixpoint split_on (c : ascii) (l : str) : list str :=
  match l with
  | [] => [[]]
  | a :: t =>
      match split_on c t with
      | cur :: more => if ascii_eqb a c then [] :: cur :: more else (a :: cur) :: more
      | [] => [[a]]
      end
  end.

Definition join_with (c : ascii) (parts : list str) : str :=
  match parts with
  | [] => []
  | p :: ps => p ++ concat (map (cons c) ps)
  end.

(** The components of an absolute path with [.], empty parts and [..]
    resolved. *)
Definition norm_parts (p : str) : list str :=
  rev (foldl (fun acc part =>
                if bool_decide (part = []) || bool_decide (part = [dot]) then acc
                else if bool_decide (part = lit "..") then tail acc
                else part :: acc)
             [] (split_on slash p)).

Definition resolve (p : str) : str := slash :: join_with slash (norm_parts p).

Fixpoint common_prefix (a b : list str) : nat :=
  match a, b with
  | x :: a', y :: b' => if bool_decide (x = y) then S (common_prefix a' b') else 0
  | _, _ => 0
  end.

(** [os.path.relpath] on absolute paths. *)
Definition relpath (p start : str) : str :=
  let start_list := norm_parts start in
  let path_list := norm_parts p in
  let i := common_prefix start_list path_list in
  let rel_list := repeat (lit "..") (length start_list - i) ++ drop i path_list in
  match rel_list with
  | [] => [dot]
  | _ => join_with slash rel_list
  end.

(** A component of more than 255 bytes is refused by the file system; [open]
    refuses a NUL character as well, which [exists] takes for a path that is
    not there. *)
Definition too_long (p : str) : bool :=
  existsb (fun part => (255 <? length part)%nat) (split_on slash p).

Definition exists_error (p : str) : option str :=
  if too_long p then Some (lit "[Errno 36] File name too long: " ++ sq :: p ++ [sq])
  else None.

Definition open_error (p : str) : option str :=
  if mem (ascii_of_nat 0) p then Some (lit "embedded null byte") else exists_error p.

Lemma guess_extension_no_sep t e :
  guess_extension t = Some e -> mem slash e = false.
Proof.
  unfold guess_extension. intros Hfind.
  destruct (find _ mime_table) as [[k v]|] eqn:Hf; [|discriminate].
  injection Hfind as <-.
  apply find_some in Hf as [Hin _].
  assert (Hall : Forall (fun p => mem slash (snd p) = false) mime_table)
    by (repeat constructor).
  rewrite List.Forall_forall in Hall. exact (Hall _ Hin).
Qed.

End Posix.

#[export] Instance posix_lib : PyLib := {|
  urlparse := Posix.urlparse;
  unquote := Posix.unquote;
  guess_extension := Posix.guess_extension;
  resolve := Posix.resolve;
  relpath := Posix.relpath;
  exists_error := Posix.exists_error;
  open_error := Posix.open_error;
  guess_extension_no_sep := Posix.guess_extension_no_sep
|}.

(** ** The command line: the session, the search for documents and [main] *)

(** *** Base64 (RFC 4648, with padding), for [base64.b64encode] *)

Module Base64.

Definition alphabet : str :=
  lit "ABCDEFGHIJKLMNOPQRSTUVWXYZabcdefghijklmnopqrstuvwxyz0123456789+/".

Definition padding : ascii := "="%char.

(** The digit of a six-bit value. *)
Definition digit (n : nat) : ascii := nth n alphabet padding.

(** Three bytes give four digits; one or two bytes left over give two or
    three digits and padding. *)
Fixpoint b64encode (bytes : str) : str :=
  match bytes with
  | [] => []
  | [a] =>
      let x := code a in
      [digit (x / 4); digit (x mod 4 * 16); padding; padding]
  | [a; b] =>
      let x := code a in
      let y := code b in
      [digit (x / 4); digit (x mod 4 * 16 + y / 16); digit (y mod 16 * 4); padding]
  | a :: b :: c :: rest =>
      let x := code a in
      let y := code b in
      let z := code c in
      digit (x / 4) :: digit (x mod 4 * 16 + y / 16)
        :: digit (y mod 16 * 4 + z / 64) :: digit (z mod 64) :: b64encode rest
  end.

(** The value of a digit. *)
Fixpoint index_of (c : ascii) (l : str) : option nat :=
  match l with
  | [] => None
  | a :: l' => if ascii_eqb c a then Some 0 else S <$> index_of c l'
  end.

Definition value (c : ascii) : option nat := index_of c alphabet.

(** The decoder, used to state what the receiver of a token reads. *)
Fixpoint b64decode (digits : str) : option str :=
  match digits with
  | [] => Some []
  | c1 :: c2 :: c3 :: c4 :: rest =>
      match value c1, value c2 with
      | Some v1, Some v2 =>
          let a := ascii_of_nat (v1 * 4 + v2 / 16) in
          if ascii_eqb c3 padding then
            if ascii_eqb c4 padding && bool_decide (rest = []) then Some [a] else None
          else
            match value c3 with
            | Some v3 =>
                let b := ascii_of_nat (v2 mod 16 * 16 + v3 / 4) in
                if ascii_eqb c4 padding then
                  if bool_decide (rest = []) then Some [a; b] else None
                else
                  match value c4 with
                  | Some v4 =>
                      let c := ascii_of_nat (v3 mod 4 * 64 + v4) in
                      (fun l => a :: b :: c :: l) <$> b64decode rest
                  | None => None
                  end
            | None => None
            end
      | _, _ => None
      end
  | _ => None
  end.

(** The characters of an encoded text. *)
Definition is_b64 (c : ascii) : bool := mem c alphabet || ascii_eqb c padding.

End Base64.

(** *** The session (lines 46-50 and 82-94) *)

(** [str.lower] on ASCII text. *)
Definition lower_str (s : str) : str := map lower s.

(** The headers of a [requests] session, a [CaseInsensitiveDict]: the
    lower-cased name maps to the name as it was last set and the value. *)
Abbreviation Headers := (gmap str (str * str)).

Definition set_header (name value : str) (h : Headers) : Headers :=
  <[lower_str name := (name, value)]> h.

Definition get_header (name : str) (h : Headers) : option str :=
  snd <$> h !! lower_str name.

(** What the platform and the installed libraries decide. *)
Class Platform := {
  (** The headers of a new [requests.Session]. *)
  default_headers : Headers;
  (** The order in which the file system lists the entries it is asked for. *)
  listing : list str -> list str;
  listing_perm : forall l, listing l ≡ₚ l;
  (** [str(e)] for an exception. *)
  exn_text : exn -> str
}.

Definition HTTP_UA : str :=
  lit "Mozilla/5.0 (Windows NT 10.0; Win64; x64) "
  ++ lit "AppleWebKit/537.36 (KHTML, like Gecko) "
  ++ lit "Chrome/121.0 Safari/537.36".

(** The message of line 270, in UTF-8. *)
Definition NOT_FOUND_MSG : str :=
  lit "[INFO] 対象の Markdown が見つかりませんでした。" ++ [nl].

(** [PurePosixPath(s)] as a string: empty components and [.] are dropped, one
    leading slash is the root, exactly two are kept, more count as one. *)
Definition pure_path (s : str) : str :=
  let parts := filter (fun c => c <> [] /\ c <> [dot]) (Posix.split_on slash s) in
  let root :=
    if bool_decide (take 2 s = [slash; slash])
       && negb (bool_decide (take 3 s = [slash; slash; slash]))
    then [slash; slash]
    else if bool_decide (take 1 s = [slash]) then [slash] else [] in
  match root, parts with
  | [], [] => [dot]
  | _, _ => root ++ Posix.join_with slash parts
  end.

(** The file system as [pathlib] sees it.  A directory is one that [mkdir]
    made or one that lies above a file or such a directory. *)
Definition files_of (w : World) : list str := (map_to_list (w_files w)).*1.

Definition dirs_of (w : World) : list str :=
  elements (w_dirs w)
  ++ concat (map parents (files_of w ++ elements (w_dirs w))).

Definition is_file (p : str) (w : World) : bool :=
  bool_decide (is_Some (w_files w !! p)).

Definition is_dir (p : str) (w : World) : bool :=
  bool_decide (p ∈ dirs_of w).

(** Every path that exists, once. *)
Definition entries (w : World) : list str :=
  remove_dups (files_of w ++ dirs_of w).

(** A path with one of the two suffixes the search looks for. *)
Definition is_markdown (p : str) : Prop :=
  lower_str (path_suffix p) = lit ".md" \/ lower_str (path_suffix p) = lit ".markdown".

Section CommandLine.

Context `{PyLib} `{Platform}.

(** Lines 82-94.  The session is modelled by its headers. *)
Definition build_session (azdo_pat : option str) : Headers :=
  let s := set_header (lit "User-Agent") HTTP_UA default_headers in
  match azdo_pat with
  | Some pat =>
      if truthy pat then
        let token_bytes := lit ":" ++ pat in
        let b64 := Base64.b64encode token_bytes in
        set_header (lit "Authorization") (lit "Basic " ++ b64) s
      else s
  | None => s
  end.

(** [target.rglob("*")]: every entry below [target], files and directories. *)
Definition rglob (target : str) (w : World) : list str :=
  listing (filter (fun p => target ∈ parents p) (entries w)).

(** Lines 235-240. *)
Definition find_md (target : str) (w : World) : list str :=
  if is_file target w
     && bool_decide (lower_str (path_suffix target) ∈ [lit ".md"; lit ".markdown"])
  then [target]
  else if is_dir target w
  then filter (fun p => lower_str (path_suffix p) ∈ [lit ".md"; lit ".markdown"])
              (rglob target w)
  else [].

(** The values of the parsed arguments (lines 247-258). *)
Record Args := MkArgs {
  a_target : str;
  a_out_dir : str;
  a_overwrite : bool;
  a_azdo_pat : option str;
  a_timeout : Z;
  a_retries : Z
}.

(** The state of a run of [main]: the world and the lines printed. *)
Record Process := MkProcess {
  p_world : World;
  p_stdout : list str           (* lines written to [sys.stdout], most recent first *)
}.

Definition print (line : str) (ps : Process) : Process :=
  MkProcess (p_world ps) ((line ++ [nl]) :: p_stdout ps).

Definition ok_line (md outp : str) : str :=
  lit "[OK] " ++ md ++ lit " -> " ++ outp.

Definition error_line (md : str) (e : exn) : str :=
  lit "[ERROR] " ++ md ++ lit ": " ++ exn_text e ++ [nl].

(** The loop of lines 273-279: an exception of one document is reported and
    the loop goes on. *)
Fixpoint main_loop (files : list str) (out_dir : str) (overwrite : bool)
    (session : Session) (ps : Process) : Process :=
  match files with
  | [] => ps
  | md :: later =>
      match process_md_file md out_dir overwrite session (p_world ps) with
      | Ok outp w =>
          main_loop later out_dir overwrite session
            (print (ok_line md outp) (MkProcess w (p_stdout ps)))
      | Raise e w =>
          main_loop later out_dir overwrite session
            (MkProcess (stderr_write (error_line md e) w) (p_stdout ps))
      end
  end.

(** Lines 260-279, from the parsed arguments on.  [network] is what the
    remote side answers to a session with the given headers; the result is
    the status of [sys.exit], if it is called. *)
Definition main (args : Args) (network : Headers -> Session) (ps : Process)
    : option Z * Process :=
  let target := resolve (pure_path (a_target args)) in
  let out_dir := pure_path (a_out_dir args) in
  let session := network (build_session (a_azdo_pat args)) in
  let files := find_md target (p_world ps) in
  match files with
  | [] => (Some 1%Z, MkProcess (stderr_write NOT_FOUND_MSG (p_world ps)) (p_stdout ps))
  | _ :: _ => (None, main_loop files out_dir (a_overwrite args) session ps)
  end.

End CommandLine.

(** The platform of the concrete runs: the headers of requests 2.31, entries
    listed in the order they are found, and the texts of CPython's errors
    (for an error of [re] the text is a stand-in). *)
Definition posix_headers : Headers :=
  set_header (lit "User-Agent") (lit "python-requests/2.31.0")
    (set_header (lit "Accept-Encoding") (lit "gzip, deflate")
       (set_header (lit "Accept") (lit "*/*")
          (set_header (lit "Connection") (lit "keep-alive") ∅))).

Definition posix_exn_text (e : exn) : str :=
  match e with
  | FileNotFoundError p => lit "[Errno 2] No such file or directory: " ++ sq :: p ++ [sq]
  | FileExistsError p => lit "[Errno 17] File exists: " ++ sq :: p ++ [sq]
  | NotADirectoryError p => lit "[Errno 20] Not a directory: " ++ sq :: p ++ [sq]
  | ValueError msg => msg
  | ReError msg => msg
  end.

#[export] Instance posix_platform : Platform := {|
  default_headers := posix_headers;
  listing := fun l => l;
  listing_perm := fun l => reflexivity l;
  exn_text := posix_exn_text
|}.

(** ** Fixtures of the concrete runs *)

Module Run.

(** What a computation returned, if it did. *)
Definition returned {S A} (r : result S A) : option A :=
  match r with Ok a _ => Some a | Raise _ _ => None end.

Definition ok_png (data : string) : Response :=
  MkResponse 200 (lit "OK") (Some (lit "image/png")) [lit data] None.

Definition unavailable : Response :=
  MkResponse 503 (lit "Service Unavailable") None [] None.

(** A body that breaks off after its first chunk. *)
Definition broken_png : Response :=
  MkResponse 200 (lit "OK") (Some (lit "image/png")) [lit "PAR"]
             (Some (lit "Connection broken")).

(** Sessions: every request served; none served; the first [k] requests
    answered with 503; the first response broken off. *)
Definition serve_all : Session := fun _ _ _ => GetReturns (ok_png "DATA").
Definition serve_none : Session := fun _ _ _ => GetReturns unavailable.
Definition serve_after (k : nat) : Session :=
  fun i _ _ => if (i <? k)%nat then GetReturns unavailable else GetReturns (ok_png "DATA").
Definition serve_broken_first : Session :=
  fun i _ _ => if (i <? 1)%nat then GetReturns broken_png else GetReturns (ok_png "DATA").

(** The first response broken off, then 503 to everything; and the first
    response broken off as [image/png], then the image as [image/jpeg]. *)
Definition serve_broken_then_none : Session :=
  fun i _ _ => if (i <? 1)%nat then GetReturns broken_png else GetReturns unavailable.
Definition ok_jpeg : Response :=
  MkResponse 200 (lit "OK") (Some (lit "image/jpeg")) [lit "DATA"] None.
Definition serve_broken_then_jpeg : Session :=
  fun i _ _ => if (i <? 1)%nat then GetReturns broken_png else GetReturns ok_jpeg.

(** 503, then a 200 whose body breaks off, then 503. *)
Definition serve_503_broken_503 : Session :=
  fun i _ _ => if (i =? 1)%nat then GetReturns broken_png else GetReturns unavailable.

Definition md : str := lit "/docs/readme.md".
Definition images : str := lit "/docs/images".

(** A world that holds the document only. *)
Definition docs (text : str) : World := MkWorld {[ md := text ]} ∅ [] [] [].

Definition quoted (x : string) : str := dq :: lit x ++ [dq].

(** A title that holds an inline image of its own, after a URL whose last
    segment decodes to a name with a space. *)
Definition nested_doc : str :=
  lit "![a](https://h/a%20b.png " ++ quoted "![t](https://h/2.png)" ++ lit ")".
Definition nested_first : result World str :=
  process_md_file md (lit "images") true serve_all (docs nested_doc).
Definition nested_second : result World str :=
  process_md_file md (lit "images") true serve_all (final_state nested_first).

(** The same document with a last segment that has no space. *)
Definition plain_doc : str :=
  lit "![a](https://h/ab.png " ++ quoted "![t](https://h/2.png)" ++ lit ")".
Definition plain_first : result World str :=
  process_md_file md (lit "images") true serve_all (docs plain_doc).

(** One URL twice, as inline images. *)
Definition twice_doc : str :=
  lit "![a](https://host/a.png) ![b](https://host/a.png)".

(** One URL once. *)
Definition once_doc : str := lit "![a](https://host/a.png)".

(** One URL twice whose last segment decodes to a name with a NUL. *)
Definition nul_doc : str :=
  lit "![a](https://h/a%00b.png) ![b](https://h/a%00b.png)".

(** One URL as an inline image and in an HTML tag. *)
Definition mixed_doc : str :=
  lit "![a](https://host/a.png)" ++ [nl] ++ lit "<img src="
  ++ quoted "https://host/a.png" ++ lit ">".
Definition mixed_first : result World str :=
  process_md_file md (lit "images") true serve_all (docs mixed_doc).

(** An inline image with two spaces before its title. *)
Definition spaced_doc : str :=
  lit "![a](https://h/x.png  " ++ quoted "T" ++ lit ")".

(** The reference definition of the specification with a usage of it. *)
Definition logo_doc : str :=
  lit "![Logo][logo]" ++ [nl; nl] ++ lit "[logo]: https://example.com/a.png "
  ++ quoted "Logo".

(** References that are not remote. *)
Definition local_doc : str :=
  lit "![a](img/a.png) ![b](data:image/png;base64,AAAA) ![c](mailto:x@y.z)"
  ++ [nl] ++ lit "[d]: #anchor" ++ [nl] ++ lit "<img src='../b.png'>".

(** The HTML tag of the specification, and the same tag with the attribute
    spelled in upper case. *)
Definition lower_tag : str :=
  lit "<img src='https://host/a.jpg' alt=" ++ quoted "x" ++ lit ">".
Definition upper_tag : str :=
  lit "<img SRC='https://host/a.jpg' alt=" ++ quoted "x" ++ lit ">".

(** Two URLs with the same last path segment. *)
Definition url_a : str := lit "https://example.com/1037987/logo.png".
Definition url_b : str := lit "https://example.com/1299915/logo.png".

(** A world in which a regular file stands where the images would go. *)
Definition blocked : World :=
  MkWorld {[ lit "/docs/images" := lit "not a directory" ]} ∅ [] [] [].

(** A world in which the derived file is there already. *)
Definition fetched_before : World :=
  MkWorld {[ lit "/docs/images/img_5cecb4b2c4.png" := lit "OLD" ]} ∅ [] [] [].

(** A tree of documents: two documents, a picture, and a directory whose
    name ends in [.md]. *)
Definition tree : World :=
  MkWorld (<[lit "/docs/readme.md" := lit "![a](https://host/a.png)"]>
          (<[lit "/docs/sub/NOTES.MD" := lit "no images"]>
          (<[lit "/docs/pic.png" := lit "PNG"]>
          {[ lit "/docs/old.md/draft.txt" := lit "text" ]})))
          ∅ [] [] [].

(** Two documents, and a regular file where the first document's images
    would go. *)
Definition site : World :=
  MkWorld (<[lit "/docs/readme.md" := lit "![a](https://host/a.png)"]>
          (<[lit "/docs/sub/NOTES.MD" := lit "no images"]>
          {[ lit "/docs/images" := lit "not a directory" ]}))
          ∅ [] [] [].

Definition run_args (timeout retries : Z) : Args :=
  MkArgs (lit "/docs/") (lit "images") false None timeout retries.

(** A document with a remote image and references that are not remote. *)
Definition schemes_doc : str :=
  lit "![a](ftp://host/a.png) ![b](https://host/b.png) ![c](c.png)".

(** A document without images whose lines end in CR LF. *)
Definition crlf_doc : str := lit "one" ++ [cr; nl] ++ lit "two" ++ [cr; nl].

(** Two definitions of one id. *)
Definition defs_doc : str :=
  lit "[logo]: https://example.com/a.png" ++ [nl]
  ++ lit "[logo]: https://example.com/b.png " ++ quoted "B".


(** A state in which the image of [lower_tag] is cached under a path written
    with a backslash, and one with a plain path. *)
Definition cached_backslash : RState :=
  MkRState (docs lower_tag) {[ lit "https://host/a.jpg" := lit "images\logo.jpg" ]}.
Definition cached_slash : RState :=
  MkRState (docs lower_tag) {[ lit "https://host/a.jpg" := lit "images/logo.jpg" ]}.

End Run.

(** * Properties *)

(** ** The matcher *)

Lemma last_char_cons p a l : last_char p (a :: l) = last_char (Some a) l.
Proof.
  unfold last_char. destruct l as [|b l]; [reflexivity|].
  change (last (a :: b :: l)) with (last (b :: l)).
  destruct (last (b :: l)) eqn:E; [reflexivity|].
  apply last_None in E. discriminate.
Qed.

Lemma last_char_app p l1 l2 : last_char p (l1 ++ l2) = last_char (last_char p l1) l2.
Proof.
  revert p. induction l1 as [|a l1 IH]; intros p; [reflexivity|].
  rewrite <- app_comm_cons, !last_char_cons. apply IH.
Qed.

Lemma rmatch_chr ic cs k p r g res :
  rmatch ic (Chr cs) k (MState p r g) = Some res ->
  exists a t, r = a :: t /\ cset_mem ic cs a = true /\
              k (MState (Some a) t g) = Some res.
Proof.
  simpl. destruct r as [|a t]; [discriminate|].
  destruct (cset_mem ic cs a) eqn:E; [|discriminate].
  intros Hk. exists a, t. auto.
Qed.

Lemma star_loop_chr ic cs greedy k fuel p r g res :
  star_loop (rmatch ic (Chr cs)) greedy k fuel (MState p r g) = Some res ->
  exists pre t, r = pre ++ t /\ Forall (fun a => cset_mem ic cs a = true) pre /\
                k (MState (last_char p pre) t g) = Some res.
Proof.
  revert p r. induction fuel as [|fuel IH]; intros p r Hs.
  - exists [], r. auto.
  - assert (Hstop : k (MState p r g) = Some res ->
      exists pre t, r = pre ++ t /\ Forall (fun a => cset_mem ic cs a = true) pre /\
                    k (MState (last_char p pre) t g) = Some res)
      by (intros Hk; exists [], r; auto).
    assert (Hmore : forall again,
      again = (fun st1 => if (length (ms_rest st1) <? length r)%nat
                          then star_loop (rmatch ic (Chr cs)) greedy k fuel st1 else None) ->
      rmatch ic (Chr cs) again (MState p r g) = Some res ->
      exists pre t, r = pre ++ t /\ Forall (fun a => cset_mem ic cs a = true) pre /\
                    k (MState (last_char p pre) t g) = Some res).
    { intros again -> Hm. apply rmatch_chr in Hm as (a & t & -> & Ha & Hm).
      simpl in Hm. destruct (_ <? _)%nat; [|discriminate].
      apply IH in Hm as (pre & t' & -> & Hall & Hk).
      exists (a :: pre), t'. rewrite last_char_cons. auto. }
    simpl in Hs. destruct greedy.
    + destruct (match r with [] => None | _ => _ end) eqn:E.
      * injection Hs as ->. eapply Hmore; [reflexivity|exact E].
      * auto.
    + destruct (k (MState p r g)) eqn:E.
      * injection Hs as ->. auto.
      * eapply Hmore; [reflexivity|exact Hs].
Qed.

Lemma star_chr ic cs greedy k p r g res :
  rmatch ic (Star greedy (Chr cs)) k (MState p r g) = Some res ->
  exists pre t, r = pre ++ t /\ Forall (fun a => cset_mem ic cs a = true) pre /\
                k (MState (last_char p pre) t g) = Some res.
Proof. apply star_loop_chr. Qed.

Lemma plus_chr ic cs greedy k p r g res :
  rmatch ic (Plus greedy (Chr cs)) k (MState p r g) = Some res ->
  exists pre t, r = pre ++ t /\ pre <> [] /\
                Forall (fun a => cset_mem ic cs a = true) pre /\
                k (MState (last_char p pre) t g) = Some res.
Proof.
  unfold Plus. change (rmatch ic (Seq ?a ?b) k ?st) with (rmatch ic a (rmatch ic b k) st).
  intros Hm. apply rmatch_chr in Hm as (a & t & -> & Ha & Hm).
  apply star_chr in Hm as (pre & t' & -> & Hall & Hk).
  exists (a :: pre), t'. rewrite last_char_cons. auto.
Qed.

(** The characters that IGNORECASE leaves alone. *)
Lemma lower_upper_lower a : is_upper a = true -> is_lower (lower a) = true.
Proof. destruct a as [[] [] [] [] [] [] [] []]; vm_compute; congruence. Qed.

Lemma lower_fix a : is_upper a = false -> lower a = a.
Proof. unfold lower. intros ->. reflexivity. Qed.

Lemma eq_fold_plain ic a c :
  is_alpha c = false -> eq_fold ic a c = true -> a = c.
Proof.
  unfold eq_fold, ascii_eqb, is_alpha. intros Hc He.
  apply orb_false_elim in Hc as [Hu Hl].
  destruct ic; [|by apply bool_decide_eq_true in He].
  apply bool_decide_eq_true in He. rewrite (lower_fix c Hu) in He.
  destruct (is_upper a) eqn:Ha.
  - apply lower_upper_lower in Ha. rewrite He in Ha. congruence.
  - by rewrite (lower_fix a Ha) in He.
Qed.

Lemma rmatch_lit ic l k p r g res :
  rmatch ic (Lit l) k (MState p r g) = Some res ->
  exists pre t, r = pre ++ t /\ Forall2 (fun a c => eq_fold ic a c = true) pre l /\
                k (MState (last_char p pre) t g) = Some res.
Proof.
  revert p r. induction l as [|c l IH]; intros p r Hm.
  - exists [], r. split; [reflexivity|]. split; [constructor|exact Hm].
  - change (rmatch ic (Lit (c :: l)) k ?st)
      with (rmatch ic (Chr (CLit c)) (rmatch ic (Lit l) k) st) in Hm.
    apply rmatch_chr in Hm as (a & t & -> & Ha & Hm).
    apply IH in Hm as (pre & t' & -> & Hall & Hk).
    exists (a :: pre), t'. rewrite last_char_cons.
    split; [reflexivity|]. split; [|exact Hk]. constructor; [exact Ha|exact Hall].
Qed.

Lemma rmatch_lit_plain ic l k p r g res :
  forallb (fun c => negb (is_alpha c)) l = true ->
  rmatch ic (Lit l) k (MState p r g) = Some res ->
  exists t, r = l ++ t /\ k (MState (last_char p l) t g) = Some res.
Proof.
  intros Hl Hm. apply rmatch_lit in Hm as (pre & t & -> & Hall & Hk).
  assert (pre = l) as ->.
  { clear Hk. revert Hl. induction Hall as [|a c pre l Hac _ IH]; intros Hl; [reflexivity|].
    simpl in Hl. apply andb_prop in Hl as [Hc Hl]. apply negb_true_iff in Hc.
    f_equal; [by eapply eq_fold_plain|by apply IH]. }
  eauto.
Qed.

Lemma rmatch_seq ic r1 r2 k st :
  rmatch ic (Seq r1 r2) k st = rmatch ic r1 (rmatch ic r2 k) st.
Proof. reflexivity. Qed.

Lemma rmatch_grp ic g r1 k st :
  rmatch ic (Grp g r1) k st =
  rmatch ic r1 (fun st1 => k (set_group g
     (take (length (ms_rest st) - length (ms_rest st1)) (ms_rest st)) st1)) st.
Proof. reflexivity. Qed.

Lemma take_app_consumed (pre t : str) :
  take (length (pre ++ t) - length t) (pre ++ t) = pre.
Proof.
  rewrite length_app. replace (length pre + length t - length t) with (length pre) by lia.
  by rewrite take_app_length.
Qed.

(** The optional title: absent, or white space and a quoted title. *)
Lemma title_opt_shape ic k p r g res :
  rmatch ic TITLE_OPT k (MState p r g) = Some res ->
  k (MState p r g) = Some res \/
  exists ws title t,
    r = ws ++ dq :: title ++ dq :: t /\ ws <> [] /\
    Forall (fun a => is_space a = true) ws /\
    Forall (fun a => a <> dq) title /\
    k (MState (Some dq) t ((g_title, title) :: g)) = Some res.
Proof.
  unfold TITLE_OPT.
  change (rmatch ic (Opt ?r1) k ?st)
    with (match rmatch ic r1 k st with Some v => Some v | None => k st end).
  destruct (rmatch ic (Seq _ _) k _) eqn:E; [|by left].
  intros [= ->]. right.
  rewrite rmatch_seq in E. apply plus_chr in E as (ws & t1 & -> & Hne & Hws & E).
  rewrite rmatch_seq in E. apply rmatch_chr in E as (a & t2 & -> & Ha & E).
  rewrite rmatch_seq, rmatch_grp in E.
  apply star_chr in E as (title & t3 & -> & Htitle & E).
  cbn [ms_rest] in E. rewrite take_app_consumed in E.
  unfold set_group in E; cbn [ms_prev ms_rest ms_groups] in E.
  apply rmatch_chr in E as (b & t4 & -> & Hb & E).
  apply (eq_fold_plain ic a dq eq_refl) in Ha as ->.
  apply (eq_fold_plain ic b dq eq_refl) in Hb as ->.
  exists ws, title, t4. split; [reflexivity|]. split; [exact Hne|].
  split; [exact Hws|]. split; [|exact E].
  eapply Forall_impl; [exact Htitle|]. intros c Hc ->. 
  destruct ic; vm_compute in Hc; discriminate.
Qed.

Ltac norm_state H :=
  unfold set_group in H; cbn [ms_prev ms_rest ms_groups] in H;
  rewrite ?take_app_consumed in H.

Lemma match_at_inv ic r prev text m :
  match_at ic r prev text = Some m ->
  exists st, rmatch ic r Some (MState prev text []) = Some st /\
             m = MkMatch (take (length text - length (ms_rest st)) text) (ms_groups st).
Proof.
  unfold match_at. destruct (rmatch _ _ _ _) as [st|]; [|discriminate].
  intros [= <-]. eauto.
Qed.

Lemma not_space_all ic (l : str) :
  Forall (fun a => cset_mem ic CNotSpace a = true) l ->
  Forall (fun a => is_space a = false) l.
Proof.
  intros Hl. eapply Forall_impl; [exact Hl|].
  intros a Ha. by apply negb_true_iff in Ha.
Qed.

Lemma none_of_all ic c (l : str) :
  is_alpha c = false ->
  Forall (fun a => cset_mem ic (CNoneOf [c]) a = true) l -> Forall (fun a => a <> c) l.
Proof.
  intros Hc Hl. eapply Forall_impl; [exact Hl|]. intros a Ha ->.
  unfold cset_mem, mem, existsb, ascii_eqb in Ha.
  rewrite bool_decide_eq_true_2 in Ha by reflexivity.
  destruct ic; discriminate.
Qed.

Lemma space_all ic (l : str) :
  Forall (fun a => cset_mem ic CSpace a = true) l ->
  Forall (fun a => is_space a = true) l.
Proof. intros Hl. eapply Forall_impl; [exact Hl|]. auto. Qed.

Ltac done_shape :=
  first [ by eapply (none_of_all true "]"%char)
        | by eapply not_space_all
        | by eapply space_all ].

(** What a match of the inline pattern looks like. *)
Lemma inline_shape prev text m :
  match_at true MD_IMG_INLINE prev text = Some m ->
  exists alt url rest,
    text = m_group0 m ++ rest /\
    group m g_alt = Some alt /\ group m g_url = Some url /\
    url <> [] /\ Forall (fun a => is_space a = false) url /\
    Forall (fun a => a <> "]"%char) alt /\
    ((group m g_title = None /\
      m_group0 m = lit "![" ++ alt ++ lit "](" ++ url ++ lit ")") \/
     (exists ws title,
        group m g_title = Some title /\ ws <> [] /\
        Forall (fun a => is_space a = true) ws /\ Forall (fun a => a <> dq) title /\
        m_group0 m = lit "![" ++ alt ++ lit "](" ++ url ++ ws ++ dq :: title ++ dq :: lit ")")).
Proof.
  intros Hm. apply match_at_inv in Hm as (st & Hm & ->).
  unfold MD_IMG_INLINE in Hm.
  rewrite rmatch_seq in Hm.
  apply rmatch_lit_plain in Hm as (t1 & -> & Hm); [|reflexivity].
  rewrite rmatch_seq, rmatch_grp in Hm.
  apply star_chr in Hm as (alt & t2 & -> & Halt & Hm). norm_state Hm.
  rewrite rmatch_seq in Hm.
  apply rmatch_lit_plain in Hm as (t3 & -> & Hm); [|reflexivity].
  rewrite rmatch_seq, rmatch_grp in Hm.
  apply plus_chr in Hm as (url & t4 & -> & Hurl & Hns & Hm). norm_state Hm.
  rewrite rmatch_seq in Hm.
  apply title_opt_shape in Hm as [Hm|(ws & title & t5 & -> & Hws & Hsp & Hti & Hm)].
  - apply rmatch_lit_plain in Hm as (t5 & -> & [= <-]); [|reflexivity].
    exists alt, url, t5. cbn [ms_rest ms_groups m_group0].
    assert (Hall : lit "![" ++ alt ++ lit "](" ++ url ++ lit ")" ++ t5
                   = (lit "![" ++ alt ++ lit "](" ++ url ++ lit ")") ++ t5)
      by (by rewrite <- !app_assoc).
    rewrite Hall, take_app_consumed.
    repeat split; try reflexivity; try assumption; try done_shape.
    left. split; reflexivity.
  - apply rmatch_lit_plain in Hm as (t6 & -> & [= <-]); [|reflexivity].
    exists alt, url, t6. cbn [ms_rest ms_groups m_group0].
    assert (Hall : lit "![" ++ alt ++ lit "](" ++ url ++ ws ++ dq :: title ++ dq :: lit ")" ++ t6
                   = (lit "![" ++ alt ++ lit "](" ++ url ++ ws ++ dq :: title ++ dq :: lit ")") ++ t6)
      by (rewrite <- !app_assoc; do 4 f_equal; simpl; by rewrite <- app_assoc).
    rewrite Hall, take_app_consumed.
    repeat split; try reflexivity; try assumption; try done_shape.
    right. exists ws, title. repeat split; try reflexivity; assumption.
Qed.

Lemma rmatch_bol ic k st res :
  rmatch ic Bol k st = Some res ->
  (ms_prev st = None \/ ms_prev st = Some nl) /\ k st = Some res.
Proof.
  simpl. destruct (ms_prev st) as [c|]; [|auto].
  unfold ascii_eqb. case_bool_decide; [subst; auto|discriminate].
Qed.

Lemma rmatch_eol ic k st res :
  rmatch ic Eol k st = Some res ->
  (ms_rest st = [] \/ head (ms_rest st) = Some nl) /\ k st = Some res.
Proof.
  simpl. destruct (ms_rest st) as [|c t]; [auto|].
  unfold ascii_eqb. case_bool_decide; [subst; auto|discriminate].
Qed.


(** What a match of the reference-definition pattern looks like. *)
Lemma ref_def_shape prev text m :
  match_at true MD_REF_DEF prev text = Some m ->
  exists ref_id ws1 url ws3 rest,
    text = m_group0 m ++ rest /\
    (prev = None \/ prev = Some nl) /\ (rest = [] \/ head rest = Some nl) /\
    group m g_id = Some ref_id /\ group m g_url = Some url /\
    ref_id <> [] /\ Forall (fun a => a <> "]"%char) ref_id /\
    url <> [] /\ Forall (fun a => is_space a = false) url /\
    Forall (fun a => is_space a = true) ws1 /\ Forall (fun a => is_space a = true) ws3 /\
    ((group m g_title = None /\
      m_group0 m = lit "[" ++ ref_id ++ lit "]:" ++ ws1 ++ url ++ ws3) \/
     (exists ws2 title,
        group m g_title = Some title /\ ws2 <> [] /\
        Forall (fun a => is_space a = true) ws2 /\ Forall (fun a => a <> dq) title /\
        m_group0 m = lit "[" ++ ref_id ++ lit "]:" ++ ws1 ++ url ++ ws2
                     ++ dq :: title ++ dq :: ws3)).
Proof.
  intros Hm. apply match_at_inv in Hm as (st & Hm & ->).
  unfold MD_REF_DEF in Hm.
  rewrite rmatch_seq in Hm. apply rmatch_bol in Hm as [Hprev Hm]. cbn [ms_prev] in Hprev.
  rewrite rmatch_seq in Hm.
  apply rmatch_lit_plain in Hm as (t1 & -> & Hm); [|reflexivity].
  rewrite rmatch_seq, rmatch_grp in Hm.
  apply plus_chr in Hm as (ref_id & t2 & -> & Hid & Hidc & Hm). norm_state Hm.
  rewrite rmatch_seq in Hm.
  apply rmatch_lit_plain in Hm as (t3 & -> & Hm); [|reflexivity].
  rewrite rmatch_seq in Hm.
  apply star_chr in Hm as (ws1 & t4 & -> & Hws1 & Hm).
  rewrite rmatch_seq, rmatch_grp in Hm.
  apply plus_chr in Hm as (url & t5 & -> & Hurl & Hns & Hm). norm_state Hm.
  rewrite rmatch_seq in Hm.
  apply title_opt_shape in Hm as [Hm|(ws2 & title & t6 & -> & Hws2 & Hsp2 & Hti & Hm)].
  - rewrite rmatch_seq in Hm.
    apply star_chr in Hm as (ws3 & t6 & -> & Hws3 & Hm).
    apply rmatch_eol in Hm as [Hend [= <-]]. cbn [ms_rest] in Hend.
    exists ref_id, ws1, url, ws3, t6. cbn [ms_rest ms_groups m_group0].
    assert (Hall : lit "[" ++ ref_id ++ lit "]:" ++ ws1 ++ url ++ ws3 ++ t6
                   = (lit "[" ++ ref_id ++ lit "]:" ++ ws1 ++ url ++ ws3) ++ t6)
      by (by rewrite <- !app_assoc).
    rewrite Hall, take_app_consumed.
    repeat split; try reflexivity; try assumption; try done_shape.
    left. split; reflexivity.
  - rewrite rmatch_seq in Hm.
    apply star_chr in Hm as (ws3 & t7 & -> & Hws3 & Hm).
    apply rmatch_eol in Hm as [Hend [= <-]]. cbn [ms_rest] in Hend.
    exists ref_id, ws1, url, ws3, t7. cbn [ms_rest ms_groups m_group0].
    assert (Hall : lit "[" ++ ref_id ++ lit "]:" ++ ws1 ++ url ++ ws2 ++ dq :: title
                     ++ dq :: ws3 ++ t7
                   = (lit "[" ++ ref_id ++ lit "]:" ++ ws1 ++ url ++ ws2 ++ dq :: title
                     ++ dq :: ws3) ++ t7)
      by (rewrite <- !app_assoc; do 5 f_equal; simpl; by rewrite <- app_assoc).
    rewrite Hall, take_app_consumed.
    repeat split; try reflexivity; try assumption; try done_shape.
    right. exists ws2, title. repeat split; try reflexivity; assumption.
Qed.

(** Matching never moves the cursor backwards. *)
Lemma rmatch_shrinks ic r :
  forall k st res,
    rmatch ic r k st = Some res ->
    exists st', k st' = Some res /\ length (ms_rest st') <= length (ms_rest st).
Proof.
  induction r as [|cs|r1 IH1 r2 IH2|greedy r1 IH1|r1 IH1|g r1 IH1|g| | |];
    intros k st res Hm.
  - exists st. split; [exact Hm|lia].
  - destruct st as [p rest gs]. apply rmatch_chr in Hm as (a & t & -> & _ & Hk).
    eexists. split; [exact Hk|]. simpl. lia.
  - rewrite rmatch_seq in Hm. apply IH1 in Hm as (st1 & Hm & Hl1).
    apply IH2 in Hm as (st2 & Hk & Hl2). exists st2. split; [exact Hk|lia].
  - change (rmatch ic (Star greedy r1) k st)
      with (star_loop (rmatch ic r1) greedy k (length (ms_rest st)) st) in Hm.
    revert Hm. generalize (length (ms_rest st)) at 1. intros fuel. revert st.
    induction fuel as [|fuel IHf]; intros st Hm.
    + exists st. split; [exact Hm|lia].
    + assert (Hmore : rmatch ic r1
                (fun st1 => if (length (ms_rest st1) <? length (ms_rest st))%nat
                            then star_loop (rmatch ic r1) greedy k fuel st1 else None) st
                = Some res ->
                exists st', k st' = Some res /\ length (ms_rest st') <= length (ms_rest st)).
      { intros Hb. apply IH1 in Hb as (st1 & Hb & Hl1).
        destruct (_ <? _)%nat; [|discriminate].
        apply IHf in Hb as (st2 & Hk & Hl2). exists st2. split; [exact Hk|lia]. }
      cbn [star_loop] in Hm. destruct greedy.
      * destruct (rmatch ic r1 _ st) eqn:Hb.
        -- injection Hm as ->. by apply Hmore.
        -- exists st. split; [exact Hm|lia].
      * destruct (k st) eqn:Hk.
        -- injection Hm as ->. exists st. split; [exact Hk|lia].
        -- by apply Hmore.
  - change (rmatch ic (Opt r1) k st)
      with (match rmatch ic r1 k st with Some v => Some v | None => k st end) in Hm.
    destruct (rmatch ic r1 k st) eqn:Hb.
    + injection Hm as ->. by apply IH1.
    + exists st. split; [exact Hm|lia].
  - rewrite rmatch_grp in Hm. apply IH1 in Hm as (st1 & Hk & Hl).
    eexists. split; [exact Hk|]. exact Hl.
  - simpl in Hm. destruct (group_of (ms_groups st) g) as [v|]; [|discriminate].
    destruct (prefix_fold ic v (ms_rest st)); [|discriminate].
    eexists. split; [exact Hm|]. cbn [advance ms_rest]. rewrite length_drop. lia.
  - apply rmatch_bol in Hm as [_ Hk]. exists st. split; [exact Hk|lia].
  - apply rmatch_eol in Hm as [_ Hk]. exists st. split; [exact Hk|lia].
  - simpl in Hm. destruct (xorb _ _); [|discriminate]. exists st. split; [exact Hm|lia].
Qed.

Lemma consumed_nonempty (text : str) (a : ascii) (t rest : str) :
  text = a :: t -> length rest <= length t ->
  take (length text - length rest) text <> [].
Proof.
  intros -> Hl. cbn [length]. replace (S (length t) - length rest)
    with (S (length t - length rest)) by lia. discriminate.
Qed.

(** None of the patterns of the program matches the empty string: every
    match takes at least the first character of its literal start. *)
Lemma patterns_never_match_empty prev text m :
  match_at true MD_IMG_INLINE prev text = Some m \/
  match_at true MD_REF_DEF prev text = Some m \/
  match_at true HTML_IMG prev text = Some m \/
  match_at false SRC_ATTR prev text = Some m ->
  m_group0 m <> [].
Proof.
  intros [Hm|[Hm|[Hm|Hm]]]; apply match_at_inv in Hm as (st & Hm & ->);
    cbn [m_group0].
  - unfold MD_IMG_INLINE in Hm. rewrite rmatch_seq in Hm.
    change (Lit (lit "![")) with (Seq (Chr (CLit "!")) (Lit (lit "["))) in Hm.
    rewrite rmatch_seq in Hm. apply rmatch_chr in Hm as (a & t & Ht & _ & Hm).
    apply rmatch_shrinks in Hm as (st1 & Hm & Hl1).
    apply rmatch_shrinks in Hm as (st2 & [= <-] & Hl2).
    eapply consumed_nonempty; [exact Ht|]. cbn [ms_rest] in *. lia.
  - unfold MD_REF_DEF in Hm. rewrite rmatch_seq in Hm.
    apply rmatch_bol in Hm as [_ Hm]. rewrite rmatch_seq in Hm.
    change (Lit (lit "[")) with (Seq (Chr (CLit "[")) Eps) in Hm.
    rewrite rmatch_seq in Hm. apply rmatch_chr in Hm as (a & t & Ht & _ & Hm).
    apply rmatch_shrinks in Hm as (st1 & Hm & Hl1).
    apply rmatch_shrinks in Hm as (st2 & [= <-] & Hl2).
    eapply consumed_nonempty; [exact Ht|]. cbn [ms_rest] in *. lia.
  - unfold HTML_IMG in Hm. rewrite rmatch_seq in Hm.
    change (Lit (lit "<img")) with (Seq (Chr (CLit "<")) (Lit (lit "img"))) in Hm.
    rewrite rmatch_seq in Hm. apply rmatch_chr in Hm as (a & t & Ht & _ & Hm).
    apply rmatch_shrinks in Hm as (st1 & Hm & Hl1).
    apply rmatch_shrinks in Hm as (st2 & [= <-] & Hl2).
    eapply consumed_nonempty; [exact Ht|]. cbn [ms_rest] in *. lia.
  - unfold SRC_ATTR in Hm. rewrite rmatch_seq in Hm.
    apply rmatch_shrinks in Hm as (st0 & Hm & Hl0). rewrite rmatch_seq in Hm.
    change (Lit (lit "src=")) with (Seq (Chr (CLit "s")) (Lit (lit "rc="))) in Hm.
    rewrite rmatch_seq in Hm. destruct st0 as [p0 r0 g0].
    apply rmatch_chr in Hm as (a & t & Ht & _ & Hm).
    apply rmatch_shrinks in Hm as (st1 & Hm & Hl1).
    apply rmatch_shrinks in Hm as (st2 & [= <-] & Hl2).
    cbn [ms_rest] in *. subst r0. destruct text as [|c text']; [simpl in Hl0; lia|].
    eapply consumed_nonempty; [reflexivity|]. cbn [length] in *. lia.
Qed.

(** ** The scan *)

Lemma match_at_group0 ic r prev text m :
  match_at ic r prev text = Some m -> exists n, m_group0 m = take n text.
Proof. intros Hm. apply match_at_inv in Hm as (st & _ & ->). eauto. Qed.

Lemma take_drop_taken {A} (l : list A) n : take n l ++ drop (length (take n l)) l = l.
Proof.
  rewrite length_take. destruct (Nat.le_gt_cases n (length l)).
  - rewrite Nat.min_l by done. apply take_drop.
  - rewrite Nat.min_r by lia. rewrite take_ge, drop_all by lia. apply app_nil_r.
Qed.

Lemma sub_from_emit {S} ic r (repl : Match -> M S str) text :
  forall prev skip st,
    sub_from ic r repl prev skip text st = emit repl (pieces_from ic r prev skip text) st.
Proof.
  induction text as [|c t IH]; intros prev skip st.
  - destruct skip; [|reflexivity]. simpl.
    destruct (match_at ic r prev []); reflexivity.
  - destruct skip as [|n]; [|apply IH]. simpl.
    destruct (match_at ic r prev (c :: t)) as [m|]; cbn [emit]; unfold bind.
    + destruct (repl m st) as [out st1|e st1]; [|reflexivity].
      destruct (length (m_group0 m)); cbn [emit]; unfold bind; rewrite IH; reflexivity.
    + rewrite IH. reflexivity.
Qed.

Lemma finditer_pieces ic r text :
  forall prev skip,
    finditer_from ic r prev skip text = matches_of (pieces_from ic r prev skip text).
Proof.
  induction text as [|c t IH]; intros prev skip.
  - destruct skip; [|reflexivity]. simpl. destruct (match_at ic r prev []); reflexivity.
  - destruct skip as [|n]; [|apply IH]. simpl.
    destruct (match_at ic r prev (c :: t)) as [m|]; [|apply IH].
    simpl. f_equal. destruct (length (m_group0 m)); simpl; rewrite IH; [reflexivity|].
    by rewrite Nat.sub_0_r.
Qed.

Lemma original_pieces ic r text :
  forall prev skip, original (pieces_from ic r prev skip text) = drop skip text.
Proof.
  induction text as [|c t IH]; intros prev skip.
  - destruct skip; [|reflexivity]. simpl.
    destruct (match_at ic r prev []) as [m|] eqn:Hm; [|reflexivity].
    apply match_at_group0 in Hm as [n Hn]. simpl. rewrite Hn. by destruct n.
  - destruct skip as [|n]; [|apply IH]. simpl.
    destruct (match_at ic r prev (c :: t)) as [m|] eqn:Hm; [|simpl; by rewrite IH].
    apply match_at_group0 in Hm as [n Hn]. simpl. rewrite Hn.
    destruct n as [|n]; simpl; [by rewrite IH|].
    rewrite IH. f_equal. apply take_drop_taken.
Qed.

(** Matches that are emitted as they stand leave the text and the state as
    they were. *)
Lemma emit_unchanged {S} (repl : Match -> M S str) ps st :
  Forall (fun m => repl m st = Ok (m_group0 m) st) (matches_of ps) ->
  emit repl ps st = Ok (original ps) st.
Proof.
  induction ps as [|[c|m] ps IH]; intros Hall; simpl.
  - reflexivity.
  - unfold bind. rewrite IH by exact Hall. reflexivity.
  - inversion Hall as [|? ? Hm Hrest]; subst. unfold bind. rewrite Hm, IH by exact Hrest.
    reflexivity.
Qed.


(** A property of the state that every replacement keeps is kept by the
    whole scan. *)
Lemma emit_invariant {S} (P : S -> Prop) (repl : Match -> M S str) ps :
  (forall m st, P st -> P (final_state (repl m st))) ->
  forall st, P st -> P (final_state (emit repl ps st)).
Proof.
  intros Hrepl. induction ps as [|[c|m] ps IH]; intros st Hst; simpl.
  - exact Hst.
  - unfold bind. specialize (IH st Hst). destruct (emit repl ps st); exact IH.
  - unfold bind. specialize (Hrepl m st Hst).
    destruct (repl m st) as [out st1|e st1]; [|exact Hrepl].
    specialize (IH st1 Hrepl). destruct (emit repl ps st1); exact IH.
Qed.

(** ** Strings and paths *)

Lemma mem_app c (l1 l2 : str) : mem c (l1 ++ l2) = mem c l1 || mem c l2.
Proof. apply existsb_app. Qed.

Lemma mem_cons c a (l : str) : mem c (a :: l) = ascii_eqb c a || mem c l.
Proof. reflexivity. Qed.

Lemma ascii_eqb_sym a b : ascii_eqb a b = ascii_eqb b a.
Proof. unfold ascii_eqb. apply bool_decide_ext. split; congruence. Qed.

(** The last occurrence of [c] splits the text. *)
Lemma split_last c p :
  match before_last c p, after_last c p with
  | Some a, Some b => p = a ++ c :: b /\ mem c b = false
  | None, None => mem c p = false
  | _, _ => False
  end.
Proof.
  induction p as [|x p IH]; simpl; [reflexivity|].
  destruct (before_last c p) as [a|], (after_last c p) as [b|]; try contradiction.
  - destruct IH as [-> Hb]. auto.
  - unfold ascii_eqb at 1 2. rewrite (ascii_eqb_sym c x). unfold ascii_eqb.
    case_bool_decide as Hx; [subst; auto|]. exact IH.
Qed.

Lemma basename_no_slash p : mem slash (basename p) = false.
Proof.
  unfold basename. pose proof (split_last slash p) as Hs.
  destruct (before_last slash p), (after_last slash p); try contradiction; simpl.
  - apply Hs.
  - exact Hs.
Qed.

Lemma basename_of_name p : mem slash p = false -> basename p = p.
Proof.
  intros Hp. unfold basename. pose proof (split_last slash p) as Hs.
  destruct (before_last slash p) as [a|], (after_last slash p) as [b|];
    try contradiction; [|reflexivity].
  destruct Hs as [-> _]. rewrite mem_app, mem_cons in Hp.
  unfold ascii_eqb in Hp. rewrite bool_decide_eq_true_2 in Hp by reflexivity.
  by rewrite orb_true_r in Hp.
Qed.

(** [splitext] cuts a name into two parts that make it up again. *)
Lemma splitext_name p :
  mem slash p = false ->
  fst (splitext p) ++ snd (splitext p) = p /\
  (snd (splitext p) = [] \/ exists rest, snd (splitext p) = dot :: rest).
Proof.
  intros Hp. unfold splitext. rewrite (basename_of_name p Hp).
  pose proof (split_last dot p) as Hs.
  destruct (before_last dot p) as [a|], (after_last dot p) as [b|];
    try contradiction; simpl; [|rewrite app_nil_r; auto].
  destruct (forallb _ a); simpl; [rewrite app_nil_r; auto|].
  destruct Hs as [Hs _]. rewrite Nat.sub_diag, take_0. simpl. split; [by rewrite Hs|eauto].
Qed.

Lemma splitext_no_slash p :
  mem slash p = false ->
  mem slash (fst (splitext p)) = false /\ mem slash (snd (splitext p)) = false.
Proof.
  intros Hp. destruct (splitext_name p Hp) as [Hcat _].
  rewrite <- Hcat, mem_app in Hp. by apply orb_false_elim in Hp.
Qed.

(** ** The fingerprint *)


Lemma hex_length n x : length (Sha1.hex n x) = n.
Proof. induction n as [|n IH]; simpl; [reflexivity|]. by rewrite IH. Qed.

Lemma hex_digit_is_hex x : (0 <= x < 16)%Z -> is_hex (Sha1.hex_digit x) = true.
Proof.
  intros Hx.
  assert (Hcases : (x = 0 \/ x = 1 \/ x = 2 \/ x = 3 \/ x = 4 \/ x = 5 \/ x = 6 \/
                    x = 7 \/ x = 8 \/ x = 9 \/ x = 10 \/ x = 11 \/ x = 12 \/ x = 13 \/
                    x = 14 \/ x = 15)%Z) by lia.
  repeat (destruct Hcases as [->|Hcases]; [reflexivity|]). subst. reflexivity.
Qed.

Lemma hex_is_hex n x : forallb is_hex (Sha1.hex n x) = true.
Proof.
  induction n as [|n IH]; [reflexivity|].
  cbn [Sha1.hex forallb]. rewrite IH, andb_true_r.
  apply hex_digit_is_hex. apply Z.mod_pos_bound. lia.
Qed.

Lemma hexdigest_length msg : length (Sha1.hexdigest msg) = 40.
Proof.
  unfold Sha1.hexdigest. destruct (Sha1.digest msg) as [[[[h0 h1] h2] h3] h4].
  rewrite !length_app, !hex_length. reflexivity.
Qed.

Lemma hexdigest_is_hex msg : forallb is_hex (Sha1.hexdigest msg) = true.
Proof.
  unfold Sha1.hexdigest. destruct (Sha1.digest msg) as [[[[h0 h1] h2] h3] h4].
  rewrite !forallb_app, !hex_is_hex. reflexivity.
Qed.


Lemma fingerprint_length url : length (fingerprint url) = 10.
Proof. unfold fingerprint. rewrite length_take, hexdigest_length. reflexivity. Qed.

Lemma forallb_take {A} (f : A -> bool) n (l : list A) :
  forallb f l = true -> forallb f (take n l) = true.
Proof.
  revert n. induction l as [|a l IH]; intros [|n] Hl; simpl; try reflexivity.
  simpl in Hl. apply andb_prop in Hl as [-> Hl]. by apply IH.
Qed.

Lemma fingerprint_is_hex url : forallb is_hex (fingerprint url) = true.
Proof. apply forallb_take, hexdigest_is_hex. Qed.

Lemma hex_no_slash (l : str) : forallb is_hex l = true -> mem slash l = false.
Proof.
  induction l as [|a l IH]; [reflexivity|]. simpl. intros Hl.
  apply andb_prop in Hl as [Ha Hl]. rewrite (IH Hl), orb_false_r.
  unfold ascii_eqb. case_bool_decide as E; [|reflexivity]. subst. discriminate.
Qed.

Section FilenameFacts.
Context `{PyLib}.

Lemma truthy_false (l : str) : truthy l = false <-> l = [].
Proof. unfold truthy. rewrite negb_false_iff, bool_decide_eq_true. reflexivity. Qed.

Lemma truthy_true (l : str) : truthy l = true <-> l <> [].
Proof. unfold truthy. rewrite negb_true_iff, bool_decide_eq_false. reflexivity. Qed.



Lemma safe_filename_eq url ct parsed :
  urlparse url = Some parsed ->
  safe_filename_from_url url ct =
  Some (fst (splitext (segment_name parsed)) ++ lit "_" ++ fingerprint url
        ++ chosen_ext (snd (splitext (segment_name parsed))) ct).
Proof.
  intros Hp. unfold safe_filename_from_url. rewrite Hp.
  fold (segment_name parsed). destruct (splitext (segment_name parsed)) as [root e].
  unfold chosen_ext, fingerprint. cbn [fst snd].
  destruct (truthy e) eqn:He; cbn [negb andb].
  - destruct ct; rewrite He; reflexivity.
  - destruct ct as [c|]; [|rewrite He; reflexivity].
    destruct (truthy c); [|rewrite He; reflexivity].
    destruct (guess_extension _) as [g|]; [|rewrite He; reflexivity].
    destruct (truthy g) eqn:Hg; rewrite ?Hg, ?He; reflexivity.
Qed.

Lemma segment_name_no_slash parsed : mem slash (segment_name parsed) = false.
Proof.
  unfold segment_name. destruct (truthy _); [apply basename_no_slash|reflexivity].
Qed.

Lemma chosen_ext_no_slash e ct :
  mem slash e = false -> mem slash (chosen_ext e ct) = false.
Proof.
  intros He. unfold chosen_ext. destruct (truthy e); [exact He|].
  destruct ct as [c|]; [|reflexivity]. destruct (truthy c); [|reflexivity].
  destruct (guess_extension _) as [g|] eqn:Hg; [|reflexivity].
  destruct (truthy g); [|reflexivity]. by eapply guess_extension_no_sep.
Qed.

Lemma filename_is_component url ct fname :
  safe_filename_from_url url ct = Some fname ->
  mem slash fname = false /\ fname <> [] /\ fname <> [dot].
Proof.
  destruct (urlparse url) as [parsed|] eqn:Hp;
    [|unfold safe_filename_from_url; rewrite Hp; discriminate].
  rewrite (safe_filename_eq url ct parsed Hp). intros [= <-].
  destruct (splitext_no_slash _ (segment_name_no_slash parsed)) as [Hr He].
  split; [|split].
  - rewrite mem_app, Hr. change (lit "_") with ["_"%char]. cbn [app].
    rewrite mem_cons, mem_app, (chosen_ext_no_slash _ ct He),
      (hex_no_slash _ (fingerprint_is_hex url)). reflexivity.
  - intros Habs. apply (f_equal length) in Habs. rewrite !length_app in Habs.
    simpl in Habs. lia.
  - intros Habs. apply (f_equal length) in Habs.
    rewrite length_app in Habs. change (lit "_") with ["_"%char] in Habs.
    cbn [app length] in Habs. rewrite length_app, fingerprint_length in Habs. lia.
Qed.

(** A derived file name is one path component. *)
Lemma safe_filename_component url ct fname :
  safe_filename_from_url url ct = Some fname ->
  mem slash fname = false /\ fname <> [] /\ fname <> [dot].
Proof. apply filename_is_component. Qed.

End FilenameFacts.

(** ** The fetcher *)

Section DownloadFacts.
Context `{PyLib}.


Lemma exists_nonempty_true p w :
  exists_nonempty p w = true <-> nonempty_file p w.
Proof.
  unfold exists_nonempty, nonempty_file. destruct (w_files w !! p) as [c|]; split.
  - intros Hl. exists c. split; [reflexivity|]. intros ->. discriminate.
  - intros (c' & [= <-] & Hc). destruct c; [done|reflexivity].
  - discriminate.
  - intros (c' & [=] & _).
Qed.

Lemma exists_nonempty_false p w :
  exists_nonempty p w = false <-> ~ nonempty_file p w.
Proof.
  rewrite <- exists_nonempty_true. destruct (exists_nonempty p w); split; congruence.
Qed.

Lemma nonempty_file_cases p w : nonempty_file p w \/ ~ nonempty_file p w.
Proof.
  destruct (exists_nonempty p w) eqn:E.
  - left. by apply exists_nonempty_true.
  - right. by apply exists_nonempty_false.
Qed.

(** A status that is no client or server error gets past lines 105-107. *)
Lemma passes_status_checks url resp :
  passes_status resp ->
  bool_decide (status_code resp ∈ RETRYABLE) = false /\ raise_for_status url resp = None.
Proof.
  unfold passes_status, raise_for_status, RETRYABLE. intros Hp. split.
  - apply bool_decide_eq_false. rewrite !elem_of_cons, elem_of_nil. lia.
  - destruct (400 <=? status_code resp)%Z eqn:E4, (status_code resp <? 500)%Z eqn:E5,
      (500 <=? status_code resp)%Z eqn:E6, (status_code resp <? 600)%Z eqn:E7;
      try reflexivity; lia.
Qed.

(** A client or server error does not. *)
Lemma error_status_fails url out_dir session timeout w resp :
  session (length (w_gets w)) url timeout = GetReturns resp ->
  (400 <= status_code resp < 600)%Z ->
  exists msg, attempt url out_dir session timeout w = (inr msg, log_get url w).
Proof.
  unfold attempt. intros -> Hs. case_bool_decide; [eauto|].
  unfold raise_for_status.
  destruct (400 <=? status_code resp)%Z eqn:E4, (status_code resp <? 500)%Z eqn:E5,
    (500 <=? status_code resp)%Z eqn:E6, (status_code resp <? 600)%Z eqn:E7;
    cbn [andb]; eauto; lia.
Qed.

(** What one attempt does to the logs. *)
Lemma attempt_logs url out_dir session timeout w r w' :
  attempt url out_dir session timeout w = (r, w') ->
  w_gets w' = url :: w_gets w /\ w_slept w' = w_slept w /\
  w_stderr w' = w_stderr w /\ w_dirs w' = w_dirs w.
Proof.
  unfold attempt. intros Ha.
  repeat match type of Ha with
         | context [match ?x with _ => _ end] => destruct x
         end; injection Ha as <- <-; auto.
Qed.

(** What one attempt does to the files: nothing, or one write to a derived
    name under [out_dir] where no non-empty file stood. *)
Lemma attempt_files url out_dir session timeout w r w' :
  attempt url out_dir session timeout w = (r, w') ->
  w_files w' = w_files w \/
  exists ct fname content,
    safe_filename_from_url url (Some ct) = Some fname /\
    exists_nonempty (joinpath out_dir fname) w = false /\
    w_files w' = <[joinpath out_dir fname := content]> (w_files w).
Proof.
  unfold attempt. intros Ha.
  destruct (session _ _ _) as [msg|resp]; [injection Ha as <- <-; auto|].
  case_bool_decide; [injection Ha as <- <-; auto|].
  destruct (raise_for_status url resp); [injection Ha as <- <-; auto|].
  destruct (safe_filename_from_url _ _) as [fname|] eqn:Hf; [|injection Ha as <- <-; auto].
  destruct (exists_error _); [injection Ha as <- <-; auto|].
  destruct (exists_nonempty _ _) eqn:He; [injection Ha as <- <-; auto|].
  destruct (open_error _); [injection Ha as <- <-; auto|].
  right. exists (default [] (content_type resp)), fname, (written (body resp)).
  split; [exact Hf|]. split; [exact He|].
  destruct (body_error resp); injection Ha as <- <-; reflexivity.
Qed.

Lemma attempt_keeps_nonempty url out_dir session timeout w r w' p content :
  attempt url out_dir session timeout w = (r, w') ->
  w_files w !! p = Some content -> content <> [] ->
  w_files w' !! p = Some content.
Proof.
  intros Ha Hp Hc. apply attempt_files in Ha as [->|(ct & fname & c & _ & He & ->)];
    [exact Hp|].
  destruct (decide (joinpath out_dir fname = p)) as [Heq|Hne].
  - assert (exists_nonempty p w = true) as Ht
      by (apply exists_nonempty_true; unfold nonempty_file; eauto).
    rewrite Heq in He. congruence.
  - by rewrite lookup_insert_ne.
Qed.


Lemma attempt_frame url out_dir session timeout w r w' p :
  attempt url out_dir session timeout w = (r, w') ->
  ~ directly_under out_dir p ->
  w_files w' !! p = w_files w !! p.
Proof.
  intros Ha Hp. apply attempt_files in Ha as [->|(ct & fname & c & Hf & _ & ->)];
    [reflexivity|].
  apply filename_is_component in Hf as (Hs & Hne & Hdot).
  apply lookup_insert_ne. intros <-. apply Hp. by exists fname.
Qed.

Lemma download_loop_files url out_dir session max_retries timeout attempts :
  forall w r w',
    download_loop url out_dir session max_retries timeout attempts w = (r, w') ->
    (forall p content, w_files w !! p = Some content -> content <> [] ->
                       w_files w' !! p = Some content) /\
    (forall p, ~ directly_under out_dir p -> w_files w' !! p = w_files w !! p) /\
    w_dirs w' = w_dirs w.
Proof.
  induction attempts as [|n later IH]; intros w r w' Hl; simpl in Hl.
  - injection Hl as <- <-. auto.
  - destruct (attempt url out_dir session timeout w) as [[out_path|msg] w1] eqn:Ha.
    + injection Hl as <- <-. split; [|split].
      * intros p c. by eapply attempt_keeps_nonempty.
      * intros p. by eapply attempt_frame.
      * by apply attempt_logs in Ha as (_ & _ & _ & ?).
    + assert (Hstep : forall w2, w_files w2 = w_files w1 -> w_dirs w2 = w_dirs w1 ->
        download_loop url out_dir session max_retries timeout later w2 = (r, w') ->
        (forall p content, w_files w !! p = Some content -> content <> [] ->
                           w_files w' !! p = Some content) /\
        (forall p, ~ directly_under out_dir p -> w_files w' !! p = w_files w !! p) /\
        w_dirs w' = w_dirs w).
      { intros w2 Hf2 Hd2 Hl2. apply IH in Hl2 as (Hk & Hfr & Hd). split; [|split].
        - intros p c Hp Hc. apply Hk; [|exact Hc]. rewrite Hf2.
          by eapply attempt_keeps_nonempty.
        - intros p Hp. rewrite (Hfr p Hp), Hf2. by eapply attempt_frame.
        - rewrite Hd, Hd2. by apply attempt_logs in Ha as (_ & _ & _ & ?). }
      destruct (n <? max_retries)%Z; eapply Hstep; try exact Hl; reflexivity.
Qed.

(** Frame of [download]: a non-empty file keeps its contents, and only files
    directly under [out_dir] change. *)
Lemma download_files url out_dir session max_retries timeout w r w' :
  download url out_dir session max_retries timeout w = Ok r w' ->
  (forall p content, w_files w !! p = Some content -> content <> [] ->
                     w_files w' !! p = Some content) /\
  (forall p, ~ directly_under out_dir p -> w_files w' !! p = w_files w !! p).
Proof.
  unfold download. destruct (mkdir_error out_dir w); [discriminate|].
  destruct (download_loop _ _ _ _ _ _ _) as [r1 w1] eqn:Hl. intros [= <- <-].
  apply download_loop_files in Hl as (Hk & Hfr & _). auto.
Qed.

End DownloadFacts.

Section RetryFacts.
Context `{PyLib}.

Lemma attempt_get_raises url out_dir session timeout w msg :
  session (length (w_gets w)) url timeout = GetRaises msg ->
  attempt url out_dir session timeout w = (inr msg, log_get url w).
Proof. unfold attempt. intros ->. reflexivity. Qed.

Lemma attempt_retryable url out_dir session timeout w resp :
  session (length (w_gets w)) url timeout = GetReturns resp ->
  status_code resp ∈ RETRYABLE ->
  attempt url out_dir session timeout w = (inr (retryable_msg resp), log_get url w).
Proof.
  unfold attempt. intros -> Hs. rewrite bool_decide_eq_true_2 by exact Hs. reflexivity.
Qed.

Lemma attempt_cached url out_dir session timeout w resp fname :
  session (length (w_gets w)) url timeout = GetReturns resp ->
  passes_status resp ->
  safe_filename_from_url url (Some (default [] (content_type resp))) = Some fname ->
  exists_error (joinpath out_dir fname) = None ->
  nonempty_file (joinpath out_dir fname) w ->
  attempt url out_dir session timeout w = (inl (joinpath out_dir fname), log_get url w).
Proof.
  unfold attempt. intros -> Hp Hf Hx He.
  destruct (passes_status_checks url resp Hp) as [Hs Hr].
  rewrite Hs, Hr, Hf, Hx.
  change (exists_nonempty ?p (log_get url w)) with (exists_nonempty p w).
  by rewrite (proj2 (exists_nonempty_true _ _) He).
Qed.

Lemma written_concat (chunks : list str) : written chunks = concat chunks.
Proof.
  induction chunks as [|c rest IH]; [reflexivity|]. cbn [written concat].
  destruct c as [|a c]; [exact IH|].
  rewrite (proj2 (truthy_true (a :: c))) by discriminate. by rewrite IH.
Qed.

Lemma attempt_writes url out_dir session timeout w resp fname :
  session (length (w_gets w)) url timeout = GetReturns resp ->
  passes_status resp ->
  safe_filename_from_url url (Some (default [] (content_type resp))) = Some fname ->
  exists_error (joinpath out_dir fname) = None ->
  open_error (joinpath out_dir fname) = None ->
  ~ nonempty_file (joinpath out_dir fname) w ->
  attempt url out_dir session timeout w =
  (match body_error resp with
   | Some msg => inr msg
   | None => inl (joinpath out_dir fname)
   end,
   write_file (joinpath out_dir fname) (concat (body resp)) (log_get url w)).
Proof.
  unfold attempt. intros -> Hp Hf Hx Ho He.
  destruct (passes_status_checks url resp Hp) as [Hs Hr].
  rewrite Hs, Hr, Hf, Hx, Ho.
  change (exists_nonempty ?p (log_get url w)) with (exists_nonempty p w).
  rewrite (proj2 (exists_nonempty_false _ _) He), written_concat.
  destruct (body_error resp); reflexivity.
Qed.

(** A file that cannot be opened fails the attempt. *)
Lemma attempt_open_fails url out_dir session timeout w resp fname msg :
  session (length (w_gets w)) url timeout = GetReturns resp ->
  passes_status resp ->
  safe_filename_from_url url (Some (default [] (content_type resp))) = Some fname ->
  exists_error (joinpath out_dir fname) = None ->
  open_error (joinpath out_dir fname) = Some msg ->
  ~ nonempty_file (joinpath out_dir fname) w ->
  attempt url out_dir session timeout w = (inr msg, log_get url w).
Proof.
  unfold attempt. intros -> Hp Hf Hx Ho He.
  destruct (passes_status_checks url resp Hp) as [Hs Hr].
  rewrite Hs, Hr, Hf, Hx, Ho.
  change (exists_nonempty ?p (log_get url w)) with (exists_nonempty p w).
  by rewrite (proj2 (exists_nonempty_false _ _) He).
Qed.


Lemma delays_S a n : delays a (S n) = delays (a + 1) n ++ [(a + 1)%Z].
Proof.
  unfold delays. rewrite seqZ_cons by lia.
  replace (Z.pred (Z.of_nat (S n))) with (Z.of_nat n) by lia.
  replace (Z.succ a) with (a + 1)%Z by lia. reflexivity.
Qed.

(** The loop over the attempts [a], ..., [max_retries]: the requests made,
    the delays slept and the warning written, with the failure of the last
    attempt as its message. *)
Lemma download_loop_effects url out_dir session max_retries timeout :
  forall len a w r w',
    (a + Z.of_nat len = max_retries + 1)%Z ->
    download_loop url out_dir session max_retries timeout (seqZ a (Z.of_nat len)) w
      = (r, w') ->
    exists n, n <= len /\ w_gets w' = repeat url n ++ w_gets w /\
      w_slept w' = delays a (n - 1) ++ w_slept w /\
      match r with
      | Some _ => 1 <= n /\ w_stderr w' = w_stderr w
      | None =>
          n = len /\
          (len = 0 -> w_stderr w' = w_stderr w) /\
          (0 < len -> exists w_last msg w_after,
             attempt url out_dir session timeout w_last = (inr msg, w_after) /\
             w_gets w_last = repeat url (len - 1) ++ w_gets w /\
             w_stderr w' = warning url msg :: w_stderr w)
      end.
Proof.
  induction len as [|len IH]; intros a w r w' Ha Hl.
  - simpl in Hl. injection Hl as <- <-. exists 0. repeat split; auto. lia.
  - rewrite seqZ_cons in Hl by lia.
    replace (Z.pred (Z.of_nat (S len))) with (Z.of_nat len) in Hl by lia.
    replace (Z.succ a) with (a + 1)%Z in Hl by lia.
    cbn [download_loop] in Hl.
    destruct (attempt url out_dir session timeout w) as [[out_path|msg] w1] eqn:Hat.
    + injection Hl as <- <-. apply attempt_logs in Hat as (Hg & Hs & He & _).
      exists 1. repeat split; auto; lia.
    + pose proof Hat as Hat0. apply attempt_logs in Hat as (Hg & Hs & He & _).
      destruct (a <? max_retries)%Z eqn:Hlt.
      * apply Z.ltb_lt in Hlt. destruct len as [|len']; [lia|].
        apply IH in Hl as (n & Hn & Hg' & Hs' & Hr); [|lia].
        assert (1 <= n) as Hn1.
        { destruct r; [apply Hr|]. destruct Hr as [-> _]. lia. }
        exists (S n). split; [lia|]. split; [|split].
        -- rewrite Hg'. cbn [sleep w_gets]. rewrite Hg.
           change (repeat url (S n)) with (url :: repeat url n).
           rewrite repeat_cons, <- app_assoc. reflexivity.
        -- rewrite Hs'. cbn [sleep w_slept]. rewrite Hs.
           replace (S n - 1) with (S (n - 1)) by lia.
           rewrite delays_S, <- app_assoc. reflexivity.
        -- destruct r.
           ++ split; [lia|]. destruct Hr as [_ ->]. cbn [sleep w_stderr]. exact He.
           ++ destruct Hr as (-> & _ & Hw). split; [reflexivity|]. split; [lia|].
              intros _. destruct Hw as (w_last & m & w_after & Hlast & Hgl & ->); [lia|].
              exists w_last, m, w_after. split; [exact Hlast|]. split.
              ** rewrite Hgl. cbn [sleep w_gets]. rewrite Hg.
                 replace (S (S len') - 1) with (S (S len' - 1)) by lia.
                 change (repeat url (S (S len' - 1)))
                   with (url :: repeat url (S len' - 1)).
                 rewrite repeat_cons, <- app_assoc. reflexivity.
              ** cbn [sleep w_stderr]. by rewrite He.
      * apply Z.ltb_ge in Hlt. destruct len as [|len']; [|lia].
        simpl in Hl. injection Hl as <- <-. exists 1.
        split; [lia|]. split; [|split].
        -- cbn [stderr_write w_gets]. rewrite Hg. reflexivity.
        -- cbn [stderr_write w_slept]. rewrite Hs. reflexivity.
        -- split; [reflexivity|]. split; [lia|]. intros _. exists w, msg, w1.
           split; [exact Hat0|]. split; [reflexivity|].
           cbn [stderr_write w_stderr]. by rewrite He.
Qed.

Lemma delays_shift n :
  forall a, map (fun j => j + 1)%Z (seqZ a (Z.of_nat n)) = seqZ (a + 1) (Z.of_nat n).
Proof.
  induction n as [|n IH]; intros a; [reflexivity|].
  rewrite (seqZ_cons a (Z.of_nat (S n))), (seqZ_cons (a + 1) (Z.of_nat (S n))) by lia.
  replace (Z.pred (Z.of_nat (S n))) with (Z.of_nat n) by lia.
  cbn [map]. f_equal. replace (Z.succ a) with (a + 1)%Z by lia.
  replace (Z.succ (a + 1)) with (a + 1 + 1)%Z by lia. apply IH.
Qed.

Lemma download_loop_all_fail url out_dir session max_retries timeout attempts :
  (forall i t, exists resp, session i url t = GetReturns resp /\
                           (400 <= status_code resp < 600)%Z) ->
  forall w, fst (download_loop url out_dir session max_retries timeout attempts w) = None.
Proof.
  intros Hall. induction attempts as [|a later IH]; intros w; [reflexivity|].
  cbn [download_loop]. destruct (Hall (length (w_gets w)) timeout) as (resp & Hs & Hr).
  destruct (error_status_fails url out_dir session timeout w resp Hs Hr) as [msg ->].
  destruct (a <? max_retries)%Z; apply IH.
Qed.

Lemma download_unfold url out_dir session max_retries timeout w :
  mkdir_error out_dir w = None ->
  download url out_dir session max_retries timeout w =
  Ok (fst (download_loop url out_dir session max_retries timeout
             (seqZ 0 (max_retries + 1)) (mkdir out_dir w)))
     (snd (download_loop url out_dir session max_retries timeout
             (seqZ 0 (max_retries + 1)) (mkdir out_dir w))).
Proof.
  intros Hd. unfold download. rewrite Hd. by destruct (download_loop _ _ _ _ _ _ _).
Qed.

(** A call whose directory cannot be made raises and leaves the world as it
    was; any other call returns. *)
Lemma download_raises url out_dir session max_retries timeout w e w' :
  download url out_dir session max_retries timeout w = Raise e w' ->
  mkdir_error out_dir w = Some e /\ w' = w.
Proof.
  unfold download. destruct (mkdir_error out_dir w) as [e0|].
  - by intros [= <- <-].
  - by destruct (download_loop _ _ _ _ _ _ _).
Qed.

(** The frame of a call, whether it returns or raises. *)
Lemma download_final_files url out_dir session max_retries timeout w :
  let w' := final_state (download url out_dir session max_retries timeout w) in
  (forall p content, w_files w !! p = Some content -> content <> [] ->
                     w_files w' !! p = Some content) /\
  (forall p, ~ directly_under out_dir p -> w_files w' !! p = w_files w !! p).
Proof.
  cbn zeta.
  destruct (download url out_dir session max_retries timeout w) as [r w'|e w'] eqn:Hd.
  - exact (download_files _ _ _ _ _ _ _ _ Hd).
  - apply download_raises in Hd as [_ ->]. by split.
Qed.

End RetryFacts.

(** ** File names *)

Section Filename.
Context `{PyLib}.

(** C4 (amended).  For every URL that [urlparse] accepts, the derived file
    name is stem, underscore, fingerprint, extension: the fingerprint is the
    first ten hexadecimal digits of the SHA-1 of the whole URL; the stem is
    [image] when the last path segment is empty; the extension is that of the
    segment when it has one, else the one guessed from the content type's
    first token, else [.bin].  Two URLs with the same last segment get the
    same file name for a content type exactly when their fingerprints are
    equal (so distinct names follow from distinct fingerprints only). *)
Theorem filename_derivation (url : str) (ct : option str) (parsed : ParseResult) :
  urlparse url = Some parsed ->
  let seg := basename (unquote (path parsed)) in
  let name := if truthy seg then seg else lit "image" in
  exists stem ext,
    safe_filename_from_url url ct = Some (stem ++ lit "_" ++ fingerprint url ++ ext) /\
    fingerprint url = take 10 (Sha1.hexdigest url) /\
    length (fingerprint url) = 10 /\ forallb is_hex (fingerprint url) = true /\
    stem ++ snd (splitext name) = name /\
    (seg = [] -> stem = lit "image") /\
    (snd (splitext name) <> [] -> ext = snd (splitext name)) /\
    (snd (splitext name) = [] ->
       forall c g, ct = Some c -> c <> [] ->
                   guess_extension (strip (before_first ";" c)) = Some g -> g <> [] ->
                   ext = g) /\
    (snd (splitext name) = [] ->
       ct = None \/ ct = Some [] \/
       (exists c, ct = Some c /\
                  (guess_extension (strip (before_first ";" c)) = None \/
                   guess_extension (strip (before_first ";" c)) = Some [])) ->
       ext = lit ".bin") /\
    (forall url2 parsed2,
       urlparse url2 = Some parsed2 ->
       basename (unquote (path parsed2)) = seg ->
       (safe_filename_from_url url2 ct = safe_filename_from_url url ct
        <-> fingerprint url2 = fingerprint url)).
Proof.
  intros Hp seg name.
  assert (Hname : name = segment_name parsed) by reflexivity.
  exists (fst (splitext name)), (chosen_ext (snd (splitext name)) ct).
  split; [rewrite Hname; by apply safe_filename_eq|].
  split; [reflexivity|]. split; [apply fingerprint_length|].
  split; [apply fingerprint_is_hex|].
  assert (Hns : mem slash name = false)
    by (rewrite Hname; apply segment_name_no_slash).
  split; [apply (splitext_name name Hns)|].
  split.
  { intros Hseg. subst name. rewrite Hseg. reflexivity. }
  split.
  { intros He. unfold chosen_ext. by rewrite (proj2 (truthy_true _) He). }
  split.
  { intros He c g -> Hc Hg Hgne. unfold chosen_ext.
    rewrite (proj2 (truthy_false _) He), (proj2 (truthy_true _) Hc), Hg,
      (proj2 (truthy_true _) Hgne). reflexivity. }
  split.
  { intros He Hct. unfold chosen_ext. rewrite (proj2 (truthy_false _) He).
    destruct Hct as [->|[->|(c & -> & Hg)]]; try reflexivity.
    destruct (truthy c); [|reflexivity].
    destruct Hg as [->| ->]; reflexivity. }
  intros url2 parsed2 Hp2 Hseg.
  rewrite (safe_filename_eq url2 ct parsed2 Hp2), (safe_filename_eq url ct parsed Hp).
  assert (Hsame : segment_name parsed2 = segment_name parsed)
    by (unfold segment_name; rewrite Hseg; reflexivity).
  rewrite Hsame. split.
  - intros [= Heq]. apply app_inv_head in Heq. injection Heq as Heq.
    by apply app_inv_tail in Heq.
  - intros ->. reflexivity.
Qed.

End Filename.

(** ** Retries and the files on disk *)

Section Fetcher.
Context `{PyLib}.

Lemma is_http_url_parsed url :
  is_http_url url = true -> exists parsed, urlparse url = Some parsed.
Proof. unfold is_http_url. destruct (urlparse url); [eauto|discriminate]. Qed.

(** When the fetch fails, each rewriter returns the match as it stands. *)
Lemma local_path_of_miss url out_dir session base st :
  cache st !! url = None ->
  local_path_of url out_dir session base st =
  match download url out_dir session 2 20 (world st) with
  | Raise e w => Raise e (MkRState w (cache st))
  | Ok None w => Ok None (MkRState w (cache st))
  | Ok (Some saved) w =>
      Ok (Some (relpath saved base))
         (MkRState w (<[url := relpath saved base]> (cache st)))
  end.
Proof. unfold local_path_of. intros ->. reflexivity. Qed.

(** C5 (amended).  A call of the fetcher with a retry budget
    [max_retries >= 0] whose destination directory can be made makes between
    one and [max_retries + 1] requests.  After the k-th failed attempt that is
    followed by another it calls [time.sleep(0.7 * k)]: the factors slept are
    1, 2, ..., one less than the number of requests.  When every attempt
    fails it returns failure and writes one line to the error stream, which
    reads [[WARN] download failed: ], the URL, [ -> ], the message of the last
    failure and a line feed; for a last response with status 429, 500, 502,
    503 or 504 the message is the status and the reason, for a request that
    raised it is the text of the error.  A call that returns a path writes
    nothing to the error stream.  A response with one of the five statuses
    is a failed attempt: if every response has one, the call fails.  A 503
    followed by a 200 whose body streams to the end, for a file name that the
    file system accepts, returns the path of the file after two requests and
    one sleep of factor 1; the file holds the body unless a non-empty file
    was there.  A rewriter whose fetch failed emits the reference as it
    matched it. *)
Theorem retry_policy (url out_dir : str) (session : Session)
    (max_retries timeout : Z) (w : World) :
  (0 <= max_retries)%Z ->
  mkdir_error out_dir w = None ->
  (exists r w' n,
     download url out_dir session max_retries timeout w = Ok r w' /\
     1 <= n <= Z.to_nat max_retries + 1 /\
     w_gets w' = repeat url n ++ w_gets w /\
     w_slept w' = rev (seqZ 1 (Z.of_nat (n - 1))) ++ w_slept w /\
     (r = None ->
      n = Z.to_nat max_retries + 1 /\
      exists msg,
        w_stderr w'
        = (lit "[WARN] download failed: " ++ url ++ lit " -> " ++ msg ++ [nl])
          :: w_stderr w /\
        (forall resp,
           session (length (w_gets w) + Z.to_nat max_retries) url timeout
             = GetReturns resp ->
           status_code resp ∈ [429; 500; 502; 503; 504]%Z ->
           msg = lit (pretty (status_code resp)) ++ lit " " ++ reason resp) /\
        (forall text,
           session (length (w_gets w) + Z.to_nat max_retries) url timeout
             = GetRaises text ->
           msg = text)) /\
     (is_Some r -> w_stderr w' = w_stderr w) /\
     ((forall i t, exists resp, session i url t = GetReturns resp /\
                               status_code resp ∈ [429; 500; 502; 503; 504]%Z) ->
      r = None) /\
     (forall r1 r2 fname,
        (1 <= max_retries)%Z ->
        session (length (w_gets w)) url timeout = GetReturns r1 ->
        status_code r1 = 503%Z ->
        session (S (length (w_gets w))) url timeout = GetReturns r2 ->
        status_code r2 = 200%Z -> body_error r2 = None ->
        safe_filename_from_url url (Some (default [] (content_type r2))) = Some fname ->
        exists_error (joinpath out_dir fname) = None ->
        open_error (joinpath out_dir fname) = None ->
        r = Some (joinpath out_dir fname) /\ n = 2 /\
        (nonempty_file (joinpath out_dir fname) w ->
         w_files w' !! joinpath out_dir fname = w_files w !! joinpath out_dir fname) /\
        (~ nonempty_file (joinpath out_dir fname) w ->
         w_files w' !! joinpath out_dir fname = Some (concat (body r2))))) /\
  (forall base m st w1,
     is_http_url url = true ->
     cache st !! url = None ->
     download url out_dir session 2 20 (world st) = Ok None w1 ->
     (default [] (group m g_url) = url ->
      repl_inline out_dir session base m st = Ok (m_group0 m) (MkRState w1 (cache st)) /\
      repl_def out_dir session base m st = Ok (m_group0 m) (MkRState w1 (cache st))) /\
     (default [] (group m g_src) = url ->
      repl_html out_dir session base m st = Ok (m_group0 m) (MkRState w1 (cache st)))).
Proof.
  intros Hmax Hdir. split.
  - rewrite (download_unfold _ _ _ _ _ _ Hdir).
    destruct (download_loop _ _ _ _ _ _ _) as [r w'] eqn:Hl. cbn [fst snd].
    assert (Hall := download_loop_all_fail url out_dir session max_retries timeout
                      (seqZ 0 (max_retries + 1))).
    pose proof Hl as Hl0.
    replace (max_retries + 1)%Z with (Z.of_nat (Z.to_nat max_retries + 1)) in Hl by lia.
    apply download_loop_effects in Hl as (n & Hn & Hg & Hs & Hr); [|lia].
    exists r, w', n. split; [reflexivity|].
    assert (1 <= n) as Hn1.
    { destruct r; [apply Hr|]. destruct Hr as [-> _]. lia. }
    split; [lia|]. split; [exact Hg|]. split.
    { rewrite Hs. unfold delays. by rewrite delays_shift. }
    split.
    { intros ->. destruct Hr as (-> & _ & Hw). split; [reflexivity|].
      destruct Hw as (w_last & msg & w_after & Hlast & Hgl & Herr); [lia|].
      exists msg. split; [exact Herr|].
      assert (Hidx : length (w_gets w_last) = length (w_gets w) + Z.to_nat max_retries).
      { rewrite Hgl, length_app, repeat_length. cbn [mkdir w_gets]. lia. }
      rewrite <- Hidx. split.
      - intros resp Hresp Hcode.
        rewrite (attempt_retryable _ _ _ _ _ _ Hresp Hcode) in Hlast.
        by injection Hlast as <- _.
      - intros text Hraise.
        rewrite (attempt_get_raises _ _ _ _ _ _ Hraise) in Hlast.
        by injection Hlast as <- _. }
    split.
    { intros [p ->]. apply Hr. }
    split.
    { intros Hfail.
      assert (Hfail' : forall i t, exists resp, session i url t = GetReturns resp /\
                                               (400 <= status_code resp < 600)%Z).
      { intros i t. destruct (Hfail i t) as (resp & Hresp & Hcode). exists resp.
        split; [exact Hresp|]. rewrite !elem_of_cons, elem_of_nil in Hcode. lia. }
      specialize (Hall Hfail' (mkdir out_dir w)). by rewrite Hl0 in Hall. }
    intros r1 r2 fname Hm1 Hs1 Hc1 Hs2 Hc2 Hb2 Hf Hx Ho.
    rewrite seqZ_cons in Hl0 by lia. rewrite seqZ_cons in Hl0 by lia.
    cbn [download_loop] in Hl0.
    rewrite (attempt_retryable url out_dir session timeout (mkdir out_dir w) r1) in Hl0;
      [|exact Hs1|rewrite Hc1; by apply (bool_decide_unpack _)].
    replace (0 <? max_retries)%Z with true in Hl0 by (symmetry; apply Z.ltb_lt; lia).
    set (w2 := sleep (0 + 1) (log_get url (mkdir out_dir w))) in Hl0.
    assert (Hp2 : passes_status r2) by (unfold passes_status; rewrite Hc2; lia).
    assert (Hn2 : r = Some (joinpath out_dir fname) -> n = 2).
    { intros ->. destruct Hr as [_ Herr].
      destruct (nonempty_file_cases (joinpath out_dir fname) w2) as [He|He].
      - rewrite (attempt_cached url out_dir session timeout w2 r2 fname) in Hl0;
          [|exact Hs2|exact Hp2|exact Hf|exact Hx|exact He].
        injection Hl0 as <-. apply (f_equal length) in Hg.
        rewrite length_app, repeat_length in Hg. simpl in Hg. lia.
      - rewrite (attempt_writes url out_dir session timeout w2 r2 fname) in Hl0;
          [|exact Hs2|exact Hp2|exact Hf|exact Hx|exact Ho|exact He].
        rewrite Hb2 in Hl0. injection Hl0 as <-. apply (f_equal length) in Hg.
        rewrite length_app, repeat_length in Hg. simpl in Hg. lia. }
    destruct (nonempty_file_cases (joinpath out_dir fname) w2) as [He|He].
    + rewrite (attempt_cached url out_dir session timeout w2 r2 fname) in Hl0;
        [|exact Hs2|exact Hp2|exact Hf|exact Hx|exact He].
      injection Hl0 as <- <-. split; [reflexivity|]. split; [by apply Hn2|].
      split; [reflexivity|]. intros Hne. by destruct Hne.
    + rewrite (attempt_writes url out_dir session timeout w2 r2 fname) in Hl0;
        [|exact Hs2|exact Hp2|exact Hf|exact Hx|exact Ho|exact He].
      rewrite Hb2 in Hl0. injection Hl0 as <- <-. split; [reflexivity|].
      split; [by apply Hn2|]. split; [intros Hne; by destruct He|].
      intros _. unfold write_file. cbn [w_files]. apply lookup_insert_eq.
  - intros base m st w1 Hu Hc Hd.
    split; intros Hm; [split|]; unfold repl_inline, repl_def, repl_html;
      rewrite Hm, Hu; cbn [negb]; unfold bind;
      rewrite (local_path_of_miss _ _ _ _ _ Hc), Hd; reflexivity.
Qed.

(** C6 (amended).  Whatever a call of the fetcher does, whether it returns
    or raises, a file that was there with non-zero size keeps its contents,
    and no file changes but those directly under the destination directory.
    An attempt makes its request first.  When the response gets past the
    status checks (its status is no client or server error) and a non-empty
    file of the name derived from the URL and the response's content type is
    there, the attempt returns that path and writes nothing; so a call whose
    first response does returns the path after one request with every file
    as it was.  When every response is a client or server error, the call
    returns failure, whether or not the file is there. *)
Theorem existing_file_kept (url out_dir : str) (session : Session)
    (max_retries timeout : Z) (w : World) :
  let w' := final_state (download url out_dir session max_retries timeout w) in
  (forall p content, w_files w !! p = Some content -> content <> [] ->
                     w_files w' !! p = Some content) /\
  (forall p, ~ directly_under out_dir p -> w_files w' !! p = w_files w !! p) /\
  (forall w1 resp fname,
     session (length (w_gets w1)) url timeout = GetReturns resp ->
     ~ (400 <= status_code resp < 600)%Z ->
     safe_filename_from_url url (Some (default [] (content_type resp))) = Some fname ->
     exists_error (joinpath out_dir fname) = None ->
     (exists content, w_files w1 !! joinpath out_dir fname = Some content /\
                      content <> []) ->
     exists w2,
       attempt url out_dir session timeout w1 = (inl (joinpath out_dir fname), w2) /\
       w_files w2 = w_files w1 /\ w_gets w2 = url :: w_gets w1) /\
  (forall resp fname,
     (0 <= max_retries)%Z -> mkdir_error out_dir w = None ->
     session (length (w_gets w)) url timeout = GetReturns resp ->
     ~ (400 <= status_code resp < 600)%Z ->
     safe_filename_from_url url (Some (default [] (content_type resp))) = Some fname ->
     exists_error (joinpath out_dir fname) = None ->
     (exists content, w_files w !! joinpath out_dir fname = Some content /\
                      content <> []) ->
     exists w1,
       download url out_dir session max_retries timeout w
         = Ok (Some (joinpath out_dir fname)) w1 /\
       w_files w1 = w_files w /\ w_gets w1 = url :: w_gets w /\
       w_slept w1 = w_slept w /\ w_stderr w1 = w_stderr w) /\
  ((0 <= max_retries)%Z -> mkdir_error out_dir w = None ->
   (forall i t, exists resp, session i url t = GetReturns resp /\
                             (400 <= status_code resp < 600)%Z) ->
   exists w1,
     download url out_dir session max_retries timeout w = Ok None w1 /\
     w_files w1 = w_files w).
Proof.
  cbn zeta.
  destruct (download_final_files url out_dir session max_retries timeout w)
    as [Hkeep Hframe].
  split; [exact Hkeep|]. split; [exact Hframe|]. split; [|split].
  - intros w1 resp fname Hs Hp Hf Hx He. exists (log_get url w1).
    split; [by apply (attempt_cached _ _ _ _ _ resp)|]. by split.
  - intros resp fname Hmax Hdir Hs Hp Hf Hx He.
    unfold download. rewrite Hdir. rewrite seqZ_cons by lia. cbn [download_loop].
    rewrite (attempt_cached url out_dir session timeout (mkdir out_dir w) resp fname);
      [|exact Hs|exact Hp|exact Hf|exact Hx|exact He].
    eexists. split; [reflexivity|]. repeat split.
  - intros Hmax Hdir Hfail.
    rewrite (download_unfold _ _ _ _ _ _ Hdir).
    rewrite (download_loop_all_fail url out_dir session max_retries timeout
               (seqZ 0 (max_retries + 1)) Hfail).
    eexists. split; [reflexivity|].
    assert (Hfiles : forall attempts w0,
              w_files (snd (download_loop url out_dir session max_retries timeout
                              attempts w0)) = w_files w0).
    { induction attempts as [|a later IH]; intros w0; [reflexivity|].
      cbn [download_loop]. destruct (Hfail (length (w_gets w0)) timeout) as (resp & Hs & Hr).
      destruct (error_status_fails url out_dir session timeout w0 resp Hs Hr) as [msg ->].
      destruct (a <? max_retries)%Z; by rewrite IH. }
    by rewrite Hfiles.
Qed.

(** C10 (amended).  An attempt whose response gets past the status checks
    and whose body breaks off after some chunks leaves those chunks in the
    file.  When they are not empty, a later attempt for the URL returns the
    path and writes nothing if its response gets past the status checks and
    derives the same file name: the next retry inside the same call does
    then, and so does a later call; a call without retries returns failure
    and the partial file stays.  An attempt whose response is a client or
    server error fails although the partial file is there, and the file
    stays as it is. *)
Theorem partial_file_kept (url out_dir : str) (session : Session) (timeout : Z)
    (w : World) (resp : Response) (fname msg : str) :
  session (length (w_gets w)) url timeout = GetReturns resp ->
  ~ (400 <= status_code resp < 600)%Z ->
  safe_filename_from_url url (Some (default [] (content_type resp))) = Some fname ->
  exists_error (joinpath out_dir fname) = None ->
  open_error (joinpath out_dir fname) = None ->
  ~ (exists content, w_files w !! joinpath out_dir fname = Some content /\ content <> []) ->
  body_error resp = Some msg ->
  concat (body resp) <> [] ->
  let out_path := joinpath out_dir fname in
  let partial := concat (body resp) in
  (exists w1,
     attempt url out_dir session timeout w = (inr msg, w1) /\
     w_files w1 = <[out_path := partial]> (w_files w) /\ w_gets w1 = url :: w_gets w) /\
  (forall w2 resp2,
     w_files w2 !! out_path = Some partial ->
     session (length (w_gets w2)) url timeout = GetReturns resp2 ->
     ~ (400 <= status_code resp2 < 600)%Z ->
     safe_filename_from_url url (Some (default [] (content_type resp2))) = Some fname ->
     exists w3,
       attempt url out_dir session timeout w2 = (inl out_path, w3) /\
       w_files w3 = w_files w2 /\ w_gets w3 = url :: w_gets w2) /\
  (forall w2 resp2,
     w_files w2 !! out_path = Some partial ->
     session (length (w_gets w2)) url timeout = GetReturns resp2 ->
     (400 <= status_code resp2 < 600)%Z ->
     exists text w3,
       attempt url out_dir session timeout w2 = (inr text, w3) /\
       w_files w3 = w_files w2) /\
  (forall max_retries resp2,
     (1 <= max_retries)%Z ->
     mkdir_error out_dir w = None ->
     session (S (length (w_gets w))) url timeout = GetReturns resp2 ->
     ~ (400 <= status_code resp2 < 600)%Z ->
     safe_filename_from_url url (Some (default [] (content_type resp2))) = Some fname ->
     exists w',
       download url out_dir session max_retries timeout w = Ok (Some out_path) w' /\
       w_files w' !! out_path = Some partial /\
       w_gets w' = url :: url :: w_gets w) /\
  (forall max_retries w2 resp2,
     (0 <= max_retries)%Z ->
     mkdir_error out_dir w2 = None ->
     w_files w2 !! out_path = Some partial ->
     session (length (w_gets w2)) url timeout = GetReturns resp2 ->
     ~ (400 <= status_code resp2 < 600)%Z ->
     safe_filename_from_url url (Some (default [] (content_type resp2))) = Some fname ->
     exists w',
       download url out_dir session max_retries timeout w2 = Ok (Some out_path) w' /\
       w_files w' = w_files w2) /\
  (mkdir_error out_dir w = None ->
   exists w',
     download url out_dir session 0 timeout w = Ok None w' /\
     w_files w' !! out_path = Some partial).
Proof.
  intros Hs Hp Hf Hx Ho He Hb Hne out_path partial.
  assert (Hat : forall w0, w_files w0 = w_files w -> w_gets w0 = w_gets w ->
    attempt url out_dir session timeout w0
      = (inr msg, write_file out_path partial (log_get url w0))).
  { intros w0 Hf0 Hg0.
    rewrite (attempt_writes url out_dir session timeout w0 resp fname);
      [by rewrite Hb|by rewrite Hg0|exact Hp|exact Hf|exact Hx|exact Ho|].
    unfold nonempty_file. by rewrite Hf0. }
  assert (Hnext : forall w2 resp2,
     w_files w2 !! out_path = Some partial ->
     session (length (w_gets w2)) url timeout = GetReturns resp2 ->
     ~ (400 <= status_code resp2 < 600)%Z ->
     safe_filename_from_url url (Some (default [] (content_type resp2))) = Some fname ->
     attempt url out_dir session timeout w2 = (inl out_path, log_get url w2)).
  { intros w2 resp2 Hfile Hs2 Hp2 Hf2. apply (attempt_cached _ _ _ _ _ resp2);
      [exact Hs2|exact Hp2|exact Hf2|exact Hx|].
    by exists partial. }
  split; [|split; [|split; [|split; [|split]]]].
  - eexists. split; [by apply Hat|]. by split.
  - intros w2 resp2 Hfile Hs2 Hp2 Hf2. exists (log_get url w2).
    split; [by apply (Hnext w2 resp2)|]. by split.
  - intros w2 resp2 Hfile Hs2 Hp2.
    destruct (error_status_fails url out_dir session timeout w2 resp2 Hs2 Hp2) as [text Ha].
    exists text, (log_get url w2). by split.
  - intros max_retries resp2 Hmax Hdir Hs2 Hp2 Hf2.
    unfold download. rewrite Hdir. rewrite seqZ_cons by lia. rewrite seqZ_cons by lia.
    cbn [download_loop]. rewrite (Hat (mkdir out_dir w)) by reflexivity.
    replace (0 <? max_retries)%Z with true by (symmetry; apply Z.ltb_lt; lia).
    rewrite (Hnext _ resp2); [| |exact Hs2|exact Hp2|exact Hf2].
    + eexists. split; [reflexivity|]. split; [|reflexivity].
      cbn [w_files log_get sleep write_file]. apply lookup_insert_eq.
    + cbn [w_files log_get sleep write_file]. apply lookup_insert_eq.
  - intros max_retries w2 resp2 Hmax Hdir Hfile Hs2 Hp2 Hf2.
    unfold download. rewrite Hdir. rewrite seqZ_cons by lia. cbn [download_loop].
    rewrite (Hnext (mkdir out_dir w2) resp2); [|exact Hfile|exact Hs2|exact Hp2|exact Hf2].
    eexists. split; reflexivity.
  - intros Hdir. unfold download. rewrite Hdir.
    change (seqZ 0 (0 + 1)) with [0%Z]. cbn [download_loop].
    rewrite (Hat (mkdir out_dir w)) by reflexivity. cbn [download_loop Z.ltb Z.compare].
    eexists. split; [reflexivity|]. cbn [w_files stderr_write write_file].
    apply lookup_insert_eq.
Qed.

End Fetcher.

(** ** The rewriters *)

Section Rewriters.
Context `{PyLib}.

Lemma is_http_url_spec (s : str) :
  is_http_url s = true <->
  exists p, urlparse s = Some p /\ (scheme p = lit "http" \/ scheme p = lit "https").
Proof.
  unfold is_http_url. destruct (urlparse s) as [p|]; split.
  - intros Hs. apply bool_decide_eq_true in Hs. eauto.
  - intros (q & [= <-] & Hs). by apply bool_decide_eq_true.
  - discriminate.
  - intros (q & [=] & _).
Qed.

Lemma repl_inline_local out_dir session base m st :
  is_http_url (default [] (group m g_url)) = false ->
  repl_inline out_dir session base m st = Ok (m_group0 m) st.
Proof. unfold repl_inline. intros ->. reflexivity. Qed.

Lemma repl_def_local out_dir session base m st :
  is_http_url (default [] (group m g_url)) = false ->
  repl_def out_dir session base m st = Ok (m_group0 m) st.
Proof. unfold repl_def. intros ->. reflexivity. Qed.

Lemma repl_html_local out_dir session base m st :
  is_http_url (default [] (group m g_src)) = false ->
  repl_html out_dir session base m st = Ok (m_group0 m) st.
Proof. unfold repl_html. intros ->. reflexivity. Qed.

(** A scan in which every match is emitted as it stands returns the text. *)
Lemma sub_unchanged {S} ic r (repl : Match -> M S str) text st :
  Forall (fun m => repl m st = Ok (m_group0 m) st) (finditer ic r text) ->
  sub ic r repl text st = Ok text st.
Proof.
  intros Hall. unfold sub. rewrite sub_from_emit.
  unfold finditer in Hall. rewrite finditer_pieces in Hall.
  rewrite (emit_unchanged _ _ _ Hall), original_pieces. reflexivity.
Qed.

Lemma process_inline_local text out_dir session base st :
  remote_free MD_IMG_INLINE g_url text ->
  process_inline text out_dir session base st = Ok text st.
Proof.
  intros Hfree. apply sub_unchanged. eapply Forall_impl; [exact Hfree|].
  intros m. apply repl_inline_local.
Qed.

Lemma process_ref_local text out_dir session base st :
  remote_free MD_REF_DEF g_url text ->
  process_ref text out_dir session base st = Ok text st.
Proof.
  intros Hfree. apply sub_unchanged. eapply Forall_impl; [exact Hfree|].
  intros m. apply repl_def_local.
Qed.

Lemma process_html_local text out_dir session base st :
  remote_free HTML_IMG g_src text ->
  process_html text out_dir session base st = Ok text st.
Proof.
  intros Hfree. apply sub_unchanged. eapply Forall_impl; [exact Hfree|].
  intros m. apply repl_html_local.
Qed.

(** C3.  The classifier answers true exactly for the strings that
    [urlparse] accepts with scheme [http] or [https] (a parse error gives
    false); and a reference whose URL it does not classify as remote is
    emitted by each rewriter exactly as matched, with no effect: match by
    match, and hence for a whole text none of whose references is remote. *)
Theorem classifier_and_passthrough :
  (forall s : str,
     is_http_url s = true <->
     exists p, urlparse s = Some p /\ (scheme p = lit "http" \/ scheme p = lit "https")) /\
  (forall s : str, urlparse s = None -> is_http_url s = false) /\
  (forall out_dir session base m st,
     (is_http_url (default [] (group m g_url)) = false ->
      repl_inline out_dir session base m st = Ok (m_group0 m) st /\
      repl_def out_dir session base m st = Ok (m_group0 m) st) /\
     (is_http_url (default [] (group m g_src)) = false ->
      repl_html out_dir session base m st = Ok (m_group0 m) st)) /\
  (forall text out_dir session base st,
     (remote_free MD_IMG_INLINE g_url text ->
      process_inline text out_dir session base st = Ok text st) /\
     (remote_free MD_REF_DEF g_url text ->
      process_ref text out_dir session base st = Ok text st) /\
     (remote_free HTML_IMG g_src text ->
      process_html text out_dir session base st = Ok text st)).
Proof.
  split; [exact is_http_url_spec|]. split.
  { intros s Hs. unfold is_http_url. by rewrite Hs. }
  split.
  - intros out_dir session base m st. split.
    + intros Hm. split; [by apply repl_inline_local|by apply repl_def_local].
    + apply repl_html_local.
  - intros text out_dir session base st. split; [|split].
    + apply process_inline_local.
    + apply process_ref_local.
    + apply process_html_local.
Qed.

(** ** Invariants of a pass *)

(** The rewriters change the state through [local_path_of] only. *)
Lemma repl_invariant (P : RState -> Prop) out_dir session base :
  (forall url st, is_http_url url = true -> P st ->
                  P (final_state (local_path_of url out_dir session base st))) ->
  forall m st, P st ->
    P (final_state (repl_inline out_dir session base m st)) /\
    P (final_state (repl_def out_dir session base m st)) /\
    P (final_state (repl_html out_dir session base m st)).
Proof.
  intros Hloc m st Hst.
  unfold repl_inline, repl_def, repl_html.
  repeat split.
  - destruct (is_http_url _) eqn:Hu; [|exact Hst]. cbn [negb]. unfold bind.
    specialize (Hloc _ st Hu Hst).
    destruct (local_path_of _ _ _ _ st) as [[p|] st1|e st1]; [|exact Hloc..].
    destruct (group m g_title) as [[|c t]|]; exact Hloc.
  - destruct (is_http_url _) eqn:Hu; [|exact Hst]. cbn [negb]. unfold bind.
    specialize (Hloc _ st Hu Hst).
    destruct (local_path_of _ _ _ _ st) as [[p|] st1|e st1]; [|exact Hloc..].
    destruct (group m g_title) as [[|c t]|]; exact Hloc.
  - destruct (is_http_url _) eqn:Hu; [|exact Hst]. cbn [negb]. unfold bind.
    specialize (Hloc _ st Hu Hst).
    destruct (local_path_of _ _ _ _ st) as [[p|] st1|e st1]; [|exact Hloc..].
    destruct (sub_template_once _ _ _ _ _); exact Hloc.
Qed.

Lemma rewrite_all_invariant (P : RState -> Prop) text out_dir session base :
  (forall url st, is_http_url url = true -> P st ->
                  P (final_state (local_path_of url out_dir session base st))) ->
  forall st, P st -> P (final_state (rewrite_all text out_dir session base st)).
Proof.
  intros Hloc st Hst.
  assert (Hsub : forall r (repl : Match -> M RState str),
            (forall m st, P st -> P (final_state (repl m st))) ->
            forall text st, P st -> P (final_state (sub true r repl text st))).
  { intros r repl Hrepl text0 st0 Hst0. unfold sub. rewrite sub_from_emit.
    by apply emit_invariant. }
  unfold rewrite_all, bind, process_inline, process_ref, process_html.
  pose proof (Hsub MD_IMG_INLINE (repl_inline out_dir session base)
                (fun m st Hs => proj1 (repl_invariant P _ _ _ Hloc m st Hs)) text st Hst) as H1.
  destruct (sub true MD_IMG_INLINE _ text st) as [text1 st1|e st1]; [|exact H1].
  pose proof (Hsub MD_REF_DEF (repl_def out_dir session base)
                (fun m st Hs => proj1 (proj2 (repl_invariant P _ _ _ Hloc m st Hs)))
                text1 st1 H1) as H2.
  destruct (sub true MD_REF_DEF _ text1 st1) as [text2 st2|e st2]; [|exact H2].
  exact (Hsub HTML_IMG (repl_html out_dir session base)
           (fun m st Hs => proj2 (proj2 (repl_invariant P _ _ _ Hloc m st Hs)))
           text2 st2 H2).
Qed.

End Rewriters.

(** ** The cache *)

Section Cache.
Context `{PyLib}.

Lemma download_loop_gets url out_dir session max_retries timeout attempts :
  forall w, exists n,
    w_gets (snd (download_loop url out_dir session max_retries timeout attempts w))
    = repeat url n ++ w_gets w.
Proof.
  induction attempts as [|a later IH]; intros w; [by exists 0|].
  cbn [download_loop].
  destruct (attempt url out_dir session timeout w) as [[p|msg] w1] eqn:Ha;
    apply attempt_logs in Ha as (Hg & _).
  - exists 1. cbn [snd]. by rewrite Hg.
  - assert (Hstep : forall w2, w_gets w2 = w_gets w1 -> exists n,
      w_gets (snd (download_loop url out_dir session max_retries timeout later w2))
      = repeat url n ++ w_gets w).
    { intros w2 Hg2. destruct (IH w2) as [n Hn]. exists (S n).
      rewrite Hn, Hg2, Hg. change (repeat url (S n)) with (url :: repeat url n).
      rewrite repeat_cons, <- app_assoc. reflexivity. }
    destruct (a <? max_retries)%Z; by apply Hstep.
Qed.

(** What a call of [download] does to the request log; an error leaves the
    world as it was. *)
Lemma download_gets url out_dir session max_retries timeout w :
  match download url out_dir session max_retries timeout w with
  | Ok _ w' => exists n, w_gets w' = repeat url n ++ w_gets w
  | Raise _ w' => w' = w
  end.
Proof.
  unfold download. destruct (mkdir_error out_dir w); [reflexivity|].
  destruct (download_loop_gets url out_dir session max_retries timeout
              (seqZ 0 (max_retries + 1)) (mkdir out_dir w)) as [n Hn].
  destruct (download_loop _ _ _ _ _ _ _) as [r w1]. exists n. exact Hn.
Qed.

Lemma gets_of_other url url0 n w w' :
  url0 <> url -> w_gets w' = repeat url0 n ++ w_gets w ->
  gets_of url w' = gets_of url w.
Proof.
  intros Hne Hg. unfold gets_of. rewrite Hg, filter_app. clear Hg.
  assert (filter (fun u => u = url) (repeat url0 n) = []) as ->; [|reflexivity].
  induction n as [|n IH]; [reflexivity|]. cbn [repeat].
  rewrite filter_cons_False by exact Hne. exact IH.
Qed.

Lemma gets_of_same url n w w' :
  w_gets w' = repeat url n ++ w_gets w -> gets_of url w' = n + gets_of url w.
Proof.
  intros Hg. unfold gets_of. rewrite Hg, filter_app, length_app. f_equal. clear Hg.
  induction n as [|n IH]; [reflexivity|]. cbn [repeat].
  rewrite filter_cons_True by reflexivity. simpl. by rewrite IH.
Qed.

Lemma local_path_of_hit url out_dir session base st p :
  cache st !! url = Some p ->
  local_path_of url out_dir session base st = Ok (Some p) st.
Proof. unfold local_path_of. intros ->. reflexivity. Qed.

Lemma local_path_of_caches url out_dir session base st r st1 :
  local_path_of url out_dir session base st = Ok r st1 ->
  match r with
  | Some p => cache st1 !! url = Some p
  | None => cache st1 = cache st
  end.
Proof.
  unfold local_path_of. destruct (cache st !! url) as [p|] eqn:Hc.
  - intros [= <- <-]. exact Hc.
  - destruct (download _ _ _ _ _ _) as [[saved|] w|e w]; intros [= <- <-];
      [apply lookup_insert_eq|reflexivity].
Qed.

(** Looking up another URL leaves a cached URL and its request count as
    they were. *)
Lemma local_path_of_other url p g url0 out_dir session base st :
  cache st !! url = Some p /\ gets_of url (world st) = g ->
  let st1 := final_state (local_path_of url0 out_dir session base st) in
  cache st1 !! url = Some p /\ gets_of url (world st1) = g.
Proof.
  intros [Hc Hg]. unfold local_path_of.
  destruct (cache st !! url0) as [p0|] eqn:Hc0; [by split|].
  assert (url0 <> url) as Hne by (intros ->; congruence).
  pose proof (download_gets url0 out_dir session 2 20 (world st)) as Hd.
  destruct (download _ _ _ _ _ _) as [[saved|] w|e w]; cbn [final_state world cache].
  - destruct Hd as [n Hn]. split; [by rewrite lookup_insert_ne|].
    by rewrite (gets_of_other _ _ _ _ _ Hne Hn).
  - destruct Hd as [n Hn]. split; [exact Hc|]. by rewrite (gets_of_other _ _ _ _ _ Hne Hn).
  - subst w. by split.
Qed.


Lemma download_served url out_dir session max_retries timeout w :
  always_served session url -> storable out_dir url -> is_http_url url = true ->
  (0 <= max_retries)%Z ->
  match download url out_dir session max_retries timeout w with
  | Ok r w' => is_Some r /\ w_gets w' = url :: w_gets w
  | Raise _ w' => w' = w
  end.
Proof.
  intros Hsrv Hsto Hu Hmax. unfold download. destruct (mkdir_error out_dir w); [reflexivity|].
  rewrite seqZ_cons by lia. cbn [download_loop].
  destruct (Hsrv (length (w_gets (mkdir out_dir w))) timeout) as (resp & Hs & Hp & Hb).
  destruct (is_http_url_parsed url Hu) as [parsed Hparsed].
  pose proof (safe_filename_eq url (Some (default [] (content_type resp))) parsed Hparsed)
    as Hf.
  destruct (Hsto _ _ Hf) as [Hx Ho].
  destruct (nonempty_file_cases (joinpath out_dir
              (fst (splitext (segment_name parsed)) ++ lit "_" ++ fingerprint url
               ++ chosen_ext (snd (splitext (segment_name parsed)))
                    (Some (default [] (content_type resp)))))
              (mkdir out_dir w)) as [He|He].
  - rewrite (attempt_cached _ _ _ _ _ _ _ Hs Hp Hf Hx He). split; [eauto|reflexivity].
  - rewrite (attempt_writes _ _ _ _ _ _ _ Hs Hp Hf Hx Ho He), Hb. split; [eauto|reflexivity].
Qed.

(** C2 (amended).  Within one pass a URL is requested only while it is
    absent from the cache.  A lookup of a cached URL makes no request and
    returns the cached path; a fetch that succeeds puts the URL in the cache
    and one that fails leaves the cache as it was (the URL is fetched again
    at its next occurrence); once a URL is cached, the three rewriters make
    no further request for it and never change its entry, whatever text they
    process, and every later occurrence is rewritten from the cached path: an
    inline image and a definition are built around it, an HTML tag is handed
    to the inner substitution with it.  The occurrence whose fetch succeeds
    is rewritten in the same way from the path that it puts in the cache.
    When the server answers every
    request for the URL with a response that gets past the status checks and
    streams to the end, and the file system accepts the file names derived
    for the URL, the whole pass makes at most one request for it. *)
Theorem cache_consistency (text out_dir : str) (session : Session) (base : str)
    (st : RState) (url : str) :
  (forall p, cache st !! url = Some p ->
     local_path_of url out_dir session base st = Ok (Some p) st) /\
  (forall r st1, local_path_of url out_dir session base st = Ok r st1 ->
     match r with
     | Some p => cache st1 !! url = Some p
     | None => cache st1 = cache st
     end) /\
  (forall p, cache st !! url = Some p ->
     let st' := final_state (rewrite_all text out_dir session base st) in
     cache st' !! url = Some p /\ gets_of url (world st') = gets_of url (world st)) /\
  (forall m p, cache st !! url = Some p -> is_http_url url = true ->
     (default [] (group m g_url) = url ->
      repl_inline out_dir session base m st =
        Ok (match group m g_title with
            | Some ((_ :: _) as title) =>
                lit "![" ++ default [] (group m g_alt) ++ lit "](" ++ p ++ lit " "
                ++ [dq] ++ title ++ [dq] ++ lit ")"
            | _ => lit "![" ++ default [] (group m g_alt) ++ lit "](" ++ p ++ lit ")"
            end) st /\
      repl_def out_dir session base m st =
        Ok (match group m g_title with
            | Some ((_ :: _) as title) =>
                lit "[" ++ default [] (group m g_id) ++ lit "]: " ++ p ++ lit " "
                ++ [dq] ++ title ++ [dq]
            | _ => lit "[" ++ default [] (group m g_id) ++ lit "]: " ++ p
            end) st) /\
     (default [] (group m g_src) = url ->
      repl_html out_dir session base m st =
        match sub_template_once false SRC_ATTR 1
                (lit "src=" ++ default [] (group m g_q) ++ p
                 ++ default [] (group m g_q)) (m_group0 m) with
        | Some new_tag => Ok new_tag st
        | None => Raise (ReError (lit "bad replacement template")) st
        end)) /\
  (forall m saved w1, cache st !! url = None -> is_http_url url = true ->
     download url out_dir session 2 20 (world st) = Ok (Some saved) w1 ->
     let p := relpath saved base in
     let st1 := MkRState w1 (<[url := p]> (cache st)) in
     cache st1 !! url = Some p /\
     (default [] (group m g_url) = url ->
      repl_inline out_dir session base m st =
        Ok (match group m g_title with
            | Some ((_ :: _) as title) =>
                lit "![" ++ default [] (group m g_alt) ++ lit "](" ++ p ++ lit " "
                ++ [dq] ++ title ++ [dq] ++ lit ")"
            | _ => lit "![" ++ default [] (group m g_alt) ++ lit "](" ++ p ++ lit ")"
            end) st1 /\
      repl_def out_dir session base m st =
        Ok (match group m g_title with
            | Some ((_ :: _) as title) =>
                lit "[" ++ default [] (group m g_id) ++ lit "]: " ++ p ++ lit " "
                ++ [dq] ++ title ++ [dq]
            | _ => lit "[" ++ default [] (group m g_id) ++ lit "]: " ++ p
            end) st1) /\
     (default [] (group m g_src) = url ->
      repl_html out_dir session base m st =
        match sub_template_once false SRC_ATTR 1
                (lit "src=" ++ default [] (group m g_q) ++ p
                 ++ default [] (group m g_q)) (m_group0 m) with
        | Some new_tag => Ok new_tag st1
        | None => Raise (ReError (lit "bad replacement template")) st1
        end)) /\
  (always_served session url -> storable out_dir url -> cache st !! url = None ->
     let st' := final_state (rewrite_all text out_dir session base st) in
     (cache st' !! url = None /\ gets_of url (world st') = gets_of url (world st)) \/
     (is_Some (cache st' !! url) /\
      gets_of url (world st') = 1 + gets_of url (world st))).
Proof.
  split; [intros p; apply local_path_of_hit|].
  split; [intros r st1; apply local_path_of_caches|].
  split.
  { intros p Hc.
    apply (rewrite_all_invariant
             (fun s => cache s !! url = Some p /\
                       gets_of url (world s) = gets_of url (world st))).
    - intros url0 s _ Hs. by apply local_path_of_other.
    - by split. }
  split.
  { intros m p Hc Hu. split.
    - intros Hm. unfold repl_inline, repl_def. rewrite Hm, Hu. cbn [negb]. unfold bind.
      rewrite (local_path_of_hit _ _ _ _ _ _ Hc).
      split; destruct (group m g_title) as [[|c t]|]; reflexivity.
    - intros Hm. unfold repl_html. rewrite Hm, Hu. cbn [negb]. unfold bind.
      rewrite (local_path_of_hit _ _ _ _ _ _ Hc). reflexivity. }
  split.
  { intros m saved w1 Hc Hu Hd. cbn zeta. split; [apply lookup_insert_eq|]. split.
    - intros Hm. unfold repl_inline, repl_def. rewrite Hm, Hu. cbn [negb]. unfold bind.
      rewrite (local_path_of_miss _ _ _ _ _ Hc), Hd.
      split; destruct (group m g_title) as [[|c t]|]; reflexivity.
    - intros Hm. unfold repl_html. rewrite Hm, Hu. cbn [negb]. unfold bind.
      rewrite (local_path_of_miss _ _ _ _ _ Hc), Hd. reflexivity. }
  intros Hsrv Hsto Hc.
  set (g := gets_of url (world st)).
  apply (rewrite_all_invariant
           (fun s => (cache s !! url = None /\ gets_of url (world s) = g) \/
                     (is_Some (cache s !! url) /\ gets_of url (world s) = 1 + g)));
    [|by left].
  intros url0 s Hu0 [[Hn Hg]|[[p Hp] Hg]].
  - unfold local_path_of. destruct (cache s !! url0) as [p0|] eqn:Hc0; [by left|].
    destruct (decide (url0 = url)) as [->|Hne].
    + pose proof (download_served url out_dir session 2 20 (world s) Hsrv Hsto Hu0
                    ltac:(lia)) as Hd.
      destruct (download _ _ _ _ _ _) as [[saved|] w|e w]; cbn [final_state world cache].
      * right. destruct Hd as [_ Hgets]. split; [rewrite lookup_insert_eq; eauto|].
        rewrite (gets_of_same url 1 (world s) w Hgets). by rewrite Hg.
      * destruct Hd as [[? [=]] _].
      * subst w. by left.
    + pose proof (download_gets url0 out_dir session 2 20 (world s)) as Hd.
      destruct (download _ _ _ _ _ _) as [[saved|] w|e w]; cbn [final_state world cache].
      * destruct Hd as [n Hgets]. left. split; [by rewrite lookup_insert_ne|].
        by rewrite (gets_of_other _ _ _ _ _ Hne Hgets).
      * destruct Hd as [n Hgets]. left. split; [exact Hn|].
        by rewrite (gets_of_other _ _ _ _ _ Hne Hgets).
      * subst w. by left.
  - right. destruct (local_path_of_other url p (1 + g) url0 out_dir session base s)
      as [Hc' Hg']; [by split|]. split; [eauto|exact Hg'].
Qed.

End Cache.

(** ** The shape of a rewritten reference *)

Section Shapes.
Context `{PyLib}.

(** C7 (amended).  For a matched inline image or reference definition whose
    URL is remote and whose fetch gives the local path [local], the matched
    text consists of the alt text (or the id), the URL, white space and an
    optional quoted title, and the rewriter emits the same construct with
    the alt text or id unchanged, [local] in place of the URL and a non-empty
    title unchanged.  The white space of the match is not copied: the output
    has one space before the title and, in a definition, one space after the
    colon and nothing after the URL or title.  The text outside the matches
    of the pattern is copied character by character, so a usage
    [![alt][id]] outside them stays as it is. *)
Theorem reference_rewriting (out_dir : str) (session : Session) (base : str) :
  (forall prev text m st st' local,
     match_at true MD_IMG_INLINE prev text = Some m ->
     is_http_url (default [] (group m g_url)) = true ->
     local_path_of (default [] (group m g_url)) out_dir session base st
       = Ok (Some local) st' ->
     exists alt url,
       group m g_alt = Some alt /\ group m g_url = Some url /\
       ((group m g_title = None /\
         m_group0 m = lit "![" ++ alt ++ lit "](" ++ url ++ lit ")" /\
         repl_inline out_dir session base m st
           = Ok (lit "![" ++ alt ++ lit "](" ++ local ++ lit ")") st') \/
        (exists ws title,
           group m g_title = Some title /\ ws <> [] /\
           Forall (fun a => is_space a = true) ws /\
           m_group0 m = lit "![" ++ alt ++ lit "](" ++ url ++ ws
                        ++ dq :: title ++ dq :: lit ")" /\
           (title <> [] ->
            repl_inline out_dir session base m st
              = Ok (lit "![" ++ alt ++ lit "](" ++ local ++ lit " "
                    ++ dq :: title ++ dq :: lit ")") st')))) /\
  (forall prev text m st st' local,
     match_at true MD_REF_DEF prev text = Some m ->
     is_http_url (default [] (group m g_url)) = true ->
     local_path_of (default [] (group m g_url)) out_dir session base st
       = Ok (Some local) st' ->
     exists ref_id ws1 url ws3,
       group m g_id = Some ref_id /\ group m g_url = Some url /\
       Forall (fun a => is_space a = true) ws1 /\
       Forall (fun a => is_space a = true) ws3 /\
       ((group m g_title = None /\
         m_group0 m = lit "[" ++ ref_id ++ lit "]:" ++ ws1 ++ url ++ ws3 /\
         repl_def out_dir session base m st
           = Ok (lit "[" ++ ref_id ++ lit "]: " ++ local) st') \/
        (exists ws2 title,
           group m g_title = Some title /\ ws2 <> [] /\
           Forall (fun a => is_space a = true) ws2 /\
           m_group0 m = lit "[" ++ ref_id ++ lit "]:" ++ ws1 ++ url ++ ws2
                        ++ dq :: title ++ dq :: ws3 /\
           (title <> [] ->
            repl_def out_dir session base m st
              = Ok (lit "[" ++ ref_id ++ lit "]: " ++ local ++ lit " "
                    ++ dq :: title ++ [dq]) st')))) /\
  (forall text st,
     original (pieces true MD_IMG_INLINE text) = text /\
     process_inline text out_dir session base st
       = emit (repl_inline out_dir session base) (pieces true MD_IMG_INLINE text) st /\
     original (pieces true MD_REF_DEF text) = text /\
     process_ref text out_dir session base st
       = emit (repl_def out_dir session base) (pieces true MD_REF_DEF text) st).
Proof.
  split; [|split].
  - intros prev text m st st' local Hm Hu Hloc.
    destruct (inline_shape prev text m Hm)
      as (alt & url & rest & _ & Ha & Hurl & _ & _ & _ & Hshape).
    exists alt, url. split; [exact Ha|]. split; [exact Hurl|].
    unfold repl_inline. rewrite Hu. cbn [negb]. unfold bind. rewrite Hloc.
    rewrite Ha. cbn [default].
    destruct Hshape as [[Ht H0]|(ws & title & Ht & Hws & Hsp & _ & H0)].
    + left. rewrite Ht. auto.
    + right. exists ws, title. rewrite Ht. repeat split; try assumption.
      intros Hne. destruct title as [|c t]; [done|]. reflexivity.
  - intros prev text m st st' local Hm Hu Hloc.
    destruct (ref_def_shape prev text m Hm)
      as (ref_id & ws1 & url & ws3 & rest & _ & _ & _ & Hi & Hurl & _ & _ & _ & _
          & Hs1 & Hs3 & Hshape).
    exists ref_id, ws1, url, ws3. split; [exact Hi|]. split; [exact Hurl|].
    split; [exact Hs1|]. split; [exact Hs3|].
    unfold repl_def. rewrite Hu. cbn [negb]. unfold bind. rewrite Hloc.
    rewrite Hi. cbn [default].
    destruct Hshape as [[Ht H0]|(ws2 & title & Ht & Hws & Hsp & _ & H0)].
    + left. rewrite Ht. auto.
    + right. exists ws2, title. rewrite Ht. repeat split; try assumption.
      intros Hne. destruct title as [|c t]; [done|]. reflexivity.
  - intros text st. unfold pieces, process_inline, process_ref, sub.
    rewrite !original_pieces, !sub_from_emit. auto.
Qed.

End Shapes.

(** ** The document processor *)

Section Processor.
Context `{PyLib}.

Lemma basename_is_suffix p : exists pre, p = pre ++ basename p.
Proof.
  unfold basename. pose proof (split_last slash p) as Hs.
  destruct (before_last slash p) as [a|], (after_last slash p) as [b|];
    try contradiction; simpl.
  - destruct Hs as [-> _]. exists (a ++ [slash]). by rewrite <- app_assoc.
  - by exists [].
Qed.

Lemma path_name_is_suffix p : path_name p <> [] -> exists pre, p = pre ++ path_name p.
Proof.
  unfold path_name. case_bool_decide; [done|]. intros _. apply basename_is_suffix.
Qed.

Lemma path_name_no_slash p : mem slash (path_name p) = false.
Proof. unfold path_name. case_bool_decide; [reflexivity|apply basename_no_slash]. Qed.

(** The suffix of a path is its tail, starts with a dot and holds no slash. *)
Lemma path_suffix_spec p :
  path_name p <> [] ->
  exists pre, p = pre ++ path_suffix p /\
  mem slash (path_suffix p) = false /\
  (path_suffix p = [] \/ exists rest, path_suffix p = dot :: rest).
Proof.
  intros Hname. destruct (path_name_is_suffix p Hname) as [pre Hp].
  pose proof (path_name_no_slash p) as Hns.
  unfold path_suffix. pose proof (split_last dot (path_name p)) as Hs.
  destruct (before_last dot (path_name p)) as [[|a0 a]|], (after_last dot (path_name p))
    as [[|b0 b]|]; try contradiction;
    try (exists p; rewrite app_nil_r; by auto).
  destruct Hs as [Hs _]. exists (pre ++ a0 :: a). split; [|split].
  - rewrite <- app_assoc. rewrite <- Hs. exact Hp.
  - rewrite Hs, mem_app in Hns. by apply orb_false_elim in Hns as [_ ?].
  - eauto.
Qed.

(** Appending [.converted] to the suffix appends it to the path. *)
Lemma with_suffix_converted p :
  path_name p <> [] ->
  with_suffix p (path_suffix p ++ lit ".converted") = Some (p ++ lit ".converted").
Proof.
  intros Hname. destruct (path_suffix_spec p Hname) as (pre & Hp & Hns & Hdot).
  unfold with_suffix. rewrite (bool_decide_eq_false_2 _ Hname).
  remember (path_suffix p) as sfx eqn:Hs. clear Hs Hname. subst p.
  rewrite mem_app, Hns. cbn [orb].
  change (mem slash (lit ".converted")) with false. cbn iota.
  assert (Hhead : negb (bool_decide (sfx ++ lit ".converted" = []))
                  && negb (bool_decide (head (sfx ++ lit ".converted") = Some dot))
                  || bool_decide (sfx ++ lit ".converted" = [dot]) = false).
  { destruct Hdot as [->|[rest ->]].
    - reflexivity.
    - cbn [app head]. rewrite (bool_decide_eq_true_2 (Some dot = Some dot)) by reflexivity.
      rewrite andb_false_r. cbn [orb]. apply bool_decide_eq_false. intros [= Habs].
      by destruct rest. }
  rewrite Hhead. f_equal. rewrite take_app_consumed. by rewrite <- app_assoc.
Qed.

Lemma write_file_same p content w :
  w_files w !! p = Some content -> write_file p content w = w.
Proof.
  intros Hp. destruct w as [files dirs gets slept err]. unfold write_file. cbn in *.
  by rewrite (insert_id _ _ _ Hp).
Qed.

(** A pass leaves every non-empty file as it was. *)
Lemma rewrite_all_keeps_file text out_dir session base st p content :
  w_files (world st) !! p = Some content -> content <> [] ->
  w_files (world (final_state (rewrite_all text out_dir session base st))) !! p
    = Some content.
Proof.
  intros Hp Hc.
  apply (rewrite_all_invariant (fun s => w_files (world s) !! p = Some content));
    [|exact Hp].
  intros url s _ Hs. unfold local_path_of. destruct (cache s !! url); [exact Hs|].
  pose proof (download_gets url out_dir session 2 20 (world s)) as Hg.
  destruct (download url out_dir session 2 20 (world s)) as [r w|e w] eqn:Hd.
  - apply download_files in Hd as [Hkeep _]. destruct r; cbn; by apply Hkeep.
  - cbn. by subst w.
Qed.

Lemma rewrite_all_nil out_dir session base st :
  rewrite_all [] out_dir session base st = Ok [] st.
Proof. reflexivity. Qed.

Lemma universal_newlines_nonempty (l : str) : l <> [] -> universal_newlines l <> [].
Proof.
  destruct l as [|c t]; [done|]. intros _. cbn [universal_newlines].
  destruct (ascii_eqb c cr); [|discriminate].
  destruct t as [|d t']; [discriminate|]. destruct (ascii_eqb d nl); discriminate.
Qed.

(** C9.  When the document can be read and the pass over it returns, the
    processor returns: with overwrite it writes the final text to the
    document's own path and returns that path; without overwrite it writes
    the final text to the path with [.converted] appended, returns that
    path, and the document keeps its contents.  The path returned is the
    document's own path exactly when overwrite is requested.  (The text the
    pass works on is the document as [read_text] gives it, with its line
    ends read as line feeds.) *)
Theorem output_path (md_path out_dir : str) (overwrite : bool) (session : Session)
    (w : World) (text text3 : str) (st : RState) :
  w_files w !! md_path = Some text ->
  rewrite_all (universal_newlines text)
    (if negb (is_absolute out_dir) then resolve (joinpath (parent md_path) out_dir)
     else out_dir)
    session (resolve (parent md_path)) (MkRState w ∅) = Ok text3 st ->
  (overwrite = true \/ path_name md_path <> []) ->
  exists out_path w',
    process_md_file md_path out_dir overwrite session w = Ok out_path w' /\
    w' = write_file out_path text3 (world st) /\
    w_files w' !! out_path = Some text3 /\
    (overwrite = true -> out_path = md_path) /\
    (overwrite = false ->
     out_path = md_path ++ lit ".converted" /\ w_files w' !! md_path = Some text) /\
    (out_path = md_path <-> overwrite = true).
Proof.
  intros Hread Hpass Hname.
  assert (Hne : md_path ++ lit ".converted" <> md_path).
  { intros Habs. apply (f_equal length) in Habs. rewrite length_app in Habs.
    simpl in Habs. lia. }
  unfold process_md_file. rewrite Hread. cbn zeta. rewrite Hpass.
  destruct overwrite.
  - exists md_path, (write_file md_path text3 (world st)).
    split; [reflexivity|]. split; [reflexivity|].
    split; [apply lookup_insert_eq|]. split; [reflexivity|]. split; [discriminate|].
    split; reflexivity.
  - destruct Hname as [[=]|Hname]. rewrite (with_suffix_converted md_path Hname).
    exists (md_path ++ lit ".converted"),
           (write_file (md_path ++ lit ".converted") text3 (world st)).
    split; [reflexivity|]. split; [reflexivity|].
    split; [apply lookup_insert_eq|]. split; [discriminate|]. split.
    + intros _. split; [reflexivity|]. cbn [write_file w_files].
      rewrite lookup_insert_ne by exact Hne.
      destruct text as [|c t].
      * rewrite rewrite_all_nil in Hpass. injection Hpass as <- <-. exact Hread.
      * pose proof (rewrite_all_keeps_file (universal_newlines (c :: t))
                      (if negb (is_absolute out_dir)
                       then resolve (joinpath (parent md_path) out_dir) else out_dir)
                      session (resolve (parent md_path))
                      (MkRState w ∅) md_path (c :: t) Hread ltac:(discriminate)) as Hk.
        by rewrite Hpass in Hk.
    + split; [intros Habs; by apply Hne in Habs|discriminate].
Qed.

End Processor.

(** ** Base64 *)

Lemma code_bound (a : ascii) : code a < 256.
Proof. apply nat_ascii_bounded. Qed.

Lemma digit_facts (n : nat) :
  n < 64 ->
  Base64.value (Base64.digit n) = Some n /\
  ascii_eqb (Base64.digit n) Base64.padding = false /\
  mem (Base64.digit n) Base64.alphabet = true.
Proof.
  intros Hn.
  assert (Hall : forallb (fun n =>
            bool_decide (Base64.value (Base64.digit n) = Some n)
            && negb (ascii_eqb (Base64.digit n) Base64.padding)
            && mem (Base64.digit n) Base64.alphabet) (List.seq 0 64) = true)
    by (vm_compute; reflexivity).
  rewrite forallb_forall in Hall. specialize (Hall n).
  rewrite in_seq in Hall. specialize (Hall ltac:(lia)).
  apply andb_prop in Hall as [Hall Hm]. apply andb_prop in Hall as [Hv Hp].
  apply bool_decide_eq_true in Hv. apply negb_true_iff in Hp. auto.
Qed.

(** Three bytes and the four six-bit values they are cut into. *)
Lemma sextets x y z :
  x < 256 -> y < 256 -> z < 256 ->
  let d1 := x / 4 in
  let d2 := x mod 4 * 16 + y / 16 in
  let d3 := y mod 16 * 4 + z / 64 in
  let d4 := z mod 64 in
  (d1 < 64 /\ d2 < 64 /\ d3 < 64 /\ d4 < 64) /\
  d1 * 4 + d2 / 16 = x /\ d2 mod 16 * 16 + d3 / 4 = y /\ d3 mod 4 * 64 + d4 = z.
Proof.
  intros Hx Hy Hz d1 d2 d3 d4.
  pose proof (Nat.div_mod_eq x 4) as Ex.
  pose proof (Nat.mod_upper_bound x 4 ltac:(lia)) as Bx.
  pose proof (Nat.div_mod_eq y 16) as Ey.
  pose proof (Nat.mod_upper_bound y 16 ltac:(lia)) as By.
  pose proof (Nat.div_mod_eq z 64) as Ez.
  pose proof (Nat.mod_upper_bound z 64 ltac:(lia)) as Bz.
  assert (H2d : d2 / 16 = x mod 4)
    by (symmetry; apply (Nat.div_unique _ 16 _ (y / 16)); subst d2; lia).
  assert (H2m : d2 mod 16 = y / 16)
    by (symmetry; apply (Nat.mod_unique _ 16 (x mod 4)); subst d2; lia).
  assert (H3d : d3 / 4 = y mod 16)
    by (symmetry; apply (Nat.div_unique _ 4 _ (z / 64)); subst d3; lia).
  assert (H3m : d3 mod 4 = z / 64)
    by (symmetry; apply (Nat.mod_unique _ 4 (y mod 16)); subst d3; lia).
  subst d1 d2 d3 d4. repeat split; lia.
Qed.

Lemma is_b64_digit n : n < 64 -> Base64.is_b64 (Base64.digit n) = true.
Proof. intros Hn. unfold Base64.is_b64. by rewrite (proj2 (proj2 (digit_facts n Hn))). Qed.

(** Induction on a list three elements at a time. *)
Lemma list_ind3 {A} (P : list A -> Prop) :
  P [] -> (forall a, P [a]) -> (forall a b, P [a; b]) ->
  (forall a b c l, P l -> P (a :: b :: c :: l)) ->
  forall l, P l.
Proof.
  intros H0 H1 H2 H3 l.
  assert (Hn : forall n l, length l <= n -> P l).
  { induction n as [|n IH]; intros [|a [|b [|c r]]] Hl; simpl in Hl; auto; try lia.
    apply H3, IH. lia. }
  by apply (Hn (length l)).
Qed.

Lemma b64encode_alphabet (bytes : str) :
  forallb Base64.is_b64 (Base64.b64encode bytes) = true.
Proof.
  induction bytes as [|a|a b|a b c rest IH] using list_ind3.
  - reflexivity.
  - destruct (sextets (code a) 0 0 (code_bound a)) as [(H1 & H2 & _) _]; [lia..|].
    rewrite Nat.add_0_r in H2.
    cbn [Base64.b64encode forallb]. rewrite !is_b64_digit by assumption. reflexivity.
  - destruct (sextets (code a) (code b) 0 (code_bound a) (code_bound b))
      as [(H1 & H2 & H3 & _) _]; [lia|].
    rewrite Nat.add_0_r in H3.
    cbn [Base64.b64encode forallb]. rewrite !is_b64_digit by assumption. reflexivity.
  - destruct (sextets (code a) (code b) (code c) (code_bound a) (code_bound b)
                (code_bound c)) as [(H1 & H2 & H3 & H4) _].
    cbn [Base64.b64encode forallb]. rewrite !is_b64_digit by assumption. exact IH.
Qed.

Lemma b64encode_length (bytes : str) :
  length (Base64.b64encode bytes) = 4 * ((length bytes + 2) / 3).
Proof.
  induction bytes as [|a|a b|a b c rest IH] using list_ind3; try reflexivity.
  cbn [Base64.b64encode length]. rewrite IH.
  replace (S (S (S (length rest))) + 2) with ((length rest + 2) + 1 * 3) by lia.
  rewrite Nat.div_add by lia. lia.
Qed.

(** Decoding gives the bytes back. *)
Lemma b64decode_encode (bytes : str) :
  Base64.b64decode (Base64.b64encode bytes) = Some bytes.
Proof.
  induction bytes as [|a|a b|a b c rest IH] using list_ind3.
  - reflexivity.
  - destruct (sextets (code a) 0 0 (code_bound a)) as [(H1 & H2 & _) (E1 & _)]; [lia..|].
    rewrite Nat.add_0_r in H2, E1.
    cbn [Base64.b64encode Base64.b64decode].
    rewrite (proj1 (digit_facts _ H1)), (proj1 (digit_facts _ H2)).
    change (ascii_eqb Base64.padding Base64.padding) with true. cbn [andb].
    rewrite bool_decide_eq_true_2 by reflexivity. rewrite E1.
    unfold code. by rewrite ascii_nat_embedding.
  - destruct (sextets (code a) (code b) 0 (code_bound a) (code_bound b))
      as [(H1 & H2 & H3 & _) (E1 & E2 & _)]; [lia|].
    rewrite Nat.add_0_r in H3, E2.
    cbn [Base64.b64encode Base64.b64decode].
    rewrite (proj1 (digit_facts _ H1)), (proj1 (digit_facts _ H2)),
      (proj1 (proj2 (digit_facts _ H3))), (proj1 (digit_facts _ H3)).
    change (ascii_eqb Base64.padding Base64.padding) with true. cbn iota.
    rewrite bool_decide_eq_true_2 by reflexivity. rewrite E1, E2.
    unfold code. by rewrite !ascii_nat_embedding.
  - destruct (sextets (code a) (code b) (code c) (code_bound a) (code_bound b)
                (code_bound c)) as [(H1 & H2 & H3 & H4) (E1 & E2 & E3)].
    cbn [Base64.b64encode Base64.b64decode].
    rewrite (proj1 (digit_facts _ H1)), (proj1 (digit_facts _ H2)),
      (proj1 (proj2 (digit_facts _ H3))), (proj1 (digit_facts _ H3)),
      (proj1 (proj2 (digit_facts _ H4))), (proj1 (digit_facts _ H4)).
    rewrite IH, E1, E2, E3. unfold code. by rewrite !ascii_nat_embedding.
Qed.

(** ** The session *)

Section SessionFacts.
Context `{Platform}.

Lemma get_set_same name name' value h :
  lower_str name' = lower_str name ->
  get_header name' (set_header name value h) = Some value.
Proof.
  intros Hn. unfold get_header, set_header. rewrite Hn, lookup_insert_eq. reflexivity.
Qed.

Lemma get_set_other name name' value h :
  lower_str name' <> lower_str name ->
  get_header name' (set_header name value h) = get_header name' h.
Proof.
  intros Hn. unfold get_header, set_header. rewrite lookup_insert_ne by congruence.
  reflexivity.
Qed.

(** Whatever the token, the session sends the browser's User-Agent in
    place of the library's, under every spelling of the header name; no
    header but User-Agent and Authorization differs from the library's
    defaults; and without a token (none given, or the empty string) the
    Authorization header is left as the library has it. *)
Theorem session_headers (azdo_pat : option str) :
  (forall name, lower_str name = lit "user-agent" ->
     get_header name (build_session azdo_pat) = Some HTTP_UA) /\
  (forall name, lower_str name <> lit "user-agent" ->
     lower_str name <> lit "authorization" ->
     get_header name (build_session azdo_pat) = get_header name default_headers) /\
  (azdo_pat = None \/ azdo_pat = Some [] ->
   forall name, lower_str name = lit "authorization" ->
     get_header name (build_session azdo_pat) = get_header name default_headers).
Proof.
  assert (Hne : lit "authorization" <> lit "user-agent") by discriminate.
  split; [|split].
  - intros name Hn. unfold build_session.
    destruct azdo_pat as [pat|]; [destruct (truthy pat)|].
    + rewrite get_set_other by (rewrite Hn; intros E; by apply Hne).
      by apply get_set_same.
    + by apply get_set_same.
    + by apply get_set_same.
  - intros name Hu Ha. unfold build_session.
    destruct azdo_pat as [pat|]; [destruct (truthy pat)|];
      rewrite ?(get_set_other (lit "Authorization")) by exact Ha;
      by rewrite get_set_other by exact Hu.
  - intros Hpat name Hn. unfold build_session.
    destruct Hpat as [->| ->]; cbn [truthy];
      apply get_set_other; rewrite Hn; exact Hne.
Qed.

(** With a non-empty token the session sends, under every spelling of
    the name Authorization, the word Basic, a space and the Base64 text of a
    colon followed by the token: the receiver that decodes it reads an empty
    user name and the token as password.  The Base64 text has four
    characters for every three bytes begun, all of them letters, digits,
    plus, slash or the padding sign, so the header holds no line break
    whatever the token contains. *)
Theorem session_authorization (pat : str) :
  pat <> [] ->
  exists token,
    (forall name, lower_str name = lit "authorization" ->
       get_header name (build_session (Some pat)) = Some (lit "Basic " ++ token)) /\
    Base64.b64decode token = Some (lit ":" ++ pat) /\
    forallb Base64.is_b64 token = true /\
    length token = 4 * ((length pat + 3) / 3).
Proof.
  intros Hpat. exists (Base64.b64encode (lit ":" ++ pat)).
  split; [|split; [|split]].
  - intros name Hn. unfold build_session.
    rewrite (proj2 (truthy_true pat) Hpat). by apply get_set_same.
  - apply b64decode_encode.
  - apply b64encode_alphabet.
  - rewrite b64encode_length. cbn [lit list_ascii_of_string app length].
    do 2 f_equal. lia.
Qed.

End SessionFacts.

(** ** More on the fetcher *)

Section FetcherEdges.
Context `{PyLib}.

Lemma mkdir_error_cases (p : str) (w : World) :
  match mkdir_error p w with
  | Some e =>
      (e = NotADirectoryError p /\
       exists d, d ∈ parents p /\ is_Some (w_files w !! d)) \/
      (e = FileExistsError p /\ is_Some (w_files w !! p) /\
       forall d, d ∈ parents p -> w_files w !! d = None)
  | None => w_files w !! p = None /\ forall d, d ∈ parents p -> w_files w !! d = None
  end.
Proof.
  unfold mkdir_error.
  destruct (existsb _ (parents p)) eqn:Ex.
  - left. split; [reflexivity|]. apply existsb_exists in Ex as (d & Hd & Hf).
    exists d. split; [by apply list_elem_of_In|by apply bool_decide_eq_true in Hf].
  - assert (Hnone : forall d, d ∈ parents p -> w_files w !! d = None).
    { intros d Hd. destruct (w_files w !! d) as [c|] eqn:Hc; [|reflexivity].
      assert (existsb (fun d => bool_decide (is_Some (w_files w !! d))) (parents p) = true)
        as Habs; [|congruence].
      apply existsb_exists. exists d. split; [by apply list_elem_of_In|].
      apply bool_decide_eq_true. rewrite Hc. eauto. }
    case_bool_decide as Hp.
    + right. auto.
    + split; [|exact Hnone]. destruct (w_files w !! p); [|reflexivity].
      destruct Hp. eauto.
Qed.

Lemma download_loop_dirs url out_dir session max_retries timeout attempts w :
  w_dirs (snd (download_loop url out_dir session max_retries timeout attempts w))
  = w_dirs w.
Proof.
  destruct (download_loop _ _ _ _ _ _ _) as [r w'] eqn:Hl.
  by apply download_loop_files in Hl as (_ & _ & ?).
Qed.

(** The destination directory.  [mkdir] stands before the [try]: when a
    regular file stands at a directory above the destination, the call
    raises [NotADirectoryError], and when one stands at the destination
    itself, [FileExistsError]; in both cases no request has been made and the
    world is as it was.  In every other case the call returns (no failure of
    a request, of the file name derivation, of the file system or of the
    body escapes it), and the directory has been made (and, with it, the
    directories above it), whether or not the fetch succeeded. *)
Theorem download_destination (url out_dir : str) (session : Session)
    (max_retries timeout : Z) (w : World) :
  ((exists d, d ∈ parents out_dir /\ is_Some (w_files w !! d)) ->
   download url out_dir session max_retries timeout w
     = Raise (NotADirectoryError out_dir) w) /\
  ((forall d, d ∈ parents out_dir -> w_files w !! d = None) ->
   is_Some (w_files w !! out_dir) ->
   download url out_dir session max_retries timeout w
     = Raise (FileExistsError out_dir) w) /\
  ((forall d, d ∈ parents out_dir -> w_files w !! d = None) ->
   w_files w !! out_dir = None ->
   exists r w',
     download url out_dir session max_retries timeout w = Ok r w' /\
     out_dir ∈ w_dirs w' /\ w_dirs w' = {[out_dir]} ∪ w_dirs w).
Proof.
  pose proof (mkdir_error_cases out_dir w) as Hc. unfold download.
  destruct (mkdir_error out_dir w) as [e|] eqn:He.
  - destruct Hc as [[-> (d & Hd & Hf)]|(-> & Hf & Hn)].
    + split; [reflexivity|]. split.
      * intros Hnone _. rewrite (Hnone d Hd) in Hf. by destruct Hf.
      * intros Hnone _. rewrite (Hnone d Hd) in Hf. by destruct Hf.
    + split; [|split].
      * intros (d & Hd & Hf'). rewrite (Hn d Hd) in Hf'. by destruct Hf'.
      * reflexivity.
      * intros _ Hnone. rewrite Hnone in Hf. by destruct Hf.
  - destruct Hc as [Hp Hn]. split; [|split].
    + intros (d & Hd & Hf). rewrite (Hn d Hd) in Hf. by destruct Hf.
    + intros _ Hf. rewrite Hp in Hf. by destruct Hf.
    + intros _ _.
      pose proof (download_loop_dirs url out_dir session max_retries timeout
                    (seqZ 0 (max_retries + 1)) (mkdir out_dir w)) as Hd.
      destruct (download_loop _ _ _ _ _ _ _) as [r w']. cbn [snd] in Hd.
      exists r, w'. split; [reflexivity|]. rewrite Hd. cbn [mkdir w_dirs].
      split; [|reflexivity]. apply elem_of_union. left. by apply elem_of_singleton.
Qed.

(** A negative retry budget.  The loop over the attempts is empty: the call
    makes the directory and returns failure without a request, a sleep or a
    warning; no file changes. *)
Theorem download_negative_budget (url out_dir : str) (session : Session)
    (max_retries timeout : Z) (w : World) :
  (max_retries < 0)%Z ->
  (forall d, d ∈ parents out_dir -> w_files w !! d = None) ->
  w_files w !! out_dir = None ->
  exists w',
    download url out_dir session max_retries timeout w = Ok None w' /\
    w_gets w' = w_gets w /\ w_slept w' = w_slept w /\ w_stderr w' = w_stderr w /\
    w_files w' = w_files w /\ out_dir ∈ w_dirs w'.
Proof.
  intros Hneg Hn Hp. pose proof (mkdir_error_cases out_dir w) as Hc.
  unfold download. destruct (mkdir_error out_dir w) as [e|].
  - destruct Hc as [[_ (d & Hd & Hf)]|(_ & Hf & _)].
    + rewrite (Hn d Hd) in Hf. by destruct Hf.
    + rewrite Hp in Hf. by destruct Hf.
  - rewrite seqZ_nil by lia. cbn [download_loop]. exists (mkdir out_dir w).
    repeat split. cbn [mkdir w_dirs]. apply elem_of_union. left. by apply elem_of_singleton.
Qed.

Lemma mkdir_error_none (p : str) (w : World) :
  (forall d, d ∈ parents p -> w_files w !! d = None) -> w_files w !! p = None ->
  mkdir_error p w = None.
Proof.
  intros Hn Hp. pose proof (mkdir_error_cases p w) as Hc.
  destruct (mkdir_error p w) as [e|]; [|reflexivity].
  destruct Hc as [[_ (d & Hd & Hf)]|(_ & Hf & _)].
  - rewrite (Hn d Hd) in Hf. by destruct Hf.
  - rewrite Hp in Hf. by destruct Hf.
Qed.

Lemma no_nonempty_file (p : str) (w : World) :
  w_files w !! p = None \/ w_files w !! p = Some [] -> ~ nonempty_file p w.
Proof. intros [Hp|Hp] (c & Hc & Hne); rewrite Hp in Hc; congruence. Qed.

(** A fetch that succeeds at once.  When the first response gets past the
    status checks, its body streams to the end, the file system accepts the
    derived name and no non-empty file of that name is there (none at all,
    or one of size zero), the call returns the path under the destination
    directory after one request, with no sleep and no warning, and the file
    holds the chunks of the body in order, end to end; no other file
    changes. *)
Theorem download_saves_body (url out_dir : str) (session : Session)
    (max_retries timeout : Z) (w : World) (resp : Response) (fname : str) :
  (0 <= max_retries)%Z ->
  (forall d, d ∈ parents out_dir -> w_files w !! d = None) ->
  w_files w !! out_dir = None ->
  session (length (w_gets w)) url timeout = GetReturns resp ->
  ~ (400 <= status_code resp < 600)%Z ->
  body_error resp = None ->
  safe_filename_from_url url (Some (default [] (content_type resp))) = Some fname ->
  exists_error (joinpath out_dir fname) = None ->
  open_error (joinpath out_dir fname) = None ->
  w_files w !! joinpath out_dir fname = None \/
    w_files w !! joinpath out_dir fname = Some [] ->
  exists w',
    download url out_dir session max_retries timeout w
      = Ok (Some (joinpath out_dir fname)) w' /\
    w_files w' = <[joinpath out_dir fname := concat (body resp)]> (w_files w) /\
    w_gets w' = url :: w_gets w /\ w_slept w' = w_slept w /\ w_stderr w' = w_stderr w.
Proof.
  intros Hmax Hn Hp Hs Hst Hb Hf Hx Ho He. unfold download.
  rewrite (mkdir_error_none _ _ Hn Hp).
  rewrite seqZ_cons by lia. cbn [download_loop].
  rewrite (attempt_writes url out_dir session timeout (mkdir out_dir w) resp fname);
    [|exact Hs|exact Hst|exact Hf|exact Hx|exact Ho|by apply no_nonempty_file].
  rewrite Hb. eexists. split; [reflexivity|]. repeat split.
Qed.

(** The loop when every attempt fails at [open]. *)
Lemma download_loop_open_fails url out_dir session max_retries timeout msg files :
  (forall i, exists resp fname,
     session i url timeout = GetReturns resp /\
     ~ (400 <= status_code resp < 600)%Z /\
     safe_filename_from_url url (Some (default [] (content_type resp))) = Some fname /\
     exists_error (joinpath out_dir fname) = None /\
     open_error (joinpath out_dir fname) = Some msg /\
     (files !! joinpath out_dir fname = None \/
      files !! joinpath out_dir fname = Some [])) ->
  forall attempts w,
    w_files w = files ->
    fst (download_loop url out_dir session max_retries timeout attempts w) = None /\
    w_files (snd (download_loop url out_dir session max_retries timeout attempts w))
    = files.
Proof.
  intros Hall. induction attempts as [|a later IH]; intros w Hw; [by split|].
  cbn [download_loop].
  destruct (Hall (length (w_gets w))) as (resp & fname & Hs & Hst & Hf & Hx & Ho & He).
  rewrite (attempt_open_fails url out_dir session timeout w resp fname msg);
    [|exact Hs|exact Hst|exact Hf|exact Hx|exact Ho|apply no_nonempty_file; by rewrite Hw].
  destruct (a <? max_retries)%Z; by apply IH.
Qed.

(** A file that cannot be opened.  When every response for the URL gets
    past the status checks but [open] refuses the derived path with the
    error text [msg] (and no non-empty file of that name is there), every
    attempt fails after its request: the call makes all
    [max_retries + 1] requests, returns failure, writes the warning with
    [msg] and leaves every file as it was. *)
Theorem download_open_refused (url out_dir : str) (session : Session)
    (max_retries timeout : Z) (w : World) (msg : str) :
  (0 <= max_retries)%Z ->
  (forall d, d ∈ parents out_dir -> w_files w !! d = None) ->
  w_files w !! out_dir = None ->
  (forall i, exists resp fname,
     session i url timeout = GetReturns resp /\
     ~ (400 <= status_code resp < 600)%Z /\
     safe_filename_from_url url (Some (default [] (content_type resp))) = Some fname /\
     exists_error (joinpath out_dir fname) = None /\
     open_error (joinpath out_dir fname) = Some msg /\
     (w_files w !! joinpath out_dir fname = None \/
      w_files w !! joinpath out_dir fname = Some [])) ->
  exists w',
    download url out_dir session max_retries timeout w = Ok None w' /\
    w_gets w' = repeat url (Z.to_nat max_retries + 1) ++ w_gets w /\
    w_stderr w'
      = (lit "[WARN] download failed: " ++ url ++ lit " -> " ++ msg ++ [nl])
        :: w_stderr w /\
    w_files w' = w_files w.
Proof.
  intros Hmax Hn Hp Hall.
  rewrite (download_unfold _ _ _ _ _ _ (mkdir_error_none _ _ Hn Hp)).
  destruct (download_loop_open_fails url out_dir session max_retries timeout msg
              (w_files w) Hall (seqZ 0 (max_retries + 1)) (mkdir out_dir w) eq_refl)
    as [Hr Hfiles].
  destruct (download_loop _ _ _ _ _ _ _) as [r w'] eqn:Hl. cbn [fst snd] in *. subst r.
  exists w'. split; [reflexivity|].
  replace (max_retries + 1)%Z with (Z.of_nat (Z.to_nat max_retries + 1)) in Hl by lia.
  apply download_loop_effects in Hl as (n & Hlen & Hg & _ & Hnone); [|lia].
  destruct Hnone as (-> & _ & Hw).
  destruct Hw as (w_last & msg' & w_after & Hlast & Hgl & Herr); [lia|].
  split; [exact Hg|]. split; [|exact Hfiles].
  rewrite Herr. cbn [mkdir w_stderr]. do 2 f_equal.
  destruct (Hall (length (w_gets w_last))) as (resp & fname & Hs & Hst & Hf & Hx & Ho & He).
  unfold attempt in Hlast. rewrite Hs in Hlast.
  destruct (passes_status_checks url resp Hst) as [Hs1 Hr1].
  rewrite Hs1, Hr1, Hf, Hx in Hlast.
  destruct (exists_nonempty _ _); [discriminate|]. rewrite Ho in Hlast.
  injection Hlast as <- _. unfold warning. reflexivity.
Qed.

Lemma attempt_returns url out_dir session timeout w p w' :
  attempt url out_dir session timeout w = (inl p, w') ->
  exists ct fname,
    safe_filename_from_url url (Some ct) = Some fname /\ p = joinpath out_dir fname /\
    is_Some (w_files w' !! p).
Proof.
  unfold attempt. intros Ha.
  destruct (session _ _ _) as [msg|resp]; [discriminate|].
  case_bool_decide; [discriminate|].
  destruct (raise_for_status url resp); [discriminate|].
  destruct (safe_filename_from_url _ _) as [fname|] eqn:Hf; [|discriminate].
  exists (default [] (content_type resp)), fname. split; [exact Hf|].
  destruct (exists_error _); [discriminate|].
  destruct (exists_nonempty _ _) eqn:He.
  - injection Ha as <- <-. split; [reflexivity|].
    apply exists_nonempty_true in He as (c & Hc & _). cbn [log_get w_files] in Hc. eauto.
  - destruct (open_error _); [discriminate|].
    destruct (body_error resp); [discriminate|]. injection Ha as <- <-.
    split; [reflexivity|]. cbn [write_file w_files]. rewrite lookup_insert_eq. eauto.
Qed.

(** What a successful call returns.  The path returned is the destination
    directory joined with a file name derived from the URL, the name is a
    single path component (no slash, not empty, not a dot), so the file lies
    directly in the directory, and the file exists when the call returns. *)
Theorem download_returns_file (url out_dir : str) (session : Session)
    (max_retries timeout : Z) (w w' : World) (p : str) :
  download url out_dir session max_retries timeout w = Ok (Some p) w' ->
  exists ct fname,
    safe_filename_from_url url (Some ct) = Some fname /\
    p = joinpath out_dir fname /\
    mem slash fname = false /\ fname <> [] /\ fname <> [dot] /\
    is_Some (w_files w' !! p).
Proof.
  unfold download. destruct (mkdir_error out_dir w); [discriminate|].
  generalize (mkdir out_dir w). generalize (seqZ 0 (max_retries + 1)).
  intros attempts. induction attempts as [|a later IH]; intros w0 Hl.
  - discriminate.
  - cbn [download_loop] in Hl.
    destruct (attempt url out_dir session timeout w0) as [[q|msg] w1] eqn:Ha.
    + injection Hl as -> ->.
      apply attempt_returns in Ha as (ct & fname & Hf & -> & Hex).
      pose proof Hf as Hf'. apply filename_is_component in Hf' as (Hs & Hne & Hdot).
      exists ct, fname. repeat split; assumption.
    + destruct (a <? max_retries)%Z; eapply IH; exact Hl.
Qed.

(** The content type and the file name.  When the last segment of the URL
    path has an extension, the content type plays no part in the name.  When
    the content type matters, only its first token does: parameters after a
    semicolon are cut off.  No content type and the empty content type give
    the same name. *)
Theorem filename_content_type (url : str) :
  (forall parsed ct1 ct2,
     urlparse url = Some parsed ->
     snd (splitext (segment_name parsed)) <> [] ->
     safe_filename_from_url url ct1 = safe_filename_from_url url ct2) /\
  (forall t params,
     t <> [] -> mem ";" t = false ->
     safe_filename_from_url url (Some (t ++ lit ";" ++ params))
     = safe_filename_from_url url (Some t)) /\
  safe_filename_from_url url (Some []) = safe_filename_from_url url None.
Proof.
  split; [|split].
  - intros parsed ct1 ct2 Hp He.
    rewrite !(safe_filename_eq url _ parsed Hp). unfold chosen_ext.
    by rewrite (proj2 (truthy_true _) He).
  - intros t params Ht Hsemi.
    destruct (urlparse url) as [parsed|] eqn:Hp;
      [|unfold safe_filename_from_url; by rewrite Hp].
    rewrite !(safe_filename_eq url _ parsed Hp). unfold chosen_ext.
    assert (Hcut : before_first ";" (t ++ lit ";" ++ params) = before_first ";" t).
    { clear Ht. induction t as [|a t IH]; [reflexivity|].
      rewrite mem_cons in Hsemi. apply orb_false_elim in Hsemi as [Ha Hsemi].
      rewrite ascii_eqb_sym in Ha. cbn [app before_first]. rewrite Ha. f_equal.
      by apply IH. }
    rewrite Hcut.
    assert (Htr : truthy (t ++ lit ";" ++ params) = true).
    { apply truthy_true. by destruct t. }
    by rewrite Htr, (proj2 (truthy_true t) Ht).
  - destruct (urlparse url) as [parsed|] eqn:Hp;
      [|unfold safe_filename_from_url; by rewrite Hp].
    by rewrite !(safe_filename_eq url _ parsed Hp).
Qed.

End FetcherEdges.

(** ** More on the document processor *)

(** Reading with universal newlines leaves no carriage return, and changes
    nothing in a text that has none. *)
Lemma universal_newlines_no_cr (l : str) : mem cr (universal_newlines l) = false.
Proof.
  assert (Hn : forall n l, length l <= n -> mem cr (universal_newlines l) = false).
  { clear l. induction n as [|n IH]; intros [|c t] Hl; simpl in Hl; try reflexivity;
      try lia.
    cbn [universal_newlines]. destruct (ascii_eqb c cr) eqn:Hc.
    - destruct t as [|d t']; [reflexivity|].
      destruct (ascii_eqb d nl); rewrite mem_cons; cbn [orb ascii_eqb];
        change (ascii_eqb cr nl) with false; cbn [orb]; apply IH; simpl in *; lia.
    - rewrite mem_cons, ascii_eqb_sym, Hc. cbn [orb]. apply IH. lia. }
  by apply (Hn (length l)).
Qed.

Lemma universal_newlines_id (l : str) : mem cr l = false -> universal_newlines l = l.
Proof.
  induction l as [|c t IH]; [reflexivity|]. rewrite mem_cons. intros Hm.
  apply orb_false_elim in Hm as [Hc Ht]. rewrite ascii_eqb_sym in Hc.
  cbn [universal_newlines]. rewrite Hc. f_equal. by apply IH.
Qed.

Lemma universal_newlines_crlf (a b : str) :
  mem cr a = false ->
  universal_newlines (a ++ cr :: nl :: b) = a ++ nl :: universal_newlines b.
Proof.
  induction a as [|c t IH]; [reflexivity|]. rewrite mem_cons. intros Hm.
  apply orb_false_elim in Hm as [Hc Ht]. rewrite ascii_eqb_sym in Hc.
  cbn [app universal_newlines]. rewrite Hc. f_equal. by apply IH.
Qed.

Lemma universal_newlines_lone_cr (a b : str) :
  mem cr a = false -> (forall b', b <> nl :: b') ->
  universal_newlines (a ++ cr :: b) = a ++ nl :: universal_newlines b.
Proof.
  intros Ha Hb. induction a as [|c t IH].
  - cbn [app universal_newlines]. change (ascii_eqb cr cr) with true. cbn iota.
    destruct b as [|d b']; [reflexivity|].
    destruct (ascii_eqb d nl) eqn:Hd; [|reflexivity].
    apply bool_decide_eq_true in Hd. subst d. by destruct (Hb b').
  - rewrite mem_cons in Ha. apply orb_false_elim in Ha as [Hc Ht].
    rewrite ascii_eqb_sym in Hc. cbn [app universal_newlines]. rewrite Hc. f_equal.
    by apply IH.
Qed.

Section ProcessorEdges.
Context `{PyLib}.

(** The path a conversion returns. *)
Lemma process_md_file_out md_path out_dir overwrite session w outp w' :
  process_md_file md_path out_dir overwrite session w = Ok outp w' ->
  outp = if overwrite then md_path else md_path ++ lit ".converted".
Proof.
  unfold process_md_file. intros Hrun.
  destruct (w_files w !! md_path); [|discriminate]. cbn zeta in Hrun.
  destruct (rewrite_all _ _ _ _ _) as [t st|e st]; [|discriminate].
  destruct overwrite; [by injection Hrun as <- _|].
  destruct (decide (path_name md_path = [])) as [Hn|Hn].
  - unfold with_suffix in Hrun. rewrite (bool_decide_eq_true_2 _ Hn) in Hrun.
    repeat match type of Hrun with
           | context [if ?b then _ else _] => destruct b
           end; discriminate.
  - rewrite (with_suffix_converted md_path Hn) in Hrun. by injection Hrun as <- _.
Qed.

Lemma download_final_dirs url out_dir session max_retries timeout w :
  w_dirs (final_state (download url out_dir session max_retries timeout w))
    ⊆ {[out_dir]} ∪ w_dirs w.
Proof.
  unfold download. destruct (mkdir_error out_dir w); [apply union_subseteq_r|].
  destruct (download_loop _ _ _ _ _ _ _) as [r1 w1] eqn:Hl. cbn [final_state].
  apply download_loop_files in Hl as (_ & _ & ->). reflexivity.
Qed.

(** The files and directories a pass can touch. *)
Lemma rewrite_all_frame text out_dir session base st :
  let st' := final_state (rewrite_all text out_dir session base st) in
  (forall p, ~ directly_under out_dir p ->
             w_files (world st') !! p = w_files (world st) !! p) /\
  w_dirs (world st') ⊆ {[out_dir]} ∪ w_dirs (world st).
Proof.
  apply (rewrite_all_invariant
           (fun s => (forall p, ~ directly_under out_dir p ->
                                w_files (world s) !! p = w_files (world st) !! p) /\
                     w_dirs (world s) ⊆ {[out_dir]} ∪ w_dirs (world st))).
  - intros url s _ [Hf Hd]. unfold local_path_of. destruct (cache s !! url); [by split|].
    destruct (download_final_files url out_dir session 2 20 (world s)) as (_ & Hf').
    pose proof (download_final_dirs url out_dir session 2 20 (world s)) as Hd'.
    destruct (download _ _ _ _ _ _) as [[saved|] w|e w]; cbn [final_state world] in *.
    all: split; [intros p Hp; by rewrite Hf', Hf|].
    all: etransitivity; [exact Hd'|]; apply union_least; [apply union_subseteq_l|exact Hd].
  - split; [auto|apply union_subseteq_r].
Qed.

Lemma rewrite_all_gets text out_dir session base st :
  exists new,
    w_gets (world (final_state (rewrite_all text out_dir session base st)))
    = new ++ w_gets (world st) /\
    Forall (fun u => is_http_url u = true) new.
Proof.
  apply (rewrite_all_invariant
           (fun s => exists new, w_gets (world s) = new ++ w_gets (world st) /\
                                 Forall (fun u => is_http_url u = true) new)).
  - intros url s Hu (new & Hn & Hall). unfold local_path_of.
    destruct (cache s !! url); [by exists new|].
    pose proof (download_gets url out_dir session 2 20 (world s)) as Hg.
    destruct (download _ _ _ _ _ _) as [[saved|] w|e w]; cbn [final_state world].
    3:{ subst w. by exists new. }
    all: destruct Hg as [n Hg]; exists (repeat url n ++ new).
    all: split; [by rewrite Hg, Hn, <- app_assoc|].
    all: apply Forall_app; split; [|exact Hall].
    all: clear Hg; induction n; constructor; assumption.
  - exists []. split; [reflexivity|constructor].
Qed.

(** Only remote URLs are requested.  Every request that the conversion of a
    document makes, whether the conversion returns or raises, is for a URL
    that parses with the scheme [http] or [https]: a reference with any
    other scheme, or with none, never reaches the network. *)
Theorem only_remote_urls_requested (md_path out_dir : str) (overwrite : bool)
    (session : Session) (w : World) :
  exists new,
    w_gets (final_state (process_md_file md_path out_dir overwrite session w))
    = new ++ w_gets w /\
    Forall (fun u => exists parsed, urlparse u = Some parsed /\
                       (scheme parsed = lit "http" \/ scheme parsed = lit "https")) new.
Proof.
  assert (Hcl : forall new, Forall (fun u => is_http_url u = true) new ->
            Forall (fun u => exists parsed, urlparse u = Some parsed /\
                       (scheme parsed = lit "http" \/ scheme parsed = lit "https")) new).
  { intros new Hall. eapply Forall_impl; [exact Hall|]. intros u. unfold is_http_url.
    destruct (urlparse u) as [parsed|]; [|discriminate].
    intros Hs%bool_decide_eq_true. eauto. }
  unfold process_md_file.
  destruct (w_files w !! md_path) as [text|]; [|exists []; split; [reflexivity|constructor]].
  cbn zeta.
  match goal with
  | |- context [rewrite_all ?t ?o ?s ?b ?st] =>
      destruct (rewrite_all_gets t o s b st) as (new & Hn & Hall);
      destruct (rewrite_all t o s b st) as [t3 st1|e st1]
  end; cbn [final_state world] in Hn.
  - exists new. split; [|by apply Hcl]. by destruct (if overwrite then _ else _).
  - exists new. split; [exact Hn|by apply Hcl].
Qed.

(** What a conversion can touch.  Apart from the output path (the document
    itself with overwrite, the path with [.converted] appended without), the
    conversion changes no file but those directly under the destination
    directory and no file that was there with non-zero size; it makes no
    directory but the destination directory (and, with it, the directories
    above it).  The destination is the given
    directory when that is absolute, and else the directory resolved against
    the document's own directory. *)
Theorem conversion_frame (md_path out_dir : str) (overwrite : bool)
    (session : Session) (w : World) :
  let w' := final_state (process_md_file md_path out_dir overwrite session w) in
  let dest := if negb (is_absolute out_dir)
              then resolve (joinpath (parent md_path) out_dir) else out_dir in
  let outp := if overwrite then md_path else md_path ++ lit ".converted" in
  (forall p, p <> outp -> ~ directly_under dest p -> w_files w' !! p = w_files w !! p) /\
  (forall p content, p <> outp -> w_files w !! p = Some content -> content <> [] ->
                     w_files w' !! p = Some content) /\
  w_dirs w' ⊆ {[dest]} ∪ w_dirs w.
Proof.
  intros w' dest outp.
  destruct (process_md_file md_path out_dir overwrite session w) as [o w1|e w1] eqn:Hrun.
  - pose proof (process_md_file_out _ _ _ _ _ _ _ Hrun) as Hout. fold outp in Hout.
    subst o w'. cbn [final_state]. unfold process_md_file in Hrun.
    destruct (w_files w !! md_path) as [text|]; [|discriminate]. cbn zeta in Hrun.
    fold dest in Hrun.
    destruct (rewrite_all_frame (universal_newlines text) dest session
                (resolve (parent md_path)) (MkRState w ∅)) as [Hf Hd].
    pose proof (fun p c => rewrite_all_keeps_file (universal_newlines text) dest session
                  (resolve (parent md_path)) (MkRState w ∅) p c) as Hk.
    destruct (rewrite_all _ _ _ _ _) as [t3 st|e st]; [|discriminate].
    cbn [final_state world] in Hf, Hd, Hk.
    assert (Hw1 : w1 = write_file outp t3 (world st)).
    { destruct overwrite; [by inversion Hrun|].
      destruct (with_suffix _ _) as [q|]; [|discriminate]. by inversion Hrun. }
    subst w1. cbn [write_file w_files w_dirs]. split; [|split].
    + intros p Hp Hu. rewrite lookup_insert_ne by congruence. by apply Hf.
    + intros p c Hp Hc Hne. rewrite lookup_insert_ne by congruence. by apply Hk.
    + exact Hd.
  - subst w'. cbn [final_state]. unfold process_md_file in Hrun.
    destruct (w_files w !! md_path) as [text|].
    2:{ injection Hrun as _ <-. split; [auto|]. split; [auto|]. apply union_subseteq_r. }
    cbn zeta in Hrun. fold dest in Hrun.
    destruct (rewrite_all_frame (universal_newlines text) dest session
                (resolve (parent md_path)) (MkRState w ∅)) as [Hf Hd].
    pose proof (fun p c => rewrite_all_keeps_file (universal_newlines text) dest session
                  (resolve (parent md_path)) (MkRState w ∅) p c) as Hk.
    destruct (rewrite_all _ _ _ _ _) as [t3 st|e0 st]; cbn [final_state world] in Hf, Hd, Hk.
    + destruct (if overwrite then _ else _); [discriminate|]. injection Hrun as _ <-.
      split; [auto|]. split; [|exact Hd]. intros p c _. apply Hk.
    + injection Hrun as _ <-. split; [auto|]. split; [|exact Hd]. intros p c _. apply Hk.
Qed.


(** A document without remote images.  The text is read with its line ends
    as line feeds: up to the first carriage return it is the stored text,
    and a CR LF pair or a lone CR is read as one line feed.  When none of
    the references that the three patterns find in the text read is remote,
    the conversion writes that text to the output path and does nothing
    else: no request, no directory, no line on the error stream.  The text
    written holds no carriage return; with overwrite, a document without
    carriage returns leaves the world exactly as it was, and one with them
    is written back with other line ends although it has no image to
    convert. *)
Theorem document_without_remote_images (md_path out_dir : str) (overwrite : bool)
    (session : Session) (w : World) (stored : str) :
  w_files w !! md_path = Some stored ->
  remote_free MD_IMG_INLINE g_url (universal_newlines stored) ->
  remote_free MD_REF_DEF g_url (universal_newlines stored) ->
  remote_free HTML_IMG g_src (universal_newlines stored) ->
  overwrite = true \/ path_name md_path <> [] ->
  let outp := if overwrite then md_path else md_path ++ lit ".converted" in
  exists text,
    process_md_file md_path out_dir overwrite session w
      = Ok outp (write_file outp text w) /\
    mem cr text = false /\
    (mem cr stored = false -> text = stored) /\
    (forall a b, mem cr a = false -> stored = a ++ cr :: nl :: b ->
       text = a ++ nl :: universal_newlines b) /\
    (forall a b, mem cr a = false -> stored = a ++ cr :: b ->
       (forall b', b <> nl :: b') -> text = a ++ nl :: universal_newlines b) /\
    (mem cr stored = true -> text <> stored) /\
    (overwrite = true -> mem cr stored = false -> write_file outp text w = w).
Proof.
  intros Hread Hi Hr Hh Hname outp. exists (universal_newlines stored).
  split; [|split; [apply universal_newlines_no_cr|split; [|split; [|split; [|split]]]]].
  - unfold process_md_file. rewrite Hread. cbn zeta. unfold rewrite_all, bind.
    rewrite (process_inline_local _ _ _ _ _ Hi), (process_ref_local _ _ _ _ _ Hr),
      (process_html_local _ _ _ _ _ Hh). cbn [world].
    subst outp. destruct overwrite; [reflexivity|].
    destruct Hname as [[=]|Hname]. by rewrite (with_suffix_converted md_path Hname).
  - apply universal_newlines_id.
  - intros a b Ha ->. by apply universal_newlines_crlf.
  - intros a b Ha -> Hb. by apply universal_newlines_lone_cr.
  - intros Hcr Heq. pose proof (universal_newlines_no_cr stored) as Hno.
    rewrite Heq in Hno. congruence.
  - intros -> Hcr. subst outp. rewrite (universal_newlines_id _ Hcr).
    by apply write_file_same.
Qed.

End ProcessorEdges.

(** ** The search for documents *)

Lemma elem_of_files_of p w : p ∈ files_of w <-> is_file p w = true.
Proof.
  unfold files_of, is_file. rewrite bool_decide_eq_true. split.
  - intros Hp. apply list_elem_of_fmap in Hp as ([k v] & -> & Hkv).
    apply elem_of_map_to_list in Hkv. eauto.
  - intros [v Hv]. apply list_elem_of_fmap. exists (p, v).
    split; [reflexivity|]. by apply elem_of_map_to_list.
Qed.

Lemma elem_of_entries p w :
  p ∈ entries w <-> is_file p w = true \/ is_dir p w = true.
Proof.
  unfold entries, is_dir. rewrite elem_of_remove_dups, elem_of_app, elem_of_files_of.
  by rewrite bool_decide_eq_true.
Qed.

(** The last occurrence of a character, from the two parts it separates. *)
Lemma last_split c (a b : str) :
  mem c b = false ->
  before_last c (a ++ c :: b) = Some a /\ after_last c (a ++ c :: b) = Some b.
Proof.
  intros Hb.
  assert (Hnone : before_last c b = None /\ after_last c b = None).
  { pose proof (split_last c b) as Hs.
    destruct (before_last c b) as [x|], (after_last c b) as [y|]; try contradiction; auto.
    destruct Hs as [-> _]. rewrite mem_app, mem_cons in Hb.
    unfold ascii_eqb in Hb. rewrite bool_decide_eq_true_2 in Hb by reflexivity.
    by rewrite orb_true_r in Hb. }
  destruct Hnone as [Hb1 Hb2].
  induction a as [|x a [IH1 IH2]]; simpl.
  - rewrite Hb1, Hb2. unfold ascii_eqb. by rewrite bool_decide_eq_true_2.
  - by rewrite IH1, IH2.
Qed.

Lemma no_split c (p : str) :
  mem c p = false -> before_last c p = None /\ after_last c p = None.
Proof.
  intros Hp. pose proof (split_last c p) as Hs.
  destruct (before_last c p) as [x|], (after_last c p) as [y|]; try contradiction; auto.
  destruct Hs as [-> _]. rewrite mem_app, mem_cons in Hp.
  unfold ascii_eqb in Hp. rewrite bool_decide_eq_true_2 in Hp by reflexivity.
  by rewrite orb_true_r in Hp.
Qed.

Lemma basename_app p (s : str) :
  mem slash s = false -> basename (p ++ s) = basename p ++ s.
Proof.
  intros Hs. unfold basename. pose proof (split_last slash p) as Hp.
  destruct (before_last slash p) as [a|] eqn:Ea, (after_last slash p) as [b|] eqn:Eb;
    try contradiction.
  - destruct Hp as [-> Hb]. rewrite <- app_assoc. cbn [app].
    assert (Hbs : mem slash (b ++ s) = false) by (by rewrite mem_app, Hb, Hs).
    by rewrite (proj2 (last_split slash a (b ++ s) Hbs)).
  - assert (Hps : mem slash (p ++ s) = false) by (by rewrite mem_app, Hp, Hs).
    by rewrite (proj2 (no_split slash (p ++ s) Hps)).
Qed.

(** The suffix of a path that ends in [.converted]. *)
Lemma path_suffix_converted p :
  path_suffix (p ++ lit ".converted") = lit ".converted" \/
  path_suffix (p ++ lit ".converted") = [].
Proof.
  unfold path_suffix, path_name.
  rewrite bool_decide_eq_false_2.
  2:{ intros Habs. apply (f_equal length) in Habs. rewrite length_app in Habs.
      simpl in Habs. lia. }
  rewrite (basename_app p (lit ".converted") eq_refl).
  change (lit ".converted") with (dot :: lit "converted").
  destruct (last_split dot (basename p) (lit "converted") eq_refl) as [-> ->].
  destruct (basename p); auto.
Qed.

Section SearchFacts.
Context `{PyLib} `{Platform}.

Lemma elem_of_rglob target w p :
  p ∈ rglob target w <->
  (is_file p w = true \/ is_dir p w = true) /\ target ∈ parents p.
Proof.
  unfold rglob. rewrite (listing_perm _), list_elem_of_filter, elem_of_entries. tauto.
Qed.

Lemma NoDup_rglob target w : NoDup (rglob target w).
Proof.
  unfold rglob. rewrite (listing_perm _). apply NoDup_filter, NoDup_remove_dups.
Qed.

Lemma markdown_elem p :
  lower_str (path_suffix p) ∈ [lit ".md"; lit ".markdown"] <-> is_markdown p.
Proof.
  unfold is_markdown. rewrite !elem_of_cons, elem_of_nil. tauto.
Qed.

Lemma find_md_nothing target w :
  ~ (is_file target w = true /\ is_markdown target) -> is_dir target w = false ->
  find_md target w = [].
Proof.
  unfold find_md. intros Hnot ->.
  destruct (is_file target w && _) eqn:E; [|reflexivity].
  apply andb_prop in E as [Hf Hm]. apply bool_decide_eq_true in Hm.
  destruct Hnot. split; [exact Hf|by apply markdown_elem].
Qed.

(** What the search returns.  A regular file with a Markdown suffix
    (.md or .markdown, in any mix of upper and lower case) is returned alone.
    Otherwise, for a directory, a path is returned exactly when it exists
    below the directory, at any depth, and has a Markdown suffix, be it a
    regular file or a directory; no path is returned twice.  For anything
    else (a file with another suffix, a path that does not exist) the result
    is empty. *)
Theorem find_md_spec (target : str) (w : World) :
  (is_file target w = true -> is_markdown target -> find_md target w = [target]) /\
  (~ (is_file target w = true /\ is_markdown target) -> is_dir target w = true ->
   forall p, p ∈ find_md target w <->
             (is_file p w = true \/ is_dir p w = true) /\ target ∈ parents p /\
             is_markdown p) /\
  (~ (is_file target w = true /\ is_markdown target) -> is_dir target w = false ->
   find_md target w = []) /\
  NoDup (find_md target w).
Proof.
  unfold find_md. split; [|split; [|split]].
  - intros -> Hm. by rewrite bool_decide_eq_true_2 by (by apply markdown_elem).
  - intros Hnot -> p.
    destruct (is_file target w && _) eqn:E.
    { apply andb_prop in E as [Hf Hm]. apply bool_decide_eq_true in Hm.
      destruct Hnot. split; [exact Hf|by apply markdown_elem]. }
    rewrite list_elem_of_filter, elem_of_rglob, markdown_elem. tauto.
  - apply find_md_nothing.
  - destruct (_ && _); [apply NoDup_singleton|].
    destruct (is_dir target w); [|apply NoDup_nil_2].
    apply NoDup_filter, NoDup_rglob.
Qed.

Lemma find_md_markdown target w p : p ∈ find_md target w -> is_markdown p.
Proof.
  unfold find_md. destruct (is_file target w && _) eqn:E.
  - apply andb_prop in E as [_ Hm]. apply bool_decide_eq_true in Hm.
    intros ->%list_elem_of_singleton. by apply markdown_elem.
  - destruct (is_dir target w); [|by intros ?%elem_of_nil].
    rewrite list_elem_of_filter, markdown_elem. tauto.
Qed.

(** The search never returns the output of a conversion without
    overwrite: what [process_md_file] writes then has the suffix
    [.converted], which is no Markdown suffix, so a later run does not take
    the converted copy for a document. *)
Theorem converted_copy_not_found (md_path out_dir : str) (session : Session)
    (w w' : World) (outp : str) :
  process_md_file md_path out_dir false session w = Ok outp w' ->
  outp = md_path ++ lit ".converted" /\
  forall target w'', outp ∉ find_md target w''.
Proof.
  intros Hrun. pose proof (process_md_file_out _ _ _ _ _ _ _ Hrun) as Hout.
  split; [exact Hout|]. subst outp. intros target w'' Hin.
  apply find_md_markdown in Hin. unfold is_markdown in Hin.
  destruct (path_suffix_converted md_path) as [E|E]; rewrite E in Hin;
    destruct Hin as [Hin|Hin]; discriminate.
Qed.

End SearchFacts.

(** ** The command line *)

Section MainFacts.
Context `{PyLib} `{Platform}.

(** The error stream only grows during a download, a pass and a
    conversion. *)
Lemma download_loop_stderr url out_dir session max_retries timeout attempts :
  forall w, exists e,
    w_stderr (snd (download_loop url out_dir session max_retries timeout attempts w))
    = e ++ w_stderr w.
Proof.
  induction attempts as [|a later IH]; intros w; [by exists []|].
  cbn [download_loop].
  destruct (attempt url out_dir session timeout w) as [[p|msg] w1] eqn:Ha;
    apply attempt_logs in Ha as (_ & _ & He & _).
  - exists []. cbn [snd]. by rewrite He.
  - destruct (a <? max_retries)%Z.
    + destruct (IH (sleep (a + 1) w1)) as [e ->]. exists e.
      cbn [sleep w_stderr]. by rewrite He.
    + destruct (IH (stderr_write (warning url msg) w1)) as [e ->].
      exists (e ++ [warning url msg]). cbn [stderr_write w_stderr].
      by rewrite He, <- app_assoc.
Qed.

Lemma download_stderr url out_dir session max_retries timeout w :
  exists e,
    w_stderr (final_state (download url out_dir session max_retries timeout w))
    = e ++ w_stderr w.
Proof.
  unfold download. destruct (mkdir_error out_dir w); [by exists []|].
  destruct (download_loop_stderr url out_dir session max_retries timeout
              (seqZ 0 (max_retries + 1)) (mkdir out_dir w)) as [e He].
  destruct (download_loop _ _ _ _ _ _ _) as [r w1]. exists e. exact He.
Qed.

Lemma rewrite_all_stderr text out_dir session base st :
  exists e,
    w_stderr (world (final_state (rewrite_all text out_dir session base st)))
    = e ++ w_stderr (world st).
Proof.
  apply (rewrite_all_invariant
           (fun s => exists e, w_stderr (world s) = e ++ w_stderr (world st)));
    [|by exists []].
  intros url s _ [e He]. unfold local_path_of. destruct (cache s !! url); [by exists e|].
  destruct (download_stderr url out_dir session 2 20 (world s)) as [e' He'].
  exists (e' ++ e). rewrite <- app_assoc, <- He.
  destruct (download _ _ _ _ _ _) as [[saved|] w|e0 w]; exact He'.
Qed.

Lemma process_md_file_stderr md_path out_dir overwrite session w :
  exists e,
    w_stderr (final_state (process_md_file md_path out_dir overwrite session w))
    = e ++ w_stderr w.
Proof.
  unfold process_md_file. destruct (w_files w !! md_path) as [text|]; [|by exists []].
  cbn zeta.
  match goal with
  | |- context [rewrite_all ?t ?o ?s ?b ?st] =>
      destruct (rewrite_all_stderr t o s b st) as [e He];
      destruct (rewrite_all t o s b st) as [t3 st1|e0 st1]
  end; [|by exists e].
  exists e. by destruct (if overwrite then _ else _).
Qed.

Lemma ok_line_nl md outp :
  ok_line md outp ++ [nl] = lit "[OK] " ++ md ++ lit " -> " ++ outp ++ [nl].
Proof. unfold ok_line. by rewrite <- !app_assoc. Qed.

(** What the loop over the documents leaves on the two streams. *)
Lemma main_loop_reports files out_dir overwrite session :
  forall ps,
    let ps' := main_loop files out_dir overwrite session ps in
    (exists o, p_stdout ps' = o ++ p_stdout ps /\ length o <= length files) /\
    (exists e, w_stderr (p_world ps') = e ++ w_stderr (p_world ps)) /\
    (forall md, md ∈ files ->
       (lit "[OK] " ++ md ++ lit " -> "
          ++ (if overwrite then md else md ++ lit ".converted") ++ [nl]
          ∈ p_stdout ps') \/
       (exists e, lit "[ERROR] " ++ md ++ lit ": " ++ exn_text e ++ [nl]
                    ∈ w_stderr (p_world ps'))).
Proof.
  induction files as [|md later IH]; intros ps; cbn zeta.
  - split; [exists []; split; [reflexivity|simpl; lia]|].
    split; [by exists []|]. intros md Hmd. by apply elem_of_nil in Hmd.
  - cbn [main_loop].
    destruct (process_md_file_stderr md out_dir overwrite session (p_world ps)) as [e1 He1].
    destruct (process_md_file md out_dir overwrite session (p_world ps))
      as [outp w|e w] eqn:Hrun; cbn [final_state] in He1.
    + apply process_md_file_out in Hrun. subst outp.
      set (ps1 := print _ _).
      destruct (IH ps1) as ((o & Ho & Hlen) & (e & He) & Hrep).
      split; [|split].
      * exists (o ++ [ok_line md (if overwrite then md else md ++ lit ".converted")
                       ++ [nl]]).
        split; [by rewrite Ho, <- app_assoc|]. rewrite length_app. simpl. lia.
      * exists (e ++ e1). by rewrite He, <- app_assoc, <- He1.
      * intros md' [->|Hin]%elem_of_cons; [|by apply Hrep].
        left. rewrite Ho, <- ok_line_nl. apply elem_of_app. right. apply elem_of_cons.
        by left.
    + set (ps1 := MkProcess _ _).
      destruct (IH ps1) as ((o & Ho & Hlen) & (e' & He) & Hrep).
      split; [|split].
      * exists o. split; [exact Ho|]. simpl. lia.
      * exists (e' ++ error_line md e :: e1).
        rewrite He. cbn [ps1 p_world stderr_write w_stderr]. rewrite He1.
        by rewrite <- app_assoc.
      * intros md' [->|Hin]%elem_of_cons; [|by apply Hrep].
        right. exists e. rewrite He. apply elem_of_app. right.
        cbn [ps1 p_world stderr_write w_stderr]. apply elem_of_cons. by left.
Qed.

(** The exit status tells whether a document was found, and nothing
    else: when the search finds none, [main] writes the one line saying so to
    the error stream, changes nothing else (no request, no file, no line on
    the output stream) and exits with status 1; this is what happens for a
    target that is no directory and no regular file with a Markdown suffix.
    When the search finds a document, [main] returns without calling
    [sys.exit], whatever happens to the documents. *)
Theorem main_exit_status (args : Args) (network : Headers -> Session) (ps : Process) :
  let target := resolve (pure_path (a_target args)) in
  let files := find_md target (p_world ps) in
  (files = [] ->
   main args network ps
   = (Some 1%Z, MkProcess (stderr_write NOT_FOUND_MSG (p_world ps)) (p_stdout ps))) /\
  (fst (main args network ps) = Some 1%Z <-> files = []) /\
  (fst (main args network ps) = None <-> files <> []) /\
  (is_dir target (p_world ps) = false ->
   is_file target (p_world ps) = false \/ ~ is_markdown target ->
   files = []).
Proof.
  intros target files. split; [|split; [|split]].
  - intros Hf. unfold main. fold target. fold files. by rewrite Hf.
  - unfold main. fold target. fold files. destruct files; simpl; split; congruence.
  - unfold main. fold target. fold files. destruct files; simpl; split; congruence.
  - intros Hd Hf.
    apply find_md_nothing; [|exact Hd]. intros [Hfile Hmd].
    destruct Hf as [Hf|Hf]; [congruence|exact (Hf Hmd)].
Qed.

(** A document that cannot be converted does not stop the run.  When
    the search finds documents, [main] returns normally, and for every
    document found the output stream holds its line [OK] (with the path
    written: the document's own with overwrite, the path with [.converted]
    appended without) or the error stream holds its line [ERROR]; the output
    stream gets one line per document at most. *)
Theorem main_reports_every_document (args : Args) (network : Headers -> Session)
    (ps : Process) :
  let files := find_md (resolve (pure_path (a_target args))) (p_world ps) in
  let ps' := snd (main args network ps) in
  files <> [] ->
  fst (main args network ps) = None /\
  (forall md, md ∈ files ->
     (lit "[OK] " ++ md ++ lit " -> "
        ++ (if a_overwrite args then md else md ++ lit ".converted") ++ [nl]
        ∈ p_stdout ps') \/
     (exists e, lit "[ERROR] " ++ md ++ lit ": " ++ exn_text e ++ [nl]
                  ∈ w_stderr (p_world ps'))) /\
  length (p_stdout ps') <= length (p_stdout ps) + length files.
Proof.
  intros files ps' Hne. subst ps'. unfold main. fold files.
  destruct files as [|md0 later] eqn:Hfiles; [done|]. cbn [fst snd].
  destruct (main_loop_reports (md0 :: later) (pure_path (a_out_dir args))
              (a_overwrite args) (network (build_session (a_azdo_pat args))) ps)
    as ((o & Ho & Hlen) & _ & Hrep).
  split; [reflexivity|]. split; [exact Hrep|].
  rewrite Ho, length_app. lia.
Qed.

(** Sessions that answer alike under the timeout used. *)
Lemma attempt_agree url out_dir (s1 s2 : Session) timeout w :
  (forall i u, s1 i u timeout = s2 i u timeout) ->
  attempt url out_dir s1 timeout w = attempt url out_dir s2 timeout w.
Proof. intros Hs. unfold attempt. by rewrite Hs. Qed.

Lemma download_loop_agree url out_dir (s1 s2 : Session) max_retries timeout attempts :
  (forall i u, s1 i u timeout = s2 i u timeout) ->
  forall w, download_loop url out_dir s1 max_retries timeout attempts w
            = download_loop url out_dir s2 max_retries timeout attempts w.
Proof.
  intros Hs. induction attempts as [|a later IH]; intros w; [reflexivity|].
  cbn [download_loop]. rewrite (attempt_agree _ _ s1 s2 _ _ Hs).
  destruct (attempt url out_dir s2 timeout w) as [[p|msg] w1]; [reflexivity|].
  destruct (a <? max_retries)%Z; apply IH.
Qed.

Lemma local_path_of_agree url out_dir (s1 s2 : Session) base st :
  (forall i u, s1 i u 20%Z = s2 i u 20%Z) ->
  local_path_of url out_dir s1 base st = local_path_of url out_dir s2 base st.
Proof.
  intros Hs. unfold local_path_of, download.
  by rewrite (download_loop_agree _ _ s1 s2 _ _ _ Hs).
Qed.

Lemma emit_ext {S} (repl1 repl2 : Match -> M S str) ps :
  (forall m st, repl1 m st = repl2 m st) ->
  forall st, emit repl1 ps st = emit repl2 ps st.
Proof.
  intros Hr. induction ps as [|[c|m] ps IH]; intros st; cbn [emit]; unfold bind.
  - reflexivity.
  - by rewrite IH.
  - rewrite Hr. destruct (repl2 m st) as [out st1|e st1]; [|reflexivity]. by rewrite IH.
Qed.

Lemma rewrite_all_agree text out_dir (s1 s2 : Session) base st :
  (forall i u, s1 i u 20%Z = s2 i u 20%Z) ->
  rewrite_all text out_dir s1 base st = rewrite_all text out_dir s2 base st.
Proof.
  intros Hs.
  assert (Hi : forall m st, repl_inline out_dir s1 base m st
                            = repl_inline out_dir s2 base m st).
  { intros m s. unfold repl_inline. destruct (negb _); [reflexivity|].
    unfold bind. by rewrite (local_path_of_agree _ _ s1 s2 _ _ Hs). }
  assert (Hd : forall m st, repl_def out_dir s1 base m st
                            = repl_def out_dir s2 base m st).
  { intros m s. unfold repl_def. destruct (negb _); [reflexivity|].
    unfold bind. by rewrite (local_path_of_agree _ _ s1 s2 _ _ Hs). }
  assert (Hh : forall m st, repl_html out_dir s1 base m st
                            = repl_html out_dir s2 base m st).
  { intros m s. unfold repl_html. destruct (negb _); [reflexivity|].
    unfold bind. by rewrite (local_path_of_agree _ _ s1 s2 _ _ Hs). }
  unfold rewrite_all, bind, process_inline, process_ref, process_html, sub.
  rewrite !sub_from_emit. rewrite (emit_ext _ _ _ Hi).
  destruct (emit (repl_inline out_dir s2 base) _ st) as [t1 st1|e st1]; [|reflexivity].
  rewrite !sub_from_emit. rewrite (emit_ext _ _ _ Hd).
  destruct (emit (repl_def out_dir s2 base) _ st1) as [t2 st2|e st2]; [|reflexivity].
  rewrite !sub_from_emit. apply (emit_ext _ _ _ Hh).
Qed.

Lemma main_loop_agree files out_dir overwrite (s1 s2 : Session) :
  (forall i u, s1 i u 20%Z = s2 i u 20%Z) ->
  forall ps, main_loop files out_dir overwrite s1 ps
             = main_loop files out_dir overwrite s2 ps.
Proof.
  intros Hs. induction files as [|md later IH]; intros ps; [reflexivity|].
  cbn [main_loop]. unfold process_md_file.
  destruct (w_files (p_world ps) !! md); [|apply IH].
  rewrite (rewrite_all_agree _ _ s1 s2 _ _ Hs).
  destruct (rewrite_all _ _ s2 _ _) as [t st|e st]; [|apply IH].
  destruct (if overwrite then _ else _); apply IH.
Qed.

(** The options for the timeout and the number of retries have no
    effect: two runs that differ in them only do the same, request by
    request; and every request is made with the timeout of 20 seconds, so
    that what the remote side would answer under another timeout is never
    asked for. *)
Theorem main_ignores_timeout_and_retries (args args' : Args)
    (network network' : Headers -> Session) (ps : Process) :
  a_target args' = a_target args -> a_out_dir args' = a_out_dir args ->
  a_overwrite args' = a_overwrite args -> a_azdo_pat args' = a_azdo_pat args ->
  (forall h i url, network' h i url 20%Z = network h i url 20%Z) ->
  main args' network' ps = main args network ps.
Proof.
  intros Ht Ho Hw Hp Hn. unfold main. rewrite Ht, Ho, Hw, Hp.
  destruct (find_md _ _) as [|md later]; [reflexivity|]. f_equal.
  apply main_loop_agree. intros i u. apply Hn.
Qed.

End MainFacts.

(** ** The dictionary of reference definitions *)

Lemma finditer_from_match ic r text :
  forall prev skip m,
    m ∈ finditer_from ic r prev skip text ->
    exists prev' text', match_at ic r prev' text' = Some m.
Proof.
  induction text as [|c t IH]; intros prev skip m Hm.
  - destruct skip; [|by apply elem_of_nil in Hm]. simpl in Hm.
    destruct (match_at ic r prev []) as [m0|] eqn:E; [|by apply elem_of_nil in Hm].
    apply list_elem_of_singleton in Hm as ->. eauto.
  - destruct skip as [|n]; [|by apply IH in Hm]. simpl in Hm.
    destruct (match_at ic r prev (c :: t)) as [m0|] eqn:E; [|by apply IH in Hm].
    apply elem_of_cons in Hm as [->|Hm]; [eauto|by apply IH in Hm].
Qed.

(** A dictionary filled entry by entry: the last entry of a key stays. *)
Lemma fill_lookup {A V} (kf : A -> str) (vf : A -> V) (ms : list A) :
  forall (init : gmap str V) i,
    foldl (fun defs m => <[kf m := vf m]> defs) init ms !! i =
    match last (filter (fun m => kf m = i) ms) with
    | Some m => Some (vf m)
    | None => init !! i
    end.
Proof.
  induction ms as [|m ms IH]; intros init i; [reflexivity|].
  cbn [foldl]. rewrite IH. rewrite filter_cons.
  destruct (decide (kf m = i)) as [<-|Hne].
  - destruct (filter _ ms) as [|m1 l] eqn:E.
    + cbn [last]. by rewrite lookup_insert_eq.
    + change (last (m :: m1 :: l)) with (last (m1 :: l)).
      destruct (last (m1 :: l)) eqn:El; [reflexivity|].
      by apply last_None in El.
  - destruct (last _); [reflexivity|]. by rewrite lookup_insert_ne.
Qed.

Lemma filter_none {A} (P : A -> Prop) `{!forall x, Decision (P x)} (l : list A) :
  (forall x, x ∈ l -> ~ P x) -> filter P l = [].
Proof.
  induction l as [|a l IH]; intros Hl; [reflexivity|].
  rewrite filter_cons, decide_False by (apply Hl; left).
  apply IH. intros x Hx. apply Hl. by right.
Qed.

Section RefDefs.
Context `{PyLib}.

(** The dictionary of reference definitions.  Every entry comes from
    a match of the definition pattern: its key is the id, not empty and
    without a closing bracket, its URL is not empty and holds no white
    space, and its title, if any, holds no double quote.  When an id is
    defined more than once, the entry is that of the last definition.  An id
    that no definition has is not a key. *)
Theorem parse_ref_defs_entries (text : str) :
  (forall i u t,
     parse_ref_defs text !! i = Some (u, t) ->
     i <> [] /\ Forall (fun a => a <> "]"%char) i /\
     u <> [] /\ Forall (fun a => is_space a = false) u /\
     (forall title, t = Some title -> Forall (fun a => a <> dq) title) /\
     exists m, m ∈ finditer true MD_REF_DEF text /\
               group m g_id = Some i /\ group m g_url = Some u /\ group m g_title = t) /\
  (forall ms1 m ms2,
     finditer true MD_REF_DEF text = ms1 ++ m :: ms2 ->
     (forall m', m' ∈ ms2 -> group m' g_id <> group m g_id) ->
     parse_ref_defs text !! default [] (group m g_id)
     = Some (default [] (group m g_url), group m g_title)) /\
  (forall i,
     (forall m, m ∈ finditer true MD_REF_DEF text -> group m g_id <> Some i) ->
     parse_ref_defs text !! i = None).
Proof.
  assert (Hshape : forall m, m ∈ finditer true MD_REF_DEF text ->
            exists ref_id url,
              group m g_id = Some ref_id /\ group m g_url = Some url /\
              ref_id <> [] /\ Forall (fun a => a <> "]"%char) ref_id /\
              url <> [] /\ Forall (fun a => is_space a = false) url /\
              (forall title, group m g_title = Some title ->
                             Forall (fun a => a <> dq) title)).
  { intros m Hm. apply finditer_from_match in Hm as (prev & text' & Hm).
    apply ref_def_shape in Hm
      as (ref_id & ws1 & url & ws3 & rest & _ & _ & _ & Hi & Hu & Hine & Hic & Hune
          & Huc & _ & _ & Ht).
    exists ref_id, url. repeat split; try assumption.
    intros title Htitle.
    destruct Ht as [[Hnone _]|(ws2 & title' & Hsome & _ & _ & Hq & _)]; [congruence|].
    rewrite Hsome in Htitle. by injection Htitle as <-. }
  unfold parse_ref_defs. split; [|split].
  - intros i u t. rewrite fill_lookup, lookup_empty.
    destruct (last _) as [m|] eqn:El; [|discriminate]. intros [= <- <-].
    apply last_Some_elem_of, list_elem_of_filter in El as [Hk Hin].
    destruct (Hshape m Hin) as (ref_id & url & Hi & Hu & Hine & Hic & Hune & Huc & Ht).
    rewrite Hi in Hk. simpl in Hk. subst i. rewrite Hu. simpl.
    repeat split; try assumption. exists m. auto.
  - intros ms1 m ms2 Hsplit Hlast. rewrite fill_lookup, Hsplit, filter_app, filter_cons.
    rewrite decide_True by reflexivity.
    assert (Hnil : filter (fun m0 => default [] (group m0 g_id) = default [] (group m g_id))
                     ms2 = []).
    { apply filter_none. intros m' Hin' Hk.
      assert (Hm : m ∈ finditer true MD_REF_DEF text)
        by (rewrite Hsplit; apply elem_of_app; right; left).
      assert (Hm' : m' ∈ finditer true MD_REF_DEF text)
        by (rewrite Hsplit; apply elem_of_app; right; by right).
      destruct (Hshape m Hm) as (i & _ & Hi & _).
      destruct (Hshape m' Hm') as (i' & _ & Hi' & _).
      apply (Hlast m' Hin'). rewrite Hi, Hi' in Hk. rewrite Hi, Hi'.
      simpl in Hk. by rewrite Hk. }
    rewrite Hnil, last_snoc. reflexivity.
  - intros i Hno. rewrite fill_lookup, lookup_empty.
    destruct (last _) as [m|] eqn:El; [|reflexivity].
    apply last_Some_elem_of, list_elem_of_filter in El as [Hk Hin].
    destruct (Hshape m Hin) as (ref_id & _ & Hi & _).
    destruct (Hno m Hin). rewrite Hi in Hk. rewrite Hi. simpl in Hk.
    by rewrite Hk.
Qed.

End RefDefs.

(** ** The HTML rewriter *)

Lemma rmatch_wordb ic k st res :
  rmatch ic Wordb k st = Some res -> k st = Some res.
Proof. simpl. by destruct (xorb _ _). Qed.

Lemma rmatch_ref ic g k st res :
  rmatch ic (Ref g) k st = Some res ->
  exists v, group_of (ms_groups st) g = Some v /\
            prefix_fold ic v (ms_rest st) = true /\
            k (advance (length v) st) = Some res.
Proof.
  simpl. destruct (group_of (ms_groups st) g) as [v|]; [|discriminate].
  destruct (prefix_fold ic v (ms_rest st)) eqn:E; [|discriminate]. eauto.
Qed.

(** The quote characters, with or without IGNORECASE. *)
Lemma quote_mem ic a :
  cset_mem ic (COneOf [dq; sq]) a = true -> a = dq \/ a = sq.
Proof.
  destruct ic, a as [[] [] [] [] [] [] [] []]; vm_compute; intros Hm;
    first [discriminate | by left | by right].
Qed.

Lemma eq_fold_quote ic q b :
  q = dq \/ q = sq -> eq_fold ic q b = true -> b = q.
Proof.
  intros Hq He. apply (eq_fold_plain ic b q); [by destruct Hq as [-> | ->]|].
  unfold eq_fold in *. destruct ic; by rewrite ascii_eqb_sym.
Qed.

Lemma lit_fold_lower (pre l : str) :
  Forall2 (fun a c => eq_fold true a c = true) pre l -> lower_str pre = lower_str l.
Proof.
  induction 1 as [|a c pre l Hac _ IH]; [reflexivity|].
  unfold lower_str in *. cbn [map]. rewrite IH. f_equal.
  unfold eq_fold, ascii_eqb in Hac. by apply bool_decide_eq_true in Hac.
Qed.

Lemma not_gt_all ic (l : str) :
  Forall (fun a => cset_mem ic (CNoneOf (lit ">")) a = true) l ->
  Forall (fun a => a <> ">"%char) l.
Proof. apply (none_of_all ic ">"%char). reflexivity. Qed.

(** What a match of the tag pattern looks like. *)
Lemma html_shape prev text m :
  match_at true HTML_IMG prev text = Some m ->
  exists opening attrs name q src rest_of_tag rest,
    text = m_group0 m ++ rest /\
    m_group0 m = opening ++ attrs ++ name ++ q :: src ++ q :: rest_of_tag ++ lit ">" /\
    lower_str opening = lit "<img" /\ lower_str name = lit "src=" /\
    (q = dq \/ q = sq) /\ src <> [] /\
    Forall (fun a => a <> ">"%char) attrs /\
    Forall (fun a => a <> ">"%char) rest_of_tag /\
    group m g_q = Some [q] /\ group m g_src = Some src.
Proof.
  intros Hm. apply match_at_inv in Hm as (st & Hm & ->).
  unfold HTML_IMG in Hm.
  rewrite rmatch_seq in Hm. apply rmatch_lit in Hm as (opening & t1 & -> & Hopen & Hm).
  rewrite rmatch_seq in Hm. apply rmatch_wordb in Hm.
  rewrite rmatch_seq in Hm. apply star_chr in Hm as (attrs & t2 & -> & Hattrs & Hm).
  rewrite rmatch_seq in Hm. apply rmatch_wordb in Hm.
  rewrite rmatch_seq in Hm. apply rmatch_lit in Hm as (name & t3 & -> & Hname & Hm).
  rewrite rmatch_seq, rmatch_grp in Hm.
  apply rmatch_chr in Hm as (q & t4 & -> & Hq & Hm). apply quote_mem in Hq.
  cbn [ms_rest length] in Hm.
  replace (S (length t4) - length t4) with 1 in Hm by lia.
  change (take 1 (q :: t4)) with [q] in Hm. unfold set_group in Hm. cbn [ms_prev ms_rest ms_groups] in Hm.
  rewrite rmatch_seq, rmatch_grp in Hm.
  apply plus_chr in Hm as (src & t5 & -> & Hsrc & _ & Hm). norm_state Hm.
  rewrite rmatch_seq in Hm.
  apply rmatch_ref in Hm as (v & Hv & Hpre & Hm).
  cbn in Hv. injection Hv as <-. cbn [ms_rest] in Hpre.
  destruct t5 as [|b t6]; [discriminate|]. cbn [prefix_fold] in Hpre.
  apply andb_prop in Hpre as [Hb _]. apply (eq_fold_quote true q b Hq) in Hb as ->.
  unfold advance in Hm. cbn [length ms_rest ms_prev ms_groups] in Hm.
  change (drop 1 (q :: t6)) with t6 in Hm.
  rewrite rmatch_seq in Hm. apply star_chr in Hm as (tail & t7 & -> & Htail & Hm).
  apply rmatch_lit_plain in Hm as (t8 & -> & [= <-]); [|reflexivity].
  exists opening, attrs, name, q, src, tail, t8. cbn [ms_rest ms_groups m_group0].
  assert (Hall : opening ++ attrs ++ name ++ q :: src ++ q :: tail ++ lit ">" ++ t8
                 = (opening ++ attrs ++ name ++ q :: src ++ q :: tail ++ lit ">") ++ t8).
  { rewrite <- !app_assoc. do 3 f_equal. cbn [app]. f_equal. rewrite <- app_assoc.
    f_equal. cbn [app]. f_equal. by rewrite <- app_assoc. }
  rewrite Hall, take_app_consumed.
  split; [reflexivity|]. split; [reflexivity|].
  split; [exact (lit_fold_lower _ _ Hopen)|]. split; [exact (lit_fold_lower _ _ Hname)|].
  split; [exact Hq|]. split; [exact Hsrc|].
  split; [by eapply not_gt_all|]. split; [by eapply not_gt_all|].
  split; reflexivity.
Qed.

(** What a match of the pattern of the inner substitution looks like. *)
Lemma src_attr_shape prev text m :
  match_at false SRC_ATTR prev text = Some m ->
  exists q value,
    m_group0 m = lit "src=" ++ q :: value ++ [q] /\ (q = dq \/ q = sq) /\
    Forall (fun a => a <> nl) value.
Proof.
  intros Hm. apply match_at_inv in Hm as (st & Hm & ->).
  unfold SRC_ATTR in Hm.
  rewrite rmatch_seq in Hm. apply rmatch_wordb in Hm.
  rewrite rmatch_seq in Hm. apply rmatch_lit in Hm as (name & t1 & -> & Hname & Hm).
  assert (name = lit "src=") as ->.
  { clear Hm. remember (lit "src=") as l eqn:Hl. clear Hl.
    induction Hname as [|a c pre l Hac _ IH]; [reflexivity|]. f_equal; [|exact IH].
    unfold eq_fold, ascii_eqb in Hac. by apply bool_decide_eq_true in Hac. }
  rewrite rmatch_seq, rmatch_grp in Hm.
  apply rmatch_chr in Hm as (q & t2 & -> & Hq & Hm). apply quote_mem in Hq.
  cbn [ms_rest length] in Hm.
  replace (S (length t2) - length t2) with 1 in Hm by lia.
  change (take 1 (q :: t2)) with [q] in Hm. unfold set_group in Hm. cbn [ms_prev ms_rest ms_groups] in Hm.
  rewrite rmatch_seq in Hm. apply star_chr in Hm as (value & t3 & -> & Hvalue & Hm).
  apply rmatch_ref in Hm as (v & Hv & Hpre & Hm).
  cbn in Hv. injection Hv as <-. cbn [ms_rest] in Hpre.
  destruct t3 as [|b t4]; [discriminate|]. cbn [prefix_fold] in Hpre.
  apply andb_prop in Hpre as [Hb _]. apply (eq_fold_quote false q b Hq) in Hb as ->.
  unfold advance in Hm. cbn [length ms_rest ms_prev ms_groups] in Hm.
  change (drop 1 (q :: t4)) with t4 in Hm. injection Hm as <-.
  exists q, value. cbn [ms_rest m_group0].
  assert (Hall : lit "src=" ++ q :: value ++ q :: t4
                 = (lit "src=" ++ q :: value ++ [q]) ++ t4).
  { rewrite <- app_assoc. f_equal. cbn [app]. f_equal. by rewrite <- app_assoc. }
  rewrite Hall, take_app_consumed. split; [reflexivity|]. split; [exact Hq|].
  eapply Forall_impl; [exact Hvalue|]. intros a Ha ->. discriminate.
Qed.

Lemma search_from_split ic r text :
  forall prev before m after,
    search_from ic r prev text = Some (before, m, after) ->
    text = before ++ m_group0 m ++ after /\
    match_at ic r (last_char prev before) (m_group0 m ++ after) = Some m.
Proof.
  induction text as [|c t IH]; intros prev before m after Hs; simpl in Hs.
  - destruct (match_at ic r prev []) as [m0|] eqn:Hm; [|discriminate].
    injection Hs as <- <- <-. pose proof Hm as Hm'.
    apply match_at_group0 in Hm as [n Hn].
    assert (Hnil : m_group0 m0 = []) by (rewrite Hn; by destruct n).
    rewrite Hnil. simpl. auto.
  - destruct (match_at ic r prev (c :: t)) as [m0|] eqn:Hm.
    + injection Hs as <- <- <-. pose proof Hm as Hm'.
      apply match_at_group0 in Hm as [n Hn].
      assert (Hcut : m_group0 m0 ++ drop (length (m_group0 m0)) (c :: t) = c :: t)
        by (rewrite Hn; apply take_drop_taken).
      rewrite Hcut. cbn [app]. auto.
    + destruct (search_from ic r (Some c) t) as [[[b m1] a]|] eqn:Hrec; [|discriminate].
      injection Hs as <- <- <-. apply IH in Hrec as [-> Hm1].
      rewrite last_char_cons. auto.
Qed.

(** A template without a backslash stands for itself. *)
Lemma parse_template_plain ngroups (t : str) :
  forall fuel, length t <= fuel -> mem bs t = false ->
    parse_template fuel ngroups t = Some (map TChar t).
Proof.
  induction t as [|c t IH]; intros fuel Hf Hb.
  - by destruct fuel.
  - destruct fuel as [|fuel]; [simpl in Hf; lia|].
    rewrite mem_cons in Hb. apply orb_false_elim in Hb as [Hc Hb].
    rewrite ascii_eqb_sym in Hc. cbn [parse_template]. rewrite Hc. cbn [negb].
    rewrite IH; [reflexivity|simpl in Hf; lia|exact Hb].
Qed.

Lemma expand_chars (t : str) m : expand (map TChar t) m = t.
Proof. induction t as [|c t IH]; [reflexivity|]. cbn [map expand]. by rewrite IH. Qed.

(** A backslash before a letter that is no escape is an error. *)
Lemma bad_escape c :
  is_alpha c = true -> mem c (lit "abfnrtvg") = false ->
  ascii_eqb c "g" = false /\ ascii_eqb c "0" = false /\ is_digit c = false /\
  escape_char c = None.
Proof.
  destruct c as [[] [] [] [] [] [] [] []]; vm_compute; intros Ha Hm;
    first [discriminate | auto].
Qed.

Lemma parse_template_bad ngroups (pre : str) c (rest : str) :
  mem bs pre = false -> is_alpha c = true -> mem c (lit "abfnrtvg") = false ->
  forall fuel, length (pre ++ bs :: c :: rest) <= fuel ->
    parse_template fuel ngroups (pre ++ bs :: c :: rest) = None.
Proof.
  intros Hpre Hc Hesc. destruct (bad_escape c Hc Hesc) as (Hg & H0 & Hd & He).
  induction pre as [|a pre IH]; intros fuel Hf.
  - destruct fuel as [|fuel]; [reflexivity|]. cbn [app parse_template].
    unfold ascii_eqb at 1. rewrite bool_decide_eq_true_2 by reflexivity. cbn [negb].
    by rewrite Hg, H0, Hd, He, Hc.
  - destruct fuel as [|fuel]; [simpl in Hf; lia|].
    rewrite mem_cons in Hpre. apply orb_false_elim in Hpre as [Ha Hpre].
    rewrite ascii_eqb_sym in Ha. cbn [app parse_template]. rewrite Ha. cbn [negb].
    rewrite IH; [reflexivity|exact Hpre|simpl in Hf; lia].
Qed.

(** What the tag pattern matches: the letters [<img] in any case,
    then text without a closing angle bracket, the letters [src=] in any
    case, a double or single quote, a value that is not empty, the same quote
    again, text without a closing angle bracket, and the closing angle
    bracket.  The groups are the quote and the value; the value is taken
    whatever it holds, line breaks and angle brackets included. *)
Theorem html_match_shape (prev : option ascii) (text : str) (m : Match) :
  match_at true HTML_IMG prev text = Some m ->
  exists opening attrs name q src rest_of_tag rest,
    text = m_group0 m ++ rest /\
    m_group0 m = opening ++ attrs ++ name ++ q :: src ++ q :: rest_of_tag ++ lit ">" /\
    lower_str opening = lit "<img" /\ lower_str name = lit "src=" /\
    (q = dq \/ q = sq) /\ src <> [] /\
    Forall (fun a => a <> ">"%char) attrs /\
    Forall (fun a => a <> ">"%char) rest_of_tag /\
    group m g_q = Some [q] /\ group m g_src = Some src.
Proof. apply html_shape. Qed.

Section HtmlFacts.
Context `{PyLib}.

(** The tag after a successful fetch, for a local path without a
    backslash.  The quote character [q] of the matched attribute is a double
    or a single quote.  If the tag holds an attribute spelled [src=] in lower
    case whose quoted value stays on one line, the first such attribute is
    replaced by [src=], [q], the local path, [q], and the rest of the tag is
    kept character by character; if the tag holds none, it is returned as it
    is. *)
Theorem html_src_rewritten (out_dir : str) (session : Session) (base : str)
    (prev : option ascii) (text : str) (m : Match) (st st' : RState) (p : str) :
  match_at true HTML_IMG prev text = Some m ->
  is_http_url (default [] (group m g_src)) = true ->
  local_path_of (default [] (group m g_src)) out_dir session base st = Ok (Some p) st' ->
  mem bs p = false ->
  exists q,
    group m g_q = Some [q] /\ (q = dq \/ q = sq) /\
    ((exists before m' after q' value,
        search_from false SRC_ATTR None (m_group0 m) = Some (before, m', after) /\
        m_group0 m = before ++ lit "src=" ++ q' :: value ++ q' :: after /\
        (q' = dq \/ q' = sq) /\ Forall (fun a => a <> nl) value /\
        repl_html out_dir session base m st
          = Ok (before ++ lit "src=" ++ q :: p ++ q :: after) st') \/
     (search_from false SRC_ATTR None (m_group0 m) = None /\
      repl_html out_dir session base m st = Ok (m_group0 m) st')).
Proof.
  intros Hm Hu Hloc Hp.
  destruct (html_shape prev text m Hm)
    as (opening & attrs & name & q & src & tail & rest & _ & _ & _ & _ & Hq & _ & _ & _
        & Hgq & _).
  exists q. split; [exact Hgq|]. split; [exact Hq|].
  unfold repl_html. rewrite Hu. cbn [negb]. unfold bind. rewrite Hloc, Hgq. simpl default.
  unfold sub_template_once.
  assert (Hplain : mem bs (lit "src=" ++ [q] ++ p ++ [q]) = false).
  { rewrite !mem_app, Hp. by destruct Hq as [-> | ->]. }
  rewrite (parse_template_plain 1 _ _ (Nat.le_refl _) Hplain).
  destruct (search_from false SRC_ATTR None (m_group0 m)) as [[[before m'] after]|] eqn:Hs.
  - left. pose proof (search_from_split _ _ _ _ _ _ _ Hs) as [Hsplit Hm'].
    apply src_attr_shape in Hm' as (q' & value & Hshape & Hq' & Hvalue).
    exists before, m', after, q', value. split; [reflexivity|].
    split; [|split; [exact Hq'|split; [exact Hvalue|]]].
    + rewrite Hsplit at 1. rewrite Hshape. f_equal. rewrite <- app_assoc. f_equal.
      cbn [app]. f_equal. by rewrite <- app_assoc.
    + rewrite expand_chars. do 2 f_equal. by rewrite <- !app_assoc.
  - right. split; reflexivity.
Qed.

(** A local path with a backslash.  The local path is handed to the
    inner substitution as a replacement template, so a backslash in it is read
    as an escape.  When the first backslash of the path stands before a
    letter other than a, b, f, n, r, t, v and g (as in a relative path
    written with backslashes whose file name starts with such a letter), the
    template is refused: the rewriter raises, after the image has been fetched
    and cached. *)
Theorem html_backslash_path_raises (out_dir : str) (session : Session) (base : str)
    (prev : option ascii) (text : str) (m : Match) (st st' : RState)
    (pre : str) (c : ascii) (rest : str) :
  match_at true HTML_IMG prev text = Some m ->
  is_http_url (default [] (group m g_src)) = true ->
  local_path_of (default [] (group m g_src)) out_dir session base st
    = Ok (Some (pre ++ bs :: c :: rest)) st' ->
  mem bs pre = false -> is_alpha c = true -> mem c (lit "abfnrtvg") = false ->
  repl_html out_dir session base m st
    = Raise (ReError (lit "bad replacement template")) st'.
Proof.
  intros Hm Hu Hloc Hpre Hc Hesc.
  destruct (html_shape prev text m Hm)
    as (opening & attrs & name & q & src & tail & rest' & _ & _ & _ & _ & Hq & _ & _ & _
        & Hgq & _).
  unfold repl_html. rewrite Hu. cbn [negb]. unfold bind. rewrite Hloc, Hgq. simpl default.
  unfold sub_template_once.
  assert (Hshape : lit "src=" ++ [q] ++ (pre ++ bs :: c :: rest) ++ [q]
                   = (lit "src=" ++ [q] ++ pre) ++ bs :: c :: (rest ++ [q])).
  { rewrite <- !app_assoc. do 3 f_equal. }
  rewrite Hshape.
  rewrite (parse_template_bad 1 (lit "src=" ++ [q] ++ pre) c (rest ++ [q]));
    [reflexivity| |exact Hc|exact Hesc|reflexivity].
  rewrite !mem_app, Hpre. by destruct Hq as [-> | ->].
Qed.

End HtmlFacts.

(** ** Concrete runs *)

Import Run.

(** C4, the claim as stated fails: two distinct URLs with the same last
    segment [logo.png] share the ten-digit fingerprint [e703431723], so both
    are saved as [logo_e703431723.png]. *)
Lemma filename_collision :
  url_a <> url_b /\
  (path <$> urlparse url_a) = Some (lit "/1037987/logo.png") /\
  (path <$> urlparse url_b) = Some (lit "/1299915/logo.png") /\
  basename (lit "/1037987/logo.png") = basename (lit "/1299915/logo.png") /\
  safe_filename_from_url url_a (Some (lit "image/png")) = Some (lit "logo_e703431723.png") /\
  safe_filename_from_url url_b (Some (lit "image/png")) = Some (lit "logo_e703431723.png").
Proof.
  split; [discriminate|]. repeat split; vm_compute; reflexivity.
Qed.

(** C4 at a concrete URL: [https://host/img.png] served as [image/png]. *)
Lemma filename_derivation_witness :
  exists stem ext,
    safe_filename_from_url (lit "https://host/img.png") (Some (lit "image/png"))
      = Some (stem ++ lit "_" ++ fingerprint (lit "https://host/img.png") ++ ext) /\
    stem = lit "img" /\ ext = lit ".png" /\
    fingerprint (lit "https://host/img.png") = lit "5cecb4b2c4".
Proof.
  assert (Hp : urlparse (lit "https://host/img.png")
               = Some (MkParse (lit "https") (lit "/img.png")))
    by (vm_compute; reflexivity).
  destruct (filename_derivation (lit "https://host/img.png") (Some (lit "image/png"))
              (MkParse (lit "https") (lit "/img.png")) Hp)
    as (stem & ext & Hname & _ & _ & _ & Hstem & _ & Hext & _).
  exists stem, ext. split; [exact Hname|].
  assert (He : ext = lit ".png") by (apply Hext; vm_compute; discriminate).
  split; [|split; [exact He|vm_compute; reflexivity]].
  subst ext. vm_compute in Hstem. apply (app_inv_tail (lit ".png")). exact Hstem.
Defined.

(** C1, the code at the failing input.  The last segment of the URL is
    [a%20b.png].  The first run finds one reference, fetches it without any
    failure and splices the decoded file name, with its space, into the
    reference.  The inline pattern takes no white space inside a URL, so it
    does not match the rewritten reference any more; what it finds in the
    text of the first run is the image inside the title.  The second run
    makes a request for that image and writes a different text.  The same
    document with [ab.png] is rewritten by the first run to a text in which
    the pattern finds the rewritten reference, and the second run makes no
    request and leaves everything as it is. *)
Lemma second_run_fetches :
  let out1 := lit "![a](images/a b_424cb72230.png " ++ quoted "![t](https://h/2.png)"
              ++ lit ")" in
  let plain1 := lit "![a](images/ab_791e1e89e4.png " ++ quoted "![t](https://h/2.png)"
                ++ lit ")" in
  (fun m => group m g_url) <$> finditer true MD_IMG_INLINE nested_doc
    = [Some (lit "https://h/a%20b.png")] /\
  returned nested_first = Some md /\
  w_stderr (final_state nested_first) = [] /\
  w_gets (final_state nested_first) = [lit "https://h/a%20b.png"] /\
  w_files (final_state nested_first) !! lit "/docs/images/a b_424cb72230.png"
    = Some (lit "DATA") /\
  w_files (final_state nested_first) !! md = Some out1 /\
  (fun m => group m g_url) <$> finditer true MD_IMG_INLINE out1
    = [Some (lit "https://h/2.png")] /\
  returned nested_second = Some md /\
  w_gets (final_state nested_second) = [lit "https://h/2.png"; lit "https://h/a%20b.png"] /\
  w_files (final_state nested_second) !! md
    = Some (lit "![a](images/a b_424cb72230.png "
            ++ quoted "![t](images/2_eb75fd6b38.png)" ++ lit ")") /\
  returned plain_first = Some md /\
  w_gets (final_state plain_first) = [lit "https://h/ab.png"] /\
  w_files (final_state plain_first) !! md = Some plain1 /\
  (fun m => group m g_url) <$> finditer true MD_IMG_INLINE plain1
    = [Some (lit "images/ab_791e1e89e4.png")] /\
  process_md_file md (lit "images") true serve_all (final_state plain_first)
    = Ok md (final_state plain_first).
Proof. repeat split; vm_compute; reflexivity. Qed.

Lemma remote_free_dec r g text :
  forallb (fun m => negb (is_http_url (default [] (group m g)))) (finditer true r text)
    = true ->
  remote_free r g text.
Proof.
  unfold remote_free. intros Hall. apply List.Forall_forall. intros m Hm.
  rewrite forallb_forall in Hall. specialize (Hall m Hm). by apply negb_true_iff in Hall.
Qed.

(** C2, the claim as stated fails.  The server answers 503 to everything;
    the URL occurs twice, and each occurrence is fetched with its own three
    attempts and its own warning: six requests for the one URL.  The same
    happens with a server that answers every request with the image when the
    file cannot be opened: the last segment [a%00b.png] decodes to a name
    with a NUL, every attempt fails at [open], and the two occurrences make
    six requests.  And when the first body breaks off, a URL that occurs once
    is requested twice. *)
Lemma failed_fetch_repeated :
  let r := process_md_file md (lit "images") true serve_none (docs twice_doc) in
  let r0 := process_md_file md (lit "images") true serve_all (docs nul_doc) in
  let r1 := process_md_file md (lit "images") true serve_broken_first (docs once_doc) in
  returned r = Some md /\
  gets_of (lit "https://host/a.png") (final_state r) = 6 /\
  length (w_stderr (final_state r)) = 2 /\
  w_slept (final_state r) = [2; 1; 2; 1]%Z /\
  w_files (final_state r) !! md = Some twice_doc /\
  returned r0 = Some md /\
  gets_of (lit "https://h/a%00b.png") (final_state r0) = 6 /\
  w_stderr (final_state r0)
    = [lit "[WARN] download failed: https://h/a%00b.png -> embedded null byte" ++ [nl];
       lit "[WARN] download failed: https://h/a%00b.png -> embedded null byte" ++ [nl]] /\
  w_files (final_state r0) !! md = Some nul_doc /\
  returned r1 = Some md /\
  gets_of (lit "https://host/a.png") (final_state r1) = 2 /\
  w_files (final_state r1) !! md = Some (lit "![a](images/a_630a3d779b.png)").
Proof. repeat split; vm_compute; reflexivity. Qed.

Lemma serve_all_always url : always_served serve_all url.
Proof.
  intros i t. exists (ok_png "DATA"). split; [reflexivity|]. split; [|reflexivity].
  unfold passes_status. simpl. lia.
Qed.

Lemma storable_a_png : storable images (lit "https://host/a.png").
Proof.
  intros ct fname Hf.
  rewrite (safe_filename_eq _ _ (MkParse (lit "https") (lit "/a.png"))) in Hf
    by (vm_compute; reflexivity).
  vm_compute in Hf. injection Hf as <-. split; vm_compute; reflexivity.
Qed.

(** C2 at the document of the claim: the URL as an inline image and in an
    HTML tag.  One request is made, and both references get the same path. *)
Lemma cache_consistency_witness :
  let st := MkRState (docs mixed_doc) ∅ in
  let r := rewrite_all mixed_doc images serve_all (lit "/docs") st in
  gets_of (lit "https://host/a.png") (world (final_state r)) = 1 /\
  cache (final_state r) !! lit "https://host/a.png" = Some (lit "images/a_630a3d779b.png") /\
  returned r = Some (lit "![a](images/a_630a3d779b.png)" ++ [nl] ++ lit "<img src="
                     ++ quoted "images/a_630a3d779b.png" ++ lit ">").
Proof.
  intros st r.
  destruct (cache_consistency mixed_doc images serve_all (lit "/docs") st
              (lit "https://host/a.png")) as (_ & _ & _ & _ & _ & Hserved).
  destruct (Hserved (serve_all_always _) storable_a_png eq_refl) as [[Hnone _]|[_ Hone]].
  - vm_compute in Hnone. discriminate.
  - split; [exact Hone|]. split; vm_compute; reflexivity.
Defined.

(** C5, the claim as stated fails.  The first response is a 503 and the
    second a 200, and the fetch fails all the same.  For the URL with the
    last segment [a%00b.png] the file name holds a NUL: the attempt that got
    the 200 fails at [open], and so does the next one.  For a 200 whose body
    breaks off after [PAR], the attempt fails after writing, and the 503
    that follows ends the call with failure.  With a negative retry budget
    the call returns failure without an attempt and without a warning, and
    when a regular file stands in the place of the directory the call
    raises before any attempt. *)
Lemma ok_response_not_enough :
  let r := download (lit "https://h/a%00b.png") images (serve_after 1) 2 20 (docs []) in
  let r0 := download (lit "https://host/img.png") images serve_503_broken_503 2 20
              (docs []) in
  (status_code <$> [unavailable; ok_png "DATA"; ok_png "DATA"]) = [503; 200; 200]%Z /\
  returned r = Some None /\
  w_gets (final_state r)
    = [lit "https://h/a%00b.png"; lit "https://h/a%00b.png"; lit "https://h/a%00b.png"] /\
  w_stderr (final_state r)
    = [lit "[WARN] download failed: https://h/a%00b.png -> embedded null byte" ++ [nl]] /\
  w_files (final_state r) = w_files (docs []) /\
  (status_code <$> [unavailable; broken_png; unavailable]) = [503; 200; 503]%Z /\
  returned r0 = Some None /\
  w_gets (final_state r0)
    = [lit "https://host/img.png"; lit "https://host/img.png"; lit "https://host/img.png"] /\
  w_stderr (final_state r0)
    = [lit "[WARN] download failed: https://host/img.png -> 503 Service Unavailable"
       ++ [nl]] /\
  w_files (final_state r0) !! lit "/docs/images/img_5cecb4b2c4.png" = Some (lit "PAR") /\
  download (lit "https://host/img.png") images serve_none (-1) 20 (docs [])
    = Ok None (MkWorld {[ md := [] ]} {[ images ]} [] [] []) /\
  download (lit "https://host/img.png") images serve_all 2 20 blocked
    = Raise (FileExistsError images) blocked.
Proof. repeat split; vm_compute; reflexivity. Qed.

(** C5 at a concrete call: 503, then 200. *)
Lemma retry_policy_witness :
  exists r w' n,
    download (lit "https://host/img.png") images (serve_after 1) 2 20 (docs []) = Ok r w' /\
    r = Some (lit "/docs/images/img_5cecb4b2c4.png") /\ n = 2 /\
    w_gets w' = [lit "https://host/img.png"; lit "https://host/img.png"] /\
    w_slept w' = [1%Z] /\ w_stderr w' = [] /\
    w_files w' !! lit "/docs/images/img_5cecb4b2c4.png" = Some (lit "DATA").
Proof.
  destruct (@retry_policy posix_lib (lit "https://host/img.png") images (serve_after 1) 2 20 (docs [])
              ltac:(lia) ltac:(vm_compute; reflexivity))
    as [(r & w' & n & Hd & _ & Hg & Hs & _ & Herr & _ & H503) _].
  destruct (H503 unavailable (ok_png "DATA") (lit "img_5cecb4b2c4.png")
              ltac:(lia) eq_refl eq_refl eq_refl eq_refl eq_refl
              ltac:(vm_compute; reflexivity) ltac:(vm_compute; reflexivity)
              ltac:(vm_compute; reflexivity)) as (Hr & Hn & _ & Hfile).
  exists r, w', n. subst n. split; [exact Hd|]. split; [rewrite Hr; vm_compute; reflexivity|].
  split; [reflexivity|]. split; [exact Hg|]. split; [exact Hs|].
  split; [apply Herr; rewrite Hr; eauto|].
  apply Hfile. intros (content & Hc & _). vm_compute in Hc. discriminate.
Defined.

(** C6, the claim as stated fails.  The file of the derived name is there
    with three bytes and the server answers 503: every attempt fails at the
    status check, before the file is looked for, and the call returns
    failure after three requests.  The file keeps its contents. *)
Lemma existing_file_not_returned :
  let url := lit "https://host/img.png" in
  let r := download url images serve_none 2 20 fetched_before in
  safe_filename_from_url url (Some []) = Some (lit "img_5cecb4b2c4.png") /\
  safe_filename_from_url url (Some (lit "image/png")) = Some (lit "img_5cecb4b2c4.png") /\
  w_files fetched_before !! lit "/docs/images/img_5cecb4b2c4.png" = Some (lit "OLD") /\
  returned r = Some None /\
  w_gets (final_state r) = [url; url; url] /\
  w_stderr (final_state r)
    = [lit "[WARN] download failed: https://host/img.png -> 503 Service Unavailable"
       ++ [nl]] /\
  w_files (final_state r) = w_files fetched_before.
Proof. repeat split; vm_compute; reflexivity. Qed.

(** C6 at a concrete call: the file is there with three bytes; the call
    returns its path and the file keeps its contents. *)
Lemma existing_file_kept_witness :
  let r := download (lit "https://host/img.png") images serve_all 2 20 fetched_before in
  returned r = Some (Some (lit "/docs/images/img_5cecb4b2c4.png")) /\
  w_files (final_state r) = w_files fetched_before /\
  w_gets (final_state r) = [lit "https://host/img.png"].
Proof.
  intros r.
  destruct (@existing_file_kept posix_lib (lit "https://host/img.png") images serve_all 2 20
              fetched_before) as (_ & _ & _ & Hfirst & _).
  destruct (Hfirst (ok_png "DATA") (lit "img_5cecb4b2c4.png") ltac:(lia)
              ltac:(vm_compute; reflexivity) eq_refl ltac:(simpl; lia)
              ltac:(vm_compute; reflexivity) ltac:(vm_compute; reflexivity)
              ltac:(exists (lit "OLD"); split; [vm_compute; reflexivity|discriminate]))
    as (w1 & Hd & Hfiles & Hgets & _).
  subst r. rewrite Hd. cbn [returned final_state].
  split; [vm_compute; reflexivity|]. split; [exact Hfiles|exact Hgets].
Defined.

(** C10, the claim as stated fails.  The first body breaks off after [PAR]
    and the server answers 503 from then on: the two retries fail at the
    status check although the partial file is there, and the call returns
    failure.  For a URL without an extension the file name follows the
    content type: the first body breaks off as [image/png], the retry is
    answered as [image/jpeg], and the image is downloaded under the other
    name while the partial file stays. *)
Lemma partial_file_not_returned :
  let url := lit "https://host/img.png" in
  let r := download url images serve_broken_then_none 2 20 (docs []) in
  let url0 := lit "https://host/img" in
  let r0 := download url0 images serve_broken_then_jpeg 2 20 (docs []) in
  returned r = Some None /\
  w_gets (final_state r) = [url; url; url] /\
  w_files (final_state r) !! lit "/docs/images/img_5cecb4b2c4.png" = Some (lit "PAR") /\
  w_stderr (final_state r)
    = [lit "[WARN] download failed: https://host/img.png -> 503 Service Unavailable"
       ++ [nl]] /\
  returned r0 = Some (Some (lit "/docs/images/img_457da88fa1.jpg")) /\
  w_gets (final_state r0) = [url0; url0] /\
  w_files (final_state r0) !! lit "/docs/images/img_457da88fa1.png" = Some (lit "PAR") /\
  w_files (final_state r0) !! lit "/docs/images/img_457da88fa1.jpg" = Some (lit "DATA").
Proof. repeat split; vm_compute; reflexivity. Qed.

(** C10 at a concrete call: the first body breaks off after [PAR]; the retry
    gets a full response and returns the partial file. *)
Lemma partial_file_kept_witness :
  exists w',
    download (lit "https://host/img.png") images serve_broken_first 2 20 (docs [])
      = Ok (Some (lit "/docs/images/img_5cecb4b2c4.png")) w' /\
    w_files w' !! lit "/docs/images/img_5cecb4b2c4.png" = Some (lit "PAR") /\
    w_gets w' = [lit "https://host/img.png"; lit "https://host/img.png"].
Proof.
  destruct (@partial_file_kept posix_lib (lit "https://host/img.png") images serve_broken_first 20
              (docs []) broken_png (lit "img_5cecb4b2c4.png") (lit "Connection broken")
              eq_refl ltac:(simpl; lia)
              ltac:(vm_compute; reflexivity) ltac:(vm_compute; reflexivity)
              ltac:(vm_compute; reflexivity)
              ltac:(intros (content & Hc & _); vm_compute in Hc; discriminate)
              eq_refl ltac:(vm_compute; discriminate))
    as (_ & _ & _ & Hretry & _).
  destruct (Hretry 2%Z (ok_png "DATA") ltac:(lia) ltac:(vm_compute; reflexivity) eq_refl
              ltac:(simpl; lia) ltac:(vm_compute; reflexivity))
    as (w' & Hd & Hfile & Hgets).
  exists w'. split; [exact Hd|]. split; [exact Hfile|exact Hgets].
Defined.

(** C7, the claim as stated fails: with two spaces before the title, the
    output is not the match with only its URL replaced; one space is left. *)
Lemma inline_spacing_not_kept :
  let r := process_inline spaced_doc images serve_all (lit "/docs")
             (MkRState (docs spaced_doc) ∅) in
  spaced_doc = lit "![a](" ++ lit "https://h/x.png" ++ lit "  " ++ quoted "T" ++ lit ")" /\
  cache (final_state r) !! lit "https://h/x.png" = Some (lit "images/x_b005806741.png") /\
  returned r = Some (lit "![a](" ++ lit "images/x_b005806741.png" ++ lit " " ++ quoted "T"
                     ++ lit ")") /\
  returned r <> Some (lit "![a](" ++ lit "images/x_b005806741.png" ++ lit "  " ++ quoted "T"
                      ++ lit ")").
Proof.
  intros r. split; [reflexivity|]. split; [vm_compute; reflexivity|].
  split; [vm_compute; reflexivity|]. vm_compute. discriminate.
Qed.

(** C7 at the definition of the specification: the definition line is
    rewritten with its id and title, the usage above it is not touched. *)
Lemma reference_rewriting_witness :
  returned (process_ref logo_doc images serve_all (lit "/docs") (MkRState (docs logo_doc) ∅))
  = Some (lit "![Logo][logo]" ++ [nl; nl] ++ lit "[logo]: images/a_b86dafa63b.png "
          ++ quoted "Logo").
Proof.
  destruct (reference_rewriting images serve_all (lit "/docs")) as (_ & _ & Hout).
  destruct (Hout logo_doc (MkRState (docs logo_doc) ∅)) as (_ & _ & _ & ->).
  vm_compute. reflexivity.
Defined.

(** C3 at a document whose references are a relative path, a data URI, a
    mailto link, an anchor and a relative HTML source: every pass returns the
    text as it is and makes no request. *)
Lemma classifier_and_passthrough_witness :
  let st := MkRState (docs local_doc) ∅ in
  is_http_url (lit "data:image/png;base64,AAAA") = false /\
  is_http_url (lit "mailto:x@y.z") = false /\
  is_http_url (lit "img/a.png") = false /\
  is_http_url (lit "HTTPS://host/a.png") = true /\
  rewrite_all local_doc images serve_all (lit "/docs") st = Ok local_doc st.
Proof.
  intros st.
  destruct classifier_and_passthrough as (_ & _ & _ & Hpass).
  destruct (Hpass local_doc images serve_all (lit "/docs") st) as (Hi & Hr & Hh).
  do 4 (split; [vm_compute; reflexivity|]).
  unfold rewrite_all, bind.
  rewrite Hi by (apply remote_free_dec; vm_compute; reflexivity).
  rewrite Hr by (apply remote_free_dec; vm_compute; reflexivity).
  apply Hh. apply remote_free_dec. vm_compute. reflexivity.
Defined.

(** C9 at a concrete document, without overwrite. *)
Lemma output_path_witness :
  exists w',
    process_md_file md (lit "images") false serve_all (docs spaced_doc)
      = Ok (lit "/docs/readme.md.converted") w' /\
    w_files w' !! lit "/docs/readme.md.converted"
      = Some (lit "![a](images/x_b005806741.png " ++ quoted "T" ++ lit ")") /\
    w_files w' !! md = Some spaced_doc.
Proof.
  set (r := rewrite_all spaced_doc images serve_all (lit "/docs")
              (MkRState (docs spaced_doc) ∅)).
  assert (Hpass : rewrite_all (universal_newlines spaced_doc)
            (if negb (is_absolute (lit "images"))
             then resolve (joinpath (parent md) (lit "images")) else lit "images")
            serve_all (resolve (parent md)) (MkRState (docs spaced_doc) ∅)
          = Ok (lit "![a](images/x_b005806741.png " ++ quoted "T" ++ lit ")")
               (final_state r))
    by (vm_compute; reflexivity).
  destruct (output_path md (lit "images") false serve_all (docs spaced_doc) spaced_doc _ _
              ltac:(vm_compute; reflexivity) Hpass
              ltac:(right; vm_compute; discriminate))
    as (out_path & w' & Hrun & _ & Hfile & _ & Hkeep & _).
  destruct (Hkeep eq_refl) as [-> Hdoc]. exists w'.
  split; [exact Hrun|]. split; [exact Hfile|exact Hdoc].
Defined.

(** C8, the code at the failing input.  The tag spells [SRC] in upper case:
    the tag pattern (IGNORECASE) matches it and the image is fetched and
    cached, but the pattern of the inner [re.sub] (no flags) does not match
    [SRC=], so the tag is returned as it was.  The same tag with [src] in
    lower case is rewritten as the claim says. *)
Lemma uppercase_src_not_rewritten :
  let r := process_html upper_tag images serve_all (lit "/docs")
             (MkRState (docs upper_tag) ∅) in
  returned (process_html lower_tag images serve_all (lit "/docs")
              (MkRState (docs lower_tag) ∅))
    = Some (lit "<img src='images/a_8abac870d6.jpg' alt=" ++ quoted "x" ++ lit ">") /\
  (fun m => group m g_src) <$> match_at true HTML_IMG None upper_tag
    = Some (Some (lit "https://host/a.jpg")) /\
  search_from false SRC_ATTR None upper_tag = None /\
  returned r = Some upper_tag /\
  w_gets (world (final_state r)) = [lit "https://host/a.jpg"] /\
  cache (final_state r) !! lit "https://host/a.jpg" = Some (lit "images/a_8abac870d6.jpg") /\
  w_files (world (final_state r)) !! lit "/docs/images/a_8abac870d6.jpg" = Some (lit "DATA").
Proof. repeat split; vm_compute; reflexivity. Qed.

(** A match of the inline pattern at a concrete text is not empty. *)
Lemma patterns_never_match_empty_witness :
  exists m, match_at true MD_IMG_INLINE None (lit "![](u)") = Some m /\ m_group0 m <> [].
Proof.
  eexists. split; [vm_compute; reflexivity|].
  apply (patterns_never_match_empty None (lit "![](u)")). left. vm_compute. reflexivity.
Defined.

(** The file name derived for a concrete URL is one path component. *)
Lemma safe_filename_component_witness :
  safe_filename_from_url (lit "https://host/dir/img.png") None
    = Some (lit "img_da9da843b0.png") /\
  mem slash (lit "img_da9da843b0.png") = false.
Proof.
  assert (Hf : safe_filename_from_url (lit "https://host/dir/img.png") None
               = Some (lit "img_da9da843b0.png")) by (vm_compute; reflexivity).
  split; [exact Hf|]. exact (proj1 (safe_filename_component _ _ _ Hf)).
Defined.

(** ** Concrete runs of the fetcher, the processor and the command line *)

(** A regular file has the name of the directory, or stands above it; and a
    fetch that fails still makes the directory. *)
Lemma download_destination_witness :
  download (lit "https://host/a.png") (lit "/docs/images") serve_all 2 20 site
    = Raise (FileExistsError (lit "/docs/images")) site /\
  download (lit "https://host/a.png") (lit "/docs/images/new") serve_all 2 20 site
    = Raise (NotADirectoryError (lit "/docs/images/new")) site /\
  exists r w',
    download (lit "https://host/a.png") images serve_none 2 20 (docs []) = Ok r w' /\
    images ∈ w_dirs w'.
Proof.
  destruct (@download_destination posix_lib (lit "https://host/a.png") (lit "/docs/images")
              serve_all 2 20 site) as (_ & Hfile & _).
  destruct (@download_destination posix_lib (lit "https://host/a.png")
              (lit "/docs/images/new") serve_all 2 20 site) as (Habove & _).
  destruct (@download_destination posix_lib (lit "https://host/a.png") images serve_none
              2 20 (docs [])) as (_ & _ & Hret).
  split; [|split].
  - apply Hfile; [|vm_compute; eauto].
    intros d Hd. vm_compute in Hd.
    repeat (apply elem_of_cons in Hd as [->|Hd]; [vm_compute; reflexivity|]).
    by apply elem_of_nil in Hd.
  - apply Habove. exists (lit "/docs/images"). split; [|vm_compute; eauto].
    vm_compute. apply elem_of_cons. by left.
  - destruct Hret as (r & w' & Hd & Hin & _); [|vm_compute; reflexivity|by exists r, w'].
    intros d Hd. vm_compute in Hd.
    repeat (apply elem_of_cons in Hd as [->|Hd]; [vm_compute; reflexivity|]).
    by apply elem_of_nil in Hd.
Defined.

Lemma no_file_above_images (text : str) d :
  d ∈ parents images -> w_files (docs text) !! d = None.
Proof.
  intros Hd. vm_compute in Hd.
  repeat (apply elem_of_cons in Hd as [->|Hd]; [vm_compute; reflexivity|]).
  by apply elem_of_nil in Hd.
Qed.

(** The budget -1. *)
Lemma download_negative_budget_witness :
  exists w',
    download (lit "https://host/a.png") images serve_all (-1) 20 (docs []) = Ok None w' /\
    w_gets w' = [] /\ w_stderr w' = [].
Proof.
  destruct (@download_negative_budget posix_lib (lit "https://host/a.png") images serve_all
              (-1) 20 (docs []) ltac:(lia) (no_file_above_images [])
              ltac:(vm_compute; reflexivity))
    as (w' & Hd & Hg & _ & He & _).
  exists w'. split; [exact Hd|]. split; [exact Hg|exact He].
Defined.

(** A fetch that succeeds at once. *)
Lemma download_saves_body_witness :
  exists w',
    download (lit "https://host/img.png") images serve_all 2 20 (docs [])
      = Ok (Some (lit "/docs/images/img_5cecb4b2c4.png")) w' /\
    w_files w' !! lit "/docs/images/img_5cecb4b2c4.png" = Some (lit "DATA") /\
    w_gets w' = [lit "https://host/img.png"] /\ w_slept w' = [] /\ w_stderr w' = [].
Proof.
  destruct (@download_saves_body posix_lib (lit "https://host/img.png") images serve_all
              2 20 (docs []) (ok_png "DATA") (lit "img_5cecb4b2c4.png")
              ltac:(lia) (no_file_above_images []) ltac:(vm_compute; reflexivity)
              eq_refl ltac:(simpl; lia) eq_refl ltac:(vm_compute; reflexivity)
              ltac:(vm_compute; reflexivity) ltac:(vm_compute; reflexivity)
              ltac:(left; vm_compute; reflexivity))
    as (w' & Hd & Hf & Hg & Hs & He).
  exists w'. split; [exact Hd|]. split; [rewrite Hf; vm_compute; reflexivity|].
  split; [exact Hg|]. split; [exact Hs|exact He].
Defined.

(** The image of a URL whose name decodes to a NUL cannot be opened. *)
Lemma download_open_refused_witness :
  exists w',
    download (lit "https://h/a%00b.png") images serve_all 2 20 (docs []) = Ok None w' /\
    w_gets w' = [lit "https://h/a%00b.png"; lit "https://h/a%00b.png";
                 lit "https://h/a%00b.png"] /\
    w_stderr w'
      = [lit "[WARN] download failed: https://h/a%00b.png -> embedded null byte" ++ [nl]] /\
    w_files w' = w_files (docs []).
Proof.
  destruct (@download_open_refused posix_lib (lit "https://h/a%00b.png") images serve_all
              2 20 (docs []) (lit "embedded null byte") ltac:(lia)
              (no_file_above_images []) ltac:(vm_compute; reflexivity))
    as (w' & Hd & Hg & He & Hf).
  - intros i. exists (ok_png "DATA").
    exists (lit "a" ++ [ascii_of_nat 0] ++ lit "b_046385b36f.png").
    split; [reflexivity|]. split; [simpl; lia|].
    split; [vm_compute; reflexivity|]. split; [vm_compute; reflexivity|].
    split; [vm_compute; reflexivity|]. left. vm_compute. reflexivity.
  - exists w'. split; [exact Hd|]. split; [exact Hg|]. split; [exact He|exact Hf].
Defined.

(** What a successful call returns, at a concrete call. *)
Lemma download_returns_file_witness :
  exists w' fname,
    download (lit "https://host/img.png") images serve_all 2 20 (docs [])
      = Ok (Some (joinpath images fname)) w' /\
    mem slash fname = false /\
    is_Some (w_files w' !! joinpath images fname).
Proof.
  destruct (download (lit "https://host/img.png") images serve_all 2 20 (docs []))
    as [[p|] w'|e w'] eqn:Hd; try (vm_compute in Hd; discriminate).
  destruct (@download_returns_file posix_lib _ _ _ _ _ _ _ _ Hd)
    as (ct & fname & _ & -> & Hs & _ & _ & Hex).
  exists w', fname. split; [reflexivity|]. split; [exact Hs|exact Hex].
Defined.

(** The content type and the file name, at concrete URLs. *)
Lemma filename_content_type_witness :
  safe_filename_from_url (lit "https://host/img.png") (Some (lit "text/html"))
    = safe_filename_from_url (lit "https://host/img.png") None /\
  safe_filename_from_url (lit "https://host/img") (Some (lit "image/png; charset=x"))
    = safe_filename_from_url (lit "https://host/img") (Some (lit "image/png")).
Proof.
  destruct (@filename_content_type posix_lib (lit "https://host/img.png")) as (Hext & _).
  destruct (@filename_content_type posix_lib (lit "https://host/img")) as (_ & Hparam & _).
  split.
  - apply (Hext (MkParse (lit "https") (lit "/img.png")));
      [vm_compute; reflexivity|vm_compute; discriminate].
  - apply (Hparam (lit "image/png") (lit " charset=x")); [discriminate|reflexivity].
Defined.

(** A document with an [ftp] URL, an [https] URL and a relative path: one
    request. *)
Lemma only_remote_urls_requested_witness :
  w_gets (final_state (process_md_file md (lit "images") false serve_all (docs schemes_doc)))
    = [lit "https://host/b.png"] /\
  exists parsed, urlparse (lit "https://host/b.png") = Some parsed /\
                 (scheme parsed = lit "http" \/ scheme parsed = lit "https").
Proof.
  destruct (@only_remote_urls_requested posix_lib md (lit "images") false serve_all
              (docs schemes_doc)) as (new & Hn & Hall).
  assert (Hg : w_gets (final_state (process_md_file md (lit "images") false serve_all
                                      (docs schemes_doc))) = [lit "https://host/b.png"])
    by (vm_compute; reflexivity).
  rewrite Hg in Hn. change (w_gets (docs schemes_doc)) with (@nil str) in Hn.
  rewrite app_nil_r in Hn. subst new.
  split; [exact Hg|]. by inversion Hall.
Defined.

(** In the tree, the picture beside the document is not touched. *)
Lemma conversion_frame_witness :
  let w' := final_state (process_md_file (lit "/docs/readme.md") (lit "images") true
                           serve_all tree) in
  w_files w' !! lit "/docs/pic.png" = Some (lit "PNG") /\
  w_dirs w' ⊆ {[ lit "/docs/images" ]}.
Proof.
  intros w'.
  pose proof (@conversion_frame posix_lib (lit "/docs/readme.md") (lit "images") true
                serve_all tree) as Hx.
  cbn zeta in Hx. destruct Hx as (_ & Hkeep & Hdirs).
  split; [apply Hkeep; [discriminate|vm_compute; reflexivity|discriminate]|].
  etransitivity; [exact Hdirs|]. apply union_least; [|apply empty_subseteq].
  apply singleton_subseteq_l. apply elem_of_singleton. vm_compute. reflexivity.
Defined.


(** A document without images whose lines end in CR LF comes back with
    line feeds. *)
Lemma document_without_remote_images_witness :
  process_md_file md (lit "images") true serve_all (docs crlf_doc)
    = Ok md (write_file md (lit "one" ++ [nl] ++ lit "two" ++ [nl]) (docs crlf_doc)) /\
  lit "one" ++ [nl] ++ lit "two" ++ [nl] <> crlf_doc.
Proof.
  destruct (@document_without_remote_images posix_lib md (lit "images") true serve_all
              (docs crlf_doc) crlf_doc ltac:(vm_compute; reflexivity)
              ltac:(apply remote_free_dec; vm_compute; reflexivity)
              ltac:(apply remote_free_dec; vm_compute; reflexivity)
              ltac:(apply remote_free_dec; vm_compute; reflexivity)
              ltac:(by left))
    as (text & Hrun & _ & _ & Hcrlf & _ & Hne & _).
  assert (Ht : text = lit "one" ++ [nl] ++ lit "two" ++ [nl]).
  { rewrite (Hcrlf (lit "one") (lit "two" ++ [cr; nl])); [|reflexivity|reflexivity].
    vm_compute. reflexivity. }
  rewrite Ht in Hrun, Hne. split; [exact Hrun|]. apply Hne. vm_compute. reflexivity.
Defined.

(** The headers of a session, with the defaults of requests 2.31. *)
Lemma session_headers_witness :
  get_header (lit "USER-AGENT") (build_session None) = Some HTTP_UA /\
  get_header (lit "Accept") (build_session (Some (lit "secret"))) = Some (lit "*/*") /\
  get_header (lit "Authorization") (build_session (Some [])) = None.
Proof.
  split; [|split].
  - apply (proj1 (@session_headers posix_platform None)). vm_compute. reflexivity.
  - rewrite (proj1 (proj2 (@session_headers posix_platform (Some (lit "secret")))))
      by (vm_compute; discriminate).
    vm_compute. reflexivity.
  - rewrite (proj2 (proj2 (@session_headers posix_platform (Some []))));
      [vm_compute; reflexivity|by right|vm_compute; reflexivity].
Defined.

(** The token [secret]. *)
Lemma session_authorization_witness :
  get_header (lit "authorization") (build_session (Some (lit "secret")))
    = Some (lit "Basic OnNlY3JldA==") /\
  Base64.b64decode (lit "OnNlY3JldA==") = Some (lit ":secret").
Proof.
  destruct (@session_authorization posix_platform (lit "secret") ltac:(discriminate))
    as (token & Hh & Hd & _).
  pose proof (Hh (lit "authorization") ltac:(vm_compute; reflexivity)) as Hget.
  assert (Ht : token = lit "OnNlY3JldA==").
  { vm_compute in Hget. by injection Hget as <-. }
  subst token. split; [exact Hget|exact Hd].
Defined.

Lemma tree_not_markdown_file p :
  is_file p tree = false -> ~ (is_file p tree = true /\ is_markdown p).
Proof. intros Hp [Hf _]. congruence. Qed.

(** The search in a tree with two documents, a picture and a directory named
    [old.md]. *)
Lemma find_md_spec_witness :
  find_md (lit "/docs/readme.md") tree = [lit "/docs/readme.md"] /\
  lit "/docs/sub/NOTES.MD" ∈ find_md (lit "/docs") tree /\
  lit "/docs/old.md" ∈ find_md (lit "/docs") tree /\
  (lit "/docs/pic.png" ∉ find_md (lit "/docs") tree) /\
  find_md (lit "/nowhere") tree = [].
Proof.
  destruct (@find_md_spec posix_platform (lit "/docs/readme.md") tree) as (Hfile & _).
  destruct (@find_md_spec posix_platform (lit "/docs") tree) as (_ & Hdir & _).
  destruct (@find_md_spec posix_platform (lit "/nowhere") tree) as (_ & _ & Hnone & _).
  specialize (Hdir (tree_not_markdown_file (lit "/docs") ltac:(vm_compute; reflexivity))
                ltac:(vm_compute; reflexivity)).
  split; [apply Hfile; [vm_compute; reflexivity|left; vm_compute; reflexivity]|].
  split.
  { apply Hdir. split; [left; vm_compute; reflexivity|].
    split; [|left; vm_compute; reflexivity].
    vm_compute. apply elem_of_cons. right. apply elem_of_cons. by left. }
  split.
  { apply Hdir. split; [right; vm_compute; reflexivity|].
    split; [|left; vm_compute; reflexivity].
    vm_compute. apply elem_of_cons. by left. }
  split.
  { intros Hin. apply Hdir in Hin as (_ & _ & [Hm|Hm]); vm_compute in Hm; discriminate. }
  apply Hnone; [apply tree_not_markdown_file|]; vm_compute; reflexivity.
Defined.

(** The copy that a conversion without overwrite writes is not found. *)
Lemma converted_copy_not_found_witness :
  exists w',
    process_md_file md (lit "images") false serve_all (docs spaced_doc)
      = Ok (lit "/docs/readme.md.converted") w' /\
    (lit "/docs/readme.md.converted" ∉ find_md (lit "/docs") w').
Proof.
  destruct (process_md_file md (lit "images") false serve_all (docs spaced_doc))
    as [outp w'|e w'] eqn:Hrun; [|vm_compute in Hrun; discriminate].
  destruct (@converted_copy_not_found posix_lib posix_platform _ _ _ _ _ _ Hrun)
    as [Hout Hnot].
  exists w'. subst outp. split; [reflexivity|apply Hnot].
Defined.

(** A target that does not exist. *)
Lemma main_exit_status_witness :
  main (MkArgs (lit "/nowhere") (lit "images") true None 20 2) (fun _ => serve_all)
       (MkProcess tree [])
  = (Some 1%Z, MkProcess (stderr_write NOT_FOUND_MSG tree) []).
Proof.
  pose proof (@main_exit_status posix_lib posix_platform
                (MkArgs (lit "/nowhere") (lit "images") true None 20 2)
                (fun _ => serve_all) (MkProcess tree [])) as Hx.
  cbn zeta in Hx. destruct Hx as (Hexit & _ & _ & Hnone).
  apply Hexit. apply Hnone; [vm_compute; reflexivity|left; vm_compute; reflexivity].
Defined.

(** Two documents: the first cannot be converted, because a regular file
    stands where its images would go; the second is converted all the
    same. *)
Lemma main_reports_every_document_witness :
  let r := main (run_args 20 2) (fun _ => serve_all) (MkProcess site []) in
  fst r = None /\
  p_stdout (snd r)
    = [lit "[OK] /docs/sub/NOTES.MD -> /docs/sub/NOTES.MD.converted" ++ [nl]] /\
  w_stderr (p_world (snd r))
    = [lit "[ERROR] /docs/readme.md: [Errno 17] File exists: '/docs/images'" ++ [nl]].
Proof.
  intros r.
  pose proof (@main_reports_every_document posix_lib posix_platform (run_args 20 2)
                (fun _ => serve_all) (MkProcess site [])) as Hx.
  cbn zeta in Hx. destruct Hx as (Hret & _ & _); [vm_compute; discriminate|].
  split; [exact Hret|]. split; vm_compute; reflexivity.
Defined.

(** A run with [--timeout 5 --retries 0] and the run with the defaults. *)
Lemma main_ignores_timeout_and_retries_witness :
  main (run_args 5 0) (fun _ => serve_none) (MkProcess site [])
  = main (run_args 20 2) (fun _ => serve_none) (MkProcess site []).
Proof.
  apply (@main_ignores_timeout_and_retries posix_lib posix_platform); reflexivity.
Defined.

(** A text that defines [logo] twice: the second definition stays. *)
Lemma parse_ref_defs_entries_witness :
  parse_ref_defs defs_doc !! lit "logo"
    = Some (lit "https://example.com/b.png", Some (lit "B")) /\
  parse_ref_defs defs_doc !! lit "Logo" = None.
Proof.
  destruct (parse_ref_defs_entries defs_doc) as (_ & Hlast & Hnone).
  destruct (finditer true MD_REF_DEF defs_doc) as [|m1 [|m2 [|m3 ms]]] eqn:E;
    try (vm_compute in E; discriminate).
  split.
  - specialize (Hlast [m1] m2 [] eq_refl).
    vm_compute in E. injection E as <- <-. apply Hlast.
    intros m' Hm'. by apply elem_of_nil in Hm'.
  - apply Hnone. vm_compute in E. injection E as <- <-.
    intros m [->|[->|Hm]%elem_of_cons]%elem_of_cons; [discriminate..|].
    by apply elem_of_nil in Hm.
Defined.

(** The tag of the specification, with the image cached. *)
Lemma html_src_rewritten_witness :
  exists m,
    match_at true HTML_IMG None lower_tag = Some m /\
    repl_html images serve_all (lit "/docs") m cached_slash
      = Ok (lit "<img src='images/logo.jpg' alt=" ++ quoted "x" ++ lit ">") cached_slash.
Proof.
  destruct (match_at true HTML_IMG None lower_tag) as [m|] eqn:Hm;
    [|vm_compute in Hm; discriminate].
  exists m. split; [reflexivity|].
  assert (Hsrc : default [] (group m g_src) = lit "https://host/a.jpg").
  { vm_compute in Hm. by injection Hm as <-. }
  destruct (@html_src_rewritten posix_lib images serve_all (lit "/docs") None lower_tag m
              cached_slash cached_slash (lit "images/logo.jpg") Hm)
    as (q & Hq & _ & Hcases).
  - rewrite Hsrc. vm_compute. reflexivity.
  - rewrite Hsrc. vm_compute. reflexivity.
  - vm_compute. reflexivity.
  - assert (Hqv : q = sq).
    { vm_compute in Hm. injection Hm as <-. by injection Hq as <-. }
    subst q.
    destruct Hcases as [(before & m' & after & q' & value & Hs & _ & _ & _ & Hr)|[Hs _]].
    + rewrite Hr. f_equal.
      assert (Hba : before = lit "<img " /\ after = lit " alt=" ++ quoted "x" ++ lit ">").
      { vm_compute in Hm. injection Hm as <-. vm_compute in Hs.
        by injection Hs as <- _ <-. }
      destruct Hba as [-> ->]. reflexivity.
    + vm_compute in Hm. injection Hm as <-. vm_compute in Hs. discriminate.
Defined.

(** The same tag, with the image cached under a path written with a
    backslash. *)
Lemma html_backslash_path_raises_witness :
  exists m,
    match_at true HTML_IMG None lower_tag = Some m /\
    repl_html images serve_all (lit "/docs") m cached_backslash
      = Raise (ReError (lit "bad replacement template")) cached_backslash.
Proof.
  destruct (match_at true HTML_IMG None lower_tag) as [m|] eqn:Hm;
    [|vm_compute in Hm; discriminate].
  exists m. split; [reflexivity|].
  assert (Hsrc : default [] (group m g_src) = lit "https://host/a.jpg").
  { vm_compute in Hm. by injection Hm as <-. }
  apply (@html_backslash_path_raises posix_lib images serve_all (lit "/docs") None
           lower_tag m cached_backslash cached_backslash (lit "images") "l"%char
           (lit "ogo.jpg") Hm);
    try (rewrite Hsrc); vm_compute; reflexivity.
Defined.

(** The match of the tag of the specification. *)
Lemma html_match_shape_witness :
  exists m q src,
    match_at true HTML_IMG None lower_tag = Some m /\
    group m g_q = Some [q] /\ (q = dq \/ q = sq) /\ group m g_src = Some src /\ src <> [].
Proof.
  destruct (match_at true HTML_IMG None lower_tag) as [m|] eqn:Hm;
    [|vm_compute in Hm; discriminate].
  destruct (html_match_shape None lower_tag m Hm)
    as (opening & attrs & name & q & src & tail & rest & _ & _ & _ & _ & Hq & Hsrc & _ & _
        & Hgq & Hgs).
  exists m, q, src. auto.
Defined.
